(** * script.js: the behaviour layer of the portfolio page

    A shallow embedding of [src/script.js].  The script is one closure that
    queries a handful of DOM elements and attaches event handlers to them.
    Each handler is embedded as a function over the part of the page it
    reads and writes:

    - [JsString]: strings as sequences of UTF-16 code units, with the
      built-ins the script calls ([trim], [includes], [encodeURIComponent],
      [String(n)]);
    - [Regex]: the fragment of regular expressions used by the e-mail check;
    - [Js]: a state-and-exception monad (a handler may throw half way);
    - [Nav], [Filter], [Modal], [Contact]: the four groups of handlers;
    - [Script]: the top-level statements that wire everything up. *)

From Stdlib Require Import NArith ZArith List String Ascii Lia Bool Decimal.
From stdpp Require Import base decidable option list numbers strings.
Import ListNotations.

Set Default Proof Using "Type".

(** A JavaScript string is a sequence of 16-bit code units. *)
Abbreviation jsstring := (list N).

(* ===================================================================== *)
(** * JavaScript strings                                                  *)
(* ===================================================================== *)

Module JsString.

(** An ASCII literal of the source, as code units. *)
Definition lit (s : string) : jsstring :=
  map N_of_ascii (list_ascii_of_string s).

(** U+2014 EM DASH, which the script's messages contain. *)
Definition emdash : N := 8212.

(** Truthiness of a string: only [''] is falsy. *)
Definition truthy (s : jsstring) : bool :=
  match s with [] => false | _ :: _ => true end.

(** [a || b] on strings. *)
Definition or_else (a b : jsstring) : jsstring :=
  if truthy a then a else b.

(** [o || d] where [o] may be [undefined] (a missing [data-*] attribute,
    [getAttribute] returning [null]). *)
Definition or_default (o : option jsstring) (d : jsstring) : jsstring :=
  match o with
  | Some s => or_else s d
  | None => d
  end.

(** WhiteSpace and LineTerminator code units of ECMAScript: what
    [String.prototype.trim] strips and what [\s] matches. *)
Definition isSpace (c : N) : bool :=
  (   (9 <=? c) && (c <=? 13)            (* TAB LF VT FF CR *)
   || (c =? 32)                          (* SPACE *)
   || (c =? 160)                         (* NO-BREAK SPACE *)
   || (c =? 5760)                        (* U+1680 *)
   || ((8192 <=? c) && (c <=? 8202))     (* U+2000 .. U+200A *)
   || (c =? 8232) || (c =? 8233)         (* U+2028 U+2029 *)
   || (c =? 8239)                        (* U+202F *)
   || (c =? 8287)                        (* U+205F *)
   || (c =? 12288)                       (* U+3000 *)
   || (c =? 65279))%N.                   (* U+FEFF *)

Fixpoint trimStart (s : jsstring) : jsstring :=
  match s with
  | c :: s' => if isSpace c then trimStart s' else s
  | [] => []
  end.

Definition trimEnd (s : jsstring) : jsstring :=
  rev (trimStart (rev s)).

Definition trim (s : jsstring) : jsstring :=
  trimEnd (trimStart s).

Fixpoint startsWith (pat s : jsstring) : bool :=
  match pat, s with
  | [], _ => true
  | p :: pat', c :: s' => (p =? c)%N && startsWith pat' s'
  | _ :: _, [] => false
  end.

(** [s.includes(pat)] *)
Fixpoint includes (s pat : jsstring) : bool :=
  startsWith pat s ||
  match s with
  | [] => false
  | _ :: s' => includes s' pat
  end.

(** ** [String(n)] for a non-negative integer *)

Fixpoint digits (u : Decimal.uint) : jsstring :=
  match u with
  | Nil => []
  | D0 u => 48%N :: digits u
  | D1 u => 49%N :: digits u
  | D2 u => 50%N :: digits u
  | D3 u => 51%N :: digits u
  | D4 u => 52%N :: digits u
  | D5 u => 53%N :: digits u
  | D6 u => 54%N :: digits u
  | D7 u => 55%N :: digits u
  | D8 u => 56%N :: digits u
  | D9 u => 57%N :: digits u
  end.

Definition ofNat (n : N) : jsstring := digits (N.to_uint n).

(** ** [encodeURIComponent] *)

Definition isAlnum (c : N) : bool :=
  (   ((48 <=? c) && (c <=? 57))
   || ((65 <=? c) && (c <=? 90))
   || ((97 <=? c) && (c <=? 122)))%N.

(** uriMark: [- _ . ! ~ * ' ( )] *)
Definition isMark (c : N) : bool :=
  existsb (N.eqb c) [45; 95; 46; 33; 126; 42; 39; 40; 41]%N.

Definition isUnreserved (c : N) : bool := isAlnum c || isMark c.

Definition isHighSurrogate (c : N) : bool := ((55296 <=? c) && (c <=? 56319))%N.
Definition isLowSurrogate (c : N) : bool := ((56320 <=? c) && (c <=? 57343))%N.

Definition codePoint (hi lo : N) : N :=
  ((hi - 55296) * 1024 + (lo - 56320) + 65536)%N.

Definition utf8 (cp : N) : list N :=
  if (cp <? 128)%N then [cp]
  else if (cp <? 2048)%N then
    [N.lor 192 (N.shiftr cp 6); N.lor 128 (N.land cp 63)]
  else if (cp <? 65536)%N then
    [N.lor 224 (N.shiftr cp 12);
     N.lor 128 (N.land (N.shiftr cp 6) 63);
     N.lor 128 (N.land cp 63)]
  else
    [N.lor 240 (N.shiftr cp 18);
     N.lor 128 (N.land (N.shiftr cp 12) 63);
     N.lor 128 (N.land (N.shiftr cp 6) 63);
     N.lor 128 (N.land cp 63)].

Definition hexDigit (d : N) : N :=
  if (d <? 10)%N then (48 + d)%N else (55 + d)%N.

(** One octet as [%XX], upper-case. *)
Definition percent (b : N) : jsstring :=
  [37%N; hexDigit (N.shiftr b 4); hexDigit (N.land b 15)].

Definition escapeOctets (bs : list N) : jsstring :=
  concat (map percent bs).

(** [None] stands for the [URIError] that the built-in throws on an
    unpaired surrogate. *)
Fixpoint encodeURIComponent (s : jsstring) : option jsstring :=
  match s with
  | [] => Some []
  | c :: rest =>
    if isUnreserved c then
      option_map (cons c) (encodeURIComponent rest)
    else if isHighSurrogate c then
      match rest with
      | d :: rest' =>
        if isLowSurrogate d then
          option_map (app (escapeOctets (utf8 (codePoint c d))))
                     (encodeURIComponent rest')
        else None
      | [] => None
      end
    else if isLowSurrogate c then None
    else
      option_map (app (escapeOctets (utf8 c))) (encodeURIComponent rest)
  end.

(** [String.prototype.isWellFormed]: no unpaired surrogate. *)
Fixpoint isWellFormed (s : jsstring) : bool :=
  match s with
  | [] => true
  | c :: rest =>
    if isHighSurrogate c then
      match rest with
      | d :: rest' => isLowSurrogate d && isWellFormed rest'
      | [] => false
      end
    else negb (isLowSurrogate c) && isWellFormed rest
  end.

(** [String.prototype.toWellFormed], which is also the conversion to a
    scalar-value string that the platform applies where an interface
    takes a [USVString]: every unpaired surrogate becomes U+FFFD. *)
Fixpoint toWellFormed (s : jsstring) : jsstring :=
  match s with
  | [] => []
  | c :: rest =>
    if isHighSurrogate c then
      match rest with
      | d :: rest' =>
        if isLowSurrogate d then c :: d :: toWellFormed rest'
        else 65533%N :: toWellFormed rest
      | [] => [65533%N]
      end
    else if isLowSurrogate c then 65533%N :: toWellFormed rest
    else c :: toWellFormed rest
  end.

End JsString.

Export JsString(lit).

(** Literals, [trim] and the matcher stay folded when a handler is
    simplified. *)
Arguments JsString.lit : simpl never.
Arguments JsString.trim : simpl never.
Arguments JsString.includes : simpl never.

(* ===================================================================== *)
(** * Regular expressions                                                 *)
(* ===================================================================== *)

(** The script has one regular expression, [/^\S+@\S+\.\S+$/], used with
    [test].  It has no captures, look-around or back-references, so [test]
    with both anchors decides membership of the whole string in a regular
    language; the matcher below does that by derivatives. *)

Module Regex.

Inductive re : Type :=
| Void                          (* matches nothing *)
| Eps                           (* the empty string *)
| Class (p : N -> bool)         (* one code unit satisfying [p] *)
| Cat (r1 r2 : re)
| Alt (r1 r2 : re)
| Star (r : re).

(** [r+] *)
Definition Plus (r : re) : re := Cat r (Star r).

(** A literal code unit. *)
Definition Chr (c : N) : re := Class (N.eqb c).

Fixpoint nullable (r : re) : bool :=
  match r with
  | Void => false
  | Eps => true
  | Class _ => false
  | Cat r1 r2 => nullable r1 && nullable r2
  | Alt r1 r2 => nullable r1 || nullable r2
  | Star _ => true
  end.

Fixpoint deriv (c : N) (r : re) : re :=
  match r with
  | Void => Void
  | Eps => Void
  | Class p => if p c then Eps else Void
  | Cat r1 r2 =>
    if nullable r1 then Alt (Cat (deriv c r1) r2) (deriv c r2)
    else Cat (deriv c r1) r2
  | Alt r1 r2 => Alt (deriv c r1) (deriv c r2)
  | Star r1 => Cat (deriv c r1) (Star r1)
  end.

(** [/^r$/.test(s)] *)
Fixpoint test (r : re) (s : jsstring) : bool :=
  match s with
  | [] => nullable r
  | c :: s' => test (deriv c r) s'
  end.

(** The language of an expression, for stating what [test] decides. *)
Inductive lang : re -> jsstring -> Prop :=
| L_eps : lang Eps []
| L_class p c : p c = true -> lang (Class p) [c]
| L_cat r1 r2 s1 s2 : lang r1 s1 -> lang r2 s2 -> lang (Cat r1 r2) (s1 ++ s2)
| L_alt_l r1 r2 s : lang r1 s -> lang (Alt r1 r2) s
| L_alt_r r1 r2 s : lang r2 s -> lang (Alt r1 r2) s
| L_star_nil r : lang (Star r) []
| L_star_cons r s1 s2 : lang r s1 -> lang (Star r) s2 -> lang (Star r) (s1 ++ s2).

(** [\S] *)
Definition nonSpace : re := Class (fun c => negb (JsString.isSpace c)).

(** [/^\S+@\S+\.\S+$/]; 64 is [@], 46 is [.] *)
Definition emailPattern : re :=
  Cat (Plus nonSpace)
      (Cat (Chr 64)
           (Cat (Plus nonSpace)
                (Cat (Chr 46)
                     (Plus nonSpace)))).

End Regex.

Arguments Regex.test : simpl never.

(* ===================================================================== *)
(** * Handlers as state transformers that may throw                       *)
(* ===================================================================== *)

Module Js.

Inductive error : Type :=
| TypeError   (* a property read or a call on [null]; a rejected [fetch] *)
| URIError.   (* [encodeURIComponent] on an unpaired surrogate *)

(** The result of running a piece of script on a state [St]: it returns a
    value, or it throws; either way the mutations done so far stay. *)
Inductive result (St A : Type) : Type :=
| Ok (a : A) (s : St)
| Throw (e : error) (s : St).
Arguments Ok {St A} a s.
Arguments Throw {St A} e s.

Definition M (St A : Type) : Type := St -> result St A.

Definition ret {St A} (a : A) : M St A := fun s => Ok a s.

Definition bind {St A B} (m : M St A) (k : A -> M St B) : M St B :=
  fun s =>
    match m s with
    | Ok a s' => k a s'
    | Throw e s' => Throw e s'
    end.

Definition throw {St A} (e : error) : M St A := fun s => Throw e s.

Definition gets {St A} (f : St -> A) : M St A := fun s => Ok (f s) s.
Definition modify {St} (f : St -> St) : M St unit := fun s => Ok tt (f s).

(** Dereferencing the result of [querySelector]: a [TypeError] on [null]. *)
Definition deref {St A} (f : St -> option A) : M St A :=
  fun s =>
    match f s with
    | Some a => Ok a s
    | None => Throw TypeError s
    end.

(** [try { body } catch (err) { handler }] *)
Definition try_catch {St A} (body : M St A) (handler : error -> M St A) : M St A :=
  fun s =>
    match body s with
    | Ok a s' => Ok a s'
    | Throw e s' => handler e s'
    end.

Definition when {St} (b : bool) (m : M St unit) : M St unit :=
  if b then m else ret tt.

(** [xs.forEach((x, i) => f i x)] *)
Fixpoint forEach_from {St A} (i : nat) (xs : list A) (f : nat -> A -> M St unit)
  : M St unit :=
  match xs with
  | [] => ret tt
  | x :: xs' => bind (f i x) (fun _ => forEach_from (S i) xs' f)
  end.

Definition forEach {St A} (xs : list A) (f : nat -> A -> M St unit) : M St unit :=
  forEach_from 0 xs f.

(** The state a run ends in, whether it returned or threw. *)
Definition final {St A} (r : result St A) : St :=
  match r with
  | Ok _ s => s
  | Throw _ s => s
  end.

Definition returned {St A} (r : result St A) : bool :=
  match r with
  | Ok _ _ => true
  | Throw _ _ => false
  end.

End Js.

Declare Scope js_scope.
Delimit Scope js_scope with js.
Notation "'let*' x ':=' m 'in' k" := (Js.bind m (fun x => k))
  (at level 10, x name, m at level 100, k at level 200) : js_scope.
Notation "m ';;' k" := (Js.bind m (fun _ => k))
  (at level 100, k at level 200, right associativity) : js_scope.

(* ===================================================================== *)
(** * Mobile navigation (script.js, lines 14-35)                          *)
(* ===================================================================== *)

Module Nav.

(** What the two handlers read and write: the [aria-expanded] attribute of
    [#nav-toggle] ([None] inside: the attribute is not set), the inline
    [style.display] of [#site-nav], and the viewport width.  The outer
    [option] of an element is [querySelector]'s [null]. *)
Record State : Type := mkState {
  navToggle : option (option jsstring);
  nav : option jsstring;
  innerWidth : Z
}.

Definition set_aria_expanded (v : jsstring) (s : State) : State :=
  mkState (Some (Some v)) (nav s) (innerWidth s).

Definition set_display (v : jsstring) (s : State) : State :=
  mkState (navToggle s) (Some v) (innerWidth s).

(** [String(b)] *)
Definition ofBool (b : bool) : jsstring :=
  if b then lit "true" else lit "false".

Local Open Scope js_scope.

(** The click handler of [#nav-toggle] (lines 17-25). *)
Definition toggle_click : Js.M State unit :=
  let* aria := Js.deref navToggle in
  let expanded := bool_decide (aria = Some (lit "true")) in
  Js.modify (set_aria_expanded (ofBool (negb expanded)));;
  let* display := Js.deref nav in
  if bool_decide (display = lit "block") then
    Js.modify (set_display (lit ""))
  else
    Js.modify (set_display (lit "block")).

(** The click handler of each link of [#site-nav] (lines 29-34); [&&]
    does not read [nav] on a wide viewport. *)
Definition link_click : Js.M State unit :=
  let* w := Js.gets innerWidth in
  if (w <=? 980)%Z then
    let* display := Js.deref nav in
    if bool_decide (display = lit "block") then
      Js.modify (set_display (lit ""));;
      let* _ := Js.deref navToggle in
      Js.modify (set_aria_expanded (lit "false"))
    else Js.ret tt
  else Js.ret tt.

Inductive event : Type := ToggleClick | LinkClick.

Definition handle (e : event) : Js.M State unit :=
  match e with
  | ToggleClick => toggle_click
  | LinkClick => link_click
  end.

(** A sequence of clicks; a handler that throws ends its own event only,
    the page goes on with the state it left. *)
Definition run (es : list event) (s : State) : State :=
  fold_left (fun s e => Js.final (handle e s)) es s.

(** [aria-expanded] is ['true']; the panel has been given the inline
    display ['block']. *)
Definition expanded (s : State) : bool :=
  bool_decide (navToggle s = Some (Some (lit "true"))).
Definition shown (s : State) : bool :=
  bool_decide (nav s = Some (lit "block")).

(** The attribute and the panel agree. *)
Definition in_sync (s : State) : Prop := expanded s = shown s.

(** Both elements exist. *)
Definition wired (s : State) : bool :=
  bool_decide (is_Some (navToggle s)) && bool_decide (is_Some (nav s)).

(** A narrow page as it loads: the menu is collapsed. *)
Definition sample : State :=
  mkState (Some (Some (lit "false"))) (Some (lit "")) 390.

(** The same page when its markup says [aria-expanded="true"]. *)
Definition marked_expanded : State :=
  mkState (Some (Some (lit "true"))) (Some (lit "")) 390.

End Nav.

(* ===================================================================== *)
(** * Project filtering (script.js, lines 64-87 and 225-233)              *)
(* ===================================================================== *)

Module Filter.

(** A [.project] card: its [data-category] and the three inline style
    properties the script assigns. *)
Record Card : Type := mkCard {
  category : option jsstring;
  display : jsstring;
  opacity : jsstring;
  transitionDelay : jsstring
}.

(** A [.filter] button: its [data-filter] and whether it carries the class
    [active]. *)
Record Button : Type := mkButton {
  dataFilter : option jsstring;
  active : bool
}.

(** Callbacks handed to [requestAnimationFrame]: the arrow of line 73 for
    card [i], and the start-up arrow of lines 227-232. *)
Inductive frameCallback : Type :=
| FadeIn (i : nat)
| StartAnimations.

#[export] Instance frameCallback_eq_dec : EqDecision frameCallback.
Proof. solve_decision. Defined.

(** [projects] and [filterButtons] are the arrays captured by [qsa] when
    the script starts; cards are named by their index.  [timers] are the
    pending [setTimeout] callbacks of line 76 with the time they are due,
    oldest first; [now] is the clock in milliseconds. *)
Record State : Type := mkState {
  projects : list Card;
  filterButtons : list Button;
  frameQueue : list frameCallback;
  timers : list (N * nat);
  now : N
}.

Definition set_projects (ps : list Card) (s : State) : State :=
  mkState ps (filterButtons s) (frameQueue s) (timers s) (now s).
Definition set_filterButtons (bs : list Button) (s : State) : State :=
  mkState (projects s) bs (frameQueue s) (timers s) (now s).
Definition set_frameQueue (q : list frameCallback) (s : State) : State :=
  mkState (projects s) (filterButtons s) q (timers s) (now s).
Definition set_timers (ts : list (N * nat)) (s : State) : State :=
  mkState (projects s) (filterButtons s) (frameQueue s) ts (now s).
Definition set_now (t : N) (s : State) : State :=
  mkState (projects s) (filterButtons s) (frameQueue s) (timers s) t.

Definition set_display (v : jsstring) (p : Card) : Card :=
  mkCard (category p) v (opacity p) (transitionDelay p).
Definition set_opacity (v : jsstring) (p : Card) : Card :=
  mkCard (category p) (display p) v (transitionDelay p).
Definition set_transitionDelay (v : jsstring) (p : Card) : Card :=
  mkCard (category p) (display p) (opacity p) v.

(** [p.style.x = v] on card [i]. *)
Definition style (f : Card -> Card) (i : nat) (s : State) : State :=
  set_projects (alter f i (projects s)) s.

Definition requestAnimationFrame (cb : frameCallback) (s : State) : State :=
  set_frameQueue (frameQueue s ++ [cb]) s.

(** [setTimeout(() => p.style.display = 'none', delay)] for card [i]. *)
Definition setTimeout (i : nat) (delay : N) (s : State) : State :=
  set_timers (timers s ++ [((now s + delay)%N, i)]) s.

(** [filter === 'all' || cat === filter]; [filter] is [undefined] when the
    clicked button has no [data-filter]. *)
Definition selects (filter : option jsstring) (p : Card) : bool :=
  let cat := JsString.or_default (category p) (lit "") in
  bool_decide (filter = Some (lit "all")) || bool_decide (Some cat = filter).

(** The body of the [forEach] of [applyFilter] for card [i]
    (lines 70-77). *)
Definition visit (filter : option jsstring) (s : State) (i : nat) : State :=
  match projects s !! i with
  | Some p =>
    if selects filter p then
      requestAnimationFrame (FadeIn i) (style (set_display (lit "")) i s)
    else
      setTimeout i 180 (style (set_opacity (lit "0")) i s)
  | None => s
  end.

(** [applyFilter(filter)] (lines 68-79). *)
Definition applyFilter (filter : option jsstring) (s : State) : State :=
  fold_left (visit filter) (seq 0 (length (projects s))) s.

(** The click handler of filter button [i] (lines 82-86). *)
Definition filter_click (i : nat) (s : State) : State :=
  match filterButtons s !! i with
  | Some btn =>
    let cleared := (fun b => mkButton (dataFilter b) false) <$> filterButtons s in
    let marked := alter (fun b => mkButton (dataFilter b) true) i cleared in
    applyFilter (dataFilter btn) (set_filterButtons marked s)
  | None => s
  end.

(** The start-up callback (lines 228-231) on card [i]. *)
Definition start_card (s : State) (i : nat) : State :=
  style (set_opacity (lit "1"))
        i
        (style (set_transitionDelay (JsString.ofNat (N.of_nat i * 45) ++ lit "ms")) i s).

Definition run_callback (s : State) (cb : frameCallback) : State :=
  match cb with
  | FadeIn i => style (set_opacity (lit "1")) i s
  | StartAnimations => fold_left start_card (seq 0 (length (projects s))) s
  end.

(** The browser paints a frame: the queued callbacks run in order. *)
Definition frame (s : State) : State :=
  fold_left run_callback (frameQueue s) (set_frameQueue [] s).

Definition due (t : N) (tm : N * nat) : bool := (tm.1 <=? t)%N.

(** [dt] milliseconds pass: the timers that are due fire in order. *)
Definition elapse (dt : N) (s : State) : State :=
  let t := (now s + dt)%N in
  let fired := List.filter (due t) (timers s) in
  let waiting := List.filter (fun tm => negb (due t tm)) (timers s) in
  fold_left (fun s tm => style (set_display (lit "none")) tm.2 s)
            fired
            (set_now t (set_timers waiting s)).

Inductive event : Type :=
| Click (button : nat)
| Frame
| Elapse (dt : N).

Definition step (s : State) (e : event) : State :=
  match e with
  | Click i => filter_click i s
  | Frame => frame s
  | Elapse dt => elapse dt s
  end.

Definition run (es : list event) (s : State) : State := fold_left step es s.

(** No callback of an earlier filter application is still waiting. *)
Definition quiescent (s : State) : Prop :=
  frameQueue s = [] /\ timers s = [].

Definition shown (p : Card) : Prop :=
  display p = lit "" /\ opacity p = lit "1".

Definition hidden (p : Card) : Prop :=
  opacity p = lit "0" /\ display p = lit "none".

(** What [applyFilter] does to one card at once. *)
Definition restyle (filter : option jsstring) (p : Card) : Card :=
  if selects filter p then set_display (lit "") p else set_opacity (lit "0") p.

(** Events in which the visitor does not press a filter button. *)
Definition passive (e : event) : bool :=
  match e with
  | Click _ => false
  | _ => true
  end.

Definition is_frame (e : event) : bool :=
  match e with
  | Frame => true
  | _ => false
  end.

(** The time that passes during a sequence of events. *)
Fixpoint elapsed (es : list event) : N :=
  match es with
  | [] => 0
  | Elapse dt :: es' => dt + elapsed es'
  | _ :: es' => elapsed es'
  end.

Definition is_fadeIn (cb : frameCallback) : bool :=
  match cb with
  | FadeIn _ => true
  | StartAnimations => false
  end.

(** Card [p'] is on its way from [p] to where [applyFilter(filter)],
    called at time [t0], wants it: a selected card is laid out and is
    opaque or about to be; another card is transparent and is out of the
    layout or about to be. *)
Definition on_its_way (filter : option jsstring) (t0 : N) (s' : State)
    (i : nat) (p p' : Card) : Prop :=
  category p' = category p /\
  if selects filter p then
    display p' = lit "" /\ (opacity p' = lit "1" \/ FadeIn i ∈ frameQueue s')
  else
    opacity p' = lit "0" /\ (display p' = lit "none" \/ ((t0 + 180)%N, i) ∈ timers s').

(** The page between [applyFilter(filter)], called at time [t0] on the
    cards [ps] with nothing pending, and the moment its callbacks have all
    run; [framed] says that a frame has been painted since. *)
Definition settling (filter : option jsstring) (ps : list Card) (t0 : N)
    (framed : bool) (s' : State) : Prop :=
  (forall i,
     match ps !! i with
     | Some p => exists p', projects s' !! i = Some p' /\ on_its_way filter t0 s' i p p'
     | None => projects s' !! i = None
     end) /\
  Forall (fun cb => exists i p,
            cb = FadeIn i /\ ps !! i = Some p /\ selects filter p = true)
         (frameQueue s') /\
  Forall (fun tm => tm.1 = (t0 + 180)%N /\
                    exists p, ps !! tm.2 = Some p /\ selects filter p = false)
         (timers s') /\
  (framed = true -> frameQueue s' = []) /\
  ((t0 + 180 <= now s')%N -> timers s' = []).

(** A page to try the handlers on: a web project and a design project,
    both visible, the buttons "all" and "web", nothing pending. *)
Definition web_card : Card := mkCard (Some (lit "web")) (lit "") (lit "1") (lit "").
Definition design_card : Card := mkCard (Some (lit "design")) (lit "") (lit "1") (lit "").

Definition sample : State :=
  mkState [web_card; design_card]
          [mkButton (Some (lit "all")) true; mkButton (Some (lit "web")) false]
          [] [] 0.

(** The same page 100 ms after a press on "web". *)
Definition sample_filtering : State := run [Click 1; Elapse 100] sample.

End Filter.

(* ===================================================================== *)
(** * Project modal (script.js, lines 89-147)                             *)
(* ===================================================================== *)

Module Modal.

(** The elements that can hold keyboard focus, as far as the handlers can
    tell them apart: [document.body], the [.modal-close] button, the
    [.open-project] buttons, and anything else on the page. *)
Inductive element : Type :=
| Body
| CloseButton
| OpenButton (i : nat)
| Other (i : nat).

#[export] Instance element_eq_dec : EqDecision element.
Proof. solve_decision. Defined.

(** [#modal-image] *)
Record Image : Type := mkImage {
  src : jsstring;
  alt : jsstring;
  imgDisplay : jsstring
}.

(** [modal] carries the [aria-hidden] attribute of [#project-modal]
    ([None] inside: not set); [modalTitle] and [modalDesc] their
    [textContent]; [modalClose] records whether [.modal-close] exists.
    [focusable] says on which elements [focus()] has an effect: the
    built-in does nothing on an element that cannot take focus.
    [lastFocused] is the closure variable of line 95. *)
Record State : Type := mkState {
  modal : option (option jsstring);
  modalTitle : option jsstring;
  modalDesc : option jsstring;
  modalImage : option Image;
  modalClose : bool;
  focusable : element -> bool;
  activeElement : option element;
  lastFocused : option element;
  bodyOverflow : jsstring
}.

Definition set_aria_hidden (v : jsstring) (s : State) : State :=
  mkState (Some (Some v)) (modalTitle s) (modalDesc s) (modalImage s)
          (modalClose s) (focusable s) (activeElement s) (lastFocused s)
          (bodyOverflow s).
Definition set_title (v : jsstring) (s : State) : State :=
  mkState (modal s) (Some v) (modalDesc s) (modalImage s)
          (modalClose s) (focusable s) (activeElement s) (lastFocused s)
          (bodyOverflow s).
Definition set_desc (v : jsstring) (s : State) : State :=
  mkState (modal s) (modalTitle s) (Some v) (modalImage s)
          (modalClose s) (focusable s) (activeElement s) (lastFocused s)
          (bodyOverflow s).
Definition set_image (v : Image) (s : State) : State :=
  mkState (modal s) (modalTitle s) (modalDesc s) (Some v)
          (modalClose s) (focusable s) (activeElement s) (lastFocused s)
          (bodyOverflow s).
Definition set_focusable (v : element -> bool) (s : State) : State :=
  mkState (modal s) (modalTitle s) (modalDesc s) (modalImage s)
          (modalClose s) v (activeElement s) (lastFocused s)
          (bodyOverflow s).
Definition set_activeElement (v : option element) (s : State) : State :=
  mkState (modal s) (modalTitle s) (modalDesc s) (modalImage s)
          (modalClose s) (focusable s) v (lastFocused s)
          (bodyOverflow s).
Definition set_lastFocused (v : option element) (s : State) : State :=
  mkState (modal s) (modalTitle s) (modalDesc s) (modalImage s)
          (modalClose s) (focusable s) (activeElement s) v
          (bodyOverflow s).
Definition set_bodyOverflow (v : jsstring) (s : State) : State :=
  mkState (modal s) (modalTitle s) (modalDesc s) (modalImage s)
          (modalClose s) (focusable s) (activeElement s) (lastFocused s)
          v.

Local Open Scope js_scope.

(** [el.focus()] on an element that exists. *)
Definition focus (el : element) : Js.M State unit :=
  let* ok := Js.gets (fun s => focusable s el) in
  Js.when ok (Js.modify (set_activeElement (Some el))).

(** [modalClose.focus()] *)
Definition focus_close : Js.M State unit :=
  let* present := Js.gets modalClose in
  if present then focus CloseButton else Js.throw Js.TypeError.

(** The argument object of [openModal]; a property may be [undefined]. *)
Record Content : Type := mkContent {
  title : option jsstring;
  desc : option jsstring;
  image : option jsstring
}.

(** A destructuring default, [{ x = d }]: it replaces [undefined] only. *)
Definition param (o : option jsstring) (d : jsstring) : jsstring :=
  match o with
  | Some v => v
  | None => d
  end.

(** [openModal({ title = '', desc = '', image = '' } = {})]
    (lines 97-112); calling it without an argument is [openModal] of a
    [Content] with the three properties undefined.  The setter of [src]
    takes a scalar-value string. *)
Definition openModal (c : Content) : Js.M State unit :=
  let title := param (title c) (lit "") in
  let desc := param (desc c) (lit "") in
  let image := param (image c) (lit "") in
  let* active := Js.gets activeElement in
  Js.modify (set_lastFocused active);;
  let* _ := Js.deref modalTitle in
  Js.modify (set_title title);;
  let* _ := Js.deref modalDesc in
  Js.modify (set_desc desc);;
  let* img := Js.deref modalImage in
  (if JsString.truthy image then
     Js.modify (set_image (mkImage (JsString.toWellFormed image) title (lit "")))
   else
     Js.modify (set_image (mkImage (src img) (alt img) (lit "none"))));;
  let* _ := Js.deref modal in
  Js.modify (set_aria_hidden (lit "false"));;
  focus_close;;
  Js.modify (set_bodyOverflow (lit "hidden")).

(** [closeModal()] (lines 114-118).  Every element has a [focus] method,
    so [lastFocused && lastFocused.focus] asks whether [lastFocused] is
    set. *)
Definition closeModal : Js.M State unit :=
  let* _ := Js.deref modal in
  Js.modify (set_aria_hidden (lit "true"));;
  let* last := Js.gets lastFocused in
  match last with
  | Some el => focus el
  | None => Js.ret tt
  end;;
  Js.modify (set_bodyOverflow (lit "")).

(** The click handler of an [.open-project] button with the given
    [data-title], [data-desc] and [data-image] (lines 121-126). *)
Definition open_project_click (dataset : Content) : Js.M State unit :=
  let t := JsString.or_default (title dataset) (lit "") in
  let d := JsString.or_default (desc dataset) (lit "") in
  let i := JsString.or_default (image dataset) (lit "") in
  openModal (mkContent (Some t) (Some d) (Some i)).

(** The click handler of [#project-modal] (lines 130-132);
    [on_backdrop] is [e.target === modal]. *)
Definition modal_click (on_backdrop : bool) : Js.M State unit :=
  Js.when on_backdrop closeModal.

(** [modal.getAttribute('aria-hidden') === 'false'] *)
Definition is_open : Js.M State bool :=
  let* hidden := Js.deref modal in
  Js.ret (bool_decide (hidden = Some (lit "false"))).

(** [document.activeElement === modalClose]; both sides may be [null]. *)
Definition close_has_focus (s : State) : bool :=
  bool_decide (activeElement s = if modalClose s then Some CloseButton else None).

(** The [keydown] handler of the document (lines 135-147).  It returns
    whether it called [e.preventDefault()]; [&&] reads the attribute only
    when the key matches. *)
Definition keydown (key : jsstring) (shiftKey : bool) : Js.M State bool :=
  let* escape :=
    if bool_decide (key = lit "Escape") then is_open else Js.ret false in
  Js.when escape closeModal;;
  let* tab :=
    if bool_decide (key = lit "Tab") then is_open else Js.ret false in
  if tab then
    let* on_close := Js.gets close_has_focus in
    if on_close && negb shiftKey then
      focus_close;;
      Js.ret true
    else Js.ret false
  else Js.ret false.

(** What can happen to the modal once the page runs.  [UserFocus] is the
    focus moving without the script's doing; [Focusability] is the page
    changing which elements can take focus (one is disabled, hidden or
    removed, or comes back). *)
Inductive event : Type :=
| OpenProject (dataset : Content)
| CloseClick
| ModalClick (on_backdrop : bool)
| Keydown (key : jsstring) (shiftKey : bool)
| UserFocus (el : option element)
| Focusability (can : element -> bool).

Definition handle (e : event) : Js.M State unit :=
  match e with
  | OpenProject d => open_project_click d
  | CloseClick => closeModal
  | ModalClick b => modal_click b
  | Keydown k sh => let* _ := keydown k sh in Js.ret tt
  | UserFocus el => Js.modify (set_activeElement el)
  | Focusability can => Js.modify (set_focusable can)
  end.

Definition run (es : list event) (s : State) : State :=
  fold_left (fun s e => Js.final (handle e s)) es s.

Definition opens (e : event) : bool :=
  match e with
  | OpenProject _ => true
  | _ => false
  end.

(** The five elements [openModal] and [closeModal] dereference exist. *)
Definition wired (s : State) : bool :=
  bool_decide (is_Some (modal s)) && bool_decide (is_Some (modalTitle s)) &&
  bool_decide (is_Some (modalDesc s)) && bool_decide (is_Some (modalImage s)) &&
  modalClose s.

(** [el] holds the keyboard focus: it is the active element and it is an
    element that takes focus ([document.body] is the active element when
    nothing is focused). *)
Definition has_focus (s : State) (el : element) : bool :=
  bool_decide (activeElement s = Some el) && focusable s el.

(** Where [el.focus()] leaves the focus. *)
Definition focus_after (s : State) (el : element) : option element :=
  if focusable s el then Some el else activeElement s.

(** The image element after [openModal(c)]. *)
Definition image_after (c : Content) (img : Image) : Image :=
  if JsString.truthy (param (image c) (lit "")) then
    mkImage (JsString.toWellFormed (param (image c) (lit "")))
            (param (title c) (lit "")) (lit "")
  else
    mkImage (src img) (alt img) (lit "none").

(** What nothing but [openModal] touches. *)
Definition fixed_part (s : State) :=
  (modalTitle s, modalDesc s, modalImage s, modalClose s, lastFocused s).

(** A page to try the handlers on: the modal is closed, everything but
    the body can take focus, and the focus is on the first
    [.open-project] button. *)
Definition sample : State :=
  mkState (Some (Some (lit "true"))) (Some (lit "")) (Some (lit ""))
          (Some (mkImage (lit "") (lit "") (lit "none")))
          true
          (fun el => match el with Body => false | _ => true end)
          (Some (OpenButton 0)) None (lit "").

(** The same page when nothing is focused: the active element is the
    body, and [button_disabled] is the page once the first button, which
    has the focus in [sample], is disabled. *)
Definition sample_unfocused : State := set_activeElement (Some Body) sample.
Definition button_disabled (el : element) : bool :=
  match el with
  | Body | OpenButton 0 => false
  | _ => true
  end.

(** A project with a picture and one without. *)
Definition compiler : Content :=
  mkContent (Some (lit "Compiler")) (Some (lit "A small compiler"))
            (Some (lit "img/compiler.png")).
Definition notes : Content :=
  mkContent (Some (lit "Notes")) (Some (lit "Plain text")) (Some (lit "")).

(** The modal open on [notes]; the same with the focus moved elsewhere;
    and the modal closed again after showing [compiler]. *)
Definition sample_open : State := Js.final (openModal notes sample).
Definition sample_elsewhere : State :=
  set_activeElement (Some (Other 0)) sample_open.
Definition sample_closed_again : State :=
  Js.final (closeModal (Js.final (openModal compiler sample))).

End Modal.

(* ===================================================================== *)
(** * JSON values                                                         *)
(* ===================================================================== *)

(** What [resp.json()] can give: the values of [JSON.parse].  They are
    plain data, so an object has own data properties only and inherits
    from [Object.prototype], an array from [Array.prototype]. *)

Module Json.

(** A number is kept as the text [String(n)] of it, which is all the
    script can observe of a number; [-0] reads ["0"].  An object is the
    list of its own properties, each key once. *)
#[warnings="-register-all"]
Inductive value : Type :=
| Null
| Bool (b : bool)
| Number (text : jsstring)
| String (s : jsstring)
| Array (items : list value)
| Object (members : list (jsstring * value)).

(** [ToBoolean]: the parser gives no [NaN], so a number is falsy exactly
    when it is zero. *)
Definition truthy (v : value) : bool :=
  match v with
  | Null => false
  | Bool b => b
  | Number text => negb (bool_decide (text = lit "0"))
  | String s => JsString.truthy s
  | Array _ => true
  | Object _ => true
  end.

(** [v[key]] on a truthy value, for a [key] that no prototype defines,
    such as [error]; [None] is [undefined]. *)
Definition member (key : jsstring) (v : value) : option value :=
  match v with
  | Object members => (fun found => found.2.2) <$> list_find (fun m => m.1 = key) members
  | _ => None
  end.

(** [ToString], as the setter of [textContent] applies it; [None] is the
    [TypeError] of an object whose own [toString] is not a function.
    [Array.prototype.join] writes nothing for [null]. *)
Fixpoint toString (v : value) : option jsstring :=
  match v with
  | Null => Some (lit "null")
  | Bool b => Some (if b then lit "true" else lit "false")
  | Number text => Some text
  | String s => Some s
  | Array items =>
    (fix join (l : list value) : option jsstring :=
       match l with
       | [] => Some []
       | x :: l' =>
         match (match x with Null => Some [] | _ => toString x end) with
         | Some first =>
           match l' with
           | [] => Some first
           | _ :: _ =>
             match join l' with
             | Some rest => Some (first ++ 44%N :: rest)
             | None => None
             end
           end
         | None => None
         end
       end) items
  | Object members =>
    if existsb (fun m => bool_decide (m.1 = lit "toString")) members then None
    else Some (lit "[object Object]")
  end.

End Json.

(* ===================================================================== *)
(** * Contact form (script.js, lines 159-223)                             *)
(* ===================================================================== *)

Module Contact.

(** A form control: its current value and the default that
    [form.reset()] brings back. *)
Record Field : Type := mkField {
  value : jsstring;
  defaultValue : jsstring
}.

(** [#form-status]: its text and its inline colour. *)
Record Status : Type := mkStatus {
  textContent : jsstring;
  color : jsstring
}.

(** [form] carries the [action] attribute of [#contact-form]; [href] is
    [window.location.href]. *)
Record State : Type := mkState {
  form : option (option jsstring);
  status : option Status;
  nameField : option Field;
  emailField : option Field;
  messageField : option Field;
  href : jsstring
}.

Definition set_status (v : Status) (s : State) : State :=
  mkState (form s) (Some v) (nameField s) (emailField s) (messageField s) (href s).
Definition set_fields (n e m : option Field) (s : State) : State :=
  mkState (form s) (status s) n e m (href s).
Definition set_href (v : jsstring) (s : State) : State :=
  mkState (form s) (status s) (nameField s) (emailField s) (messageField s) v.

Local Open Scope js_scope.

(** [status.textContent = v] *)
Definition status_text (v : jsstring) : Js.M State unit :=
  let* st := Js.deref status in
  Js.modify (set_status (mkStatus v (color st))).

(** [status.style.color = v] *)
Definition status_color (v : jsstring) : Js.M State unit :=
  let* st := Js.deref status in
  Js.modify (set_status (mkStatus (textContent st) v)).

(** [qs(sel).value.trim()] *)
Definition trimmed (field : State -> option Field) : Js.M State jsstring :=
  let* f := Js.deref field in
  Js.ret (JsString.trim (value f)).

(** [encodeURIComponent(s)], which may throw. *)
Definition encode (s : jsstring) : Js.M State jsstring :=
  match JsString.encodeURIComponent s with
  | Some e => Js.ret e
  | None => Js.throw Js.URIError
  end.

Definition msg_complete : jsstring := lit "Please complete all fields.".
Definition msg_email : jsstring := lit "Please enter a valid email address.".
Definition msg_sending : jsstring := lit "Sending...".
Definition msg_sent : jsstring :=
  lit "Thanks " ++ [JsString.emdash] ++ lit " message sent.".
Definition msg_failed : jsstring :=
  lit "Submission failed " ++ [JsString.emdash] ++ lit " try the email fallback.".
Definition msg_network : jsstring :=
  lit "Network error " ++ [JsString.emdash] ++ lit " please use the email fallback.".

(** [`${message}\n\n— ${name}\n${email}`] *)
Definition draft_body (name email message : jsstring) : jsstring :=
  message ++ [10; 10; JsString.emdash; 32]%N ++ name ++ [10%N] ++ email.

(** [`mailto:monishp2212@gmail.com?subject=${subject}&body=${body}`] *)
Definition mailto (subject body : jsstring) : jsstring :=
  lit "mailto:monishp2212@gmail.com?subject=" ++ subject ++ lit "&body=" ++ body.

(** The click handler of [#mail-fallback] (lines 165-172). *)
Definition mail_fallback_click : Js.M State unit :=
  let* name := trimmed nameField in
  let* email := trimmed emailField in
  let* message := trimmed messageField in
  let* subject := encode (lit "Contact from " ++ JsString.or_else name (lit "Website")) in
  let* body := encode (draft_body name email message) in
  Js.modify (set_href (mailto subject body)).

(** What [fetch] was called with: the URL and the [FormData] of the
    form, that is the entries of its three controls. *)
Record Request : Type := mkRequest {
  url : jsstring;
  formData : jsstring * jsstring * jsstring
}.

(** How the awaited [fetch] settles.  A response has its [ok] flag and
    what [resp.json().catch(() => null)] gives: the parsed body, or
    [null] when the body is not JSON. *)
Inductive fetchResult : Type :=
| Rejected
| Response (ok : bool) (data : Json.value).

(** Where the submit handler stands when it gives control back: at its
    end, or at [await fetch(...)]. *)
Inductive progress : Type :=
| Finished
| Awaiting (req : Request).

(** [form.reset()] *)
Definition reset : Js.M State unit :=
  let* _ := Js.deref form in
  let back := fun f => mkField (defaultValue f) (defaultValue f) in
  Js.modify (fun s => set_fields (back <$> nameField s) (back <$> emailField s)
                                 (back <$> messageField s) s).

(** [new FormData(form)]: an entry takes the value of its control
    untrimmed, converted to a scalar-value string. *)
Definition new_FormData : Js.M State (jsstring * jsstring * jsstring) :=
  let* _ := Js.deref form in
  let* n := Js.deref nameField in
  let* e := Js.deref emailField in
  let* m := Js.deref messageField in
  Js.ret (JsString.toWellFormed (value n), JsString.toWellFormed (value e),
          JsString.toWellFormed (value m)).

(** [catch (err) { ... }] of lines 212-215 *)
Definition on_network_error (_ : Js.error) : Js.M State unit :=
  status_text msg_network;;
  status_color (lit "tomato").

(** The submit handler up to its first [await] (lines 177-202 and
    216-221).  [e.preventDefault()] has no effect on the state kept
    here. *)
Definition submit_begin : Js.M State progress :=
  status_text (lit "");;
  let* name := trimmed nameField in
  let* email := trimmed emailField in
  let* message := trimmed messageField in
  if negb (JsString.truthy name) || negb (JsString.truthy email)
     || negb (JsString.truthy message) then
    status_text msg_complete;;
    status_color (lit "tomato");;
    Js.ret Finished
  else if negb (Regex.test Regex.emailPattern email) then
    status_text msg_email;;
    status_color (lit "tomato");;
    Js.ret Finished
  else
    let* attr := Js.deref form in
    let action := JsString.or_default attr (lit "") in
    if JsString.includes action (lit "formspree.io") then
      status_text msg_sending;;
      status_color (lit "var(--muted)");;
      Js.try_catch
        (let* data := new_FormData in
         Js.ret (Awaiting (mkRequest action data)))
        (fun err => on_network_error err;; Js.ret Finished)
    else
      let* subject := encode (lit "Contact from " ++ name) in
      let* body := encode (draft_body name email message) in
      Js.modify (set_href (mailto subject body));;
      Js.ret Finished.

(** [data && data.error], when it is truthy: a falsy [data] has no
    property read from it. *)
Definition truthy_error (data : Json.value) : option Json.value :=
  if Json.truthy data then
    match Json.member (lit "error") data with
    | Some e => if Json.truthy e then Some e else None
    | None => None
    end
  else None.

(** The rest of the [try] block once [fetch] has settled (lines 203-211);
    a rejected [fetch] throws at the [await].  The setter of
    [textContent] converts what it is given to a string, which can throw
    before anything is written. *)
Definition after_fetch (r : fetchResult) : Js.M State unit :=
  match r with
  | Rejected => Js.throw Js.TypeError
  | Response true _ =>
    status_text msg_sent;;
    status_color (lit "limegreen");;
    reset
  | Response false data =>
    match truthy_error data with
    | Some e =>
      match Json.toString e with
      | Some text => status_text text
      | None => Js.throw Js.TypeError
      end
    | None => status_text msg_failed
    end;;
    status_color (lit "tomato")
  end.

(** The submit handler from the moment [fetch] settles. *)
Definition submit_resume (r : fetchResult) : Js.M State unit :=
  Js.try_catch (after_fetch r) on_network_error.

(** A whole submission, when nothing else touches the page while the
    request is in flight. *)
Definition submit (r : fetchResult) : Js.M State progress :=
  let* p := submit_begin in
  match p with
  | Finished => Js.ret Finished
  | Awaiting req => submit_resume r;; Js.ret (Awaiting req)
  end.

(** The remote endpoint is configured: the test of line 197. *)
Definition remote_configured (s : State) : bool :=
  match form s with
  | Some attr => JsString.includes (JsString.or_default attr (lit "")) (lit "formspree.io")
  | None => false
  end.

(** A page to try the handlers on: the form posts to Formspree and the
    visitor has typed the three values given. *)
Definition sample (name email message : jsstring) : State :=
  mkState (Some (Some (lit "https://formspree.io/f/xyzabcde")))
          (Some (mkStatus (lit "") (lit "")))
          (Some (mkField name (lit "")))
          (Some (mkField email (lit "")))
          (Some (mkField message (lit "")))
          (lit "https://example.org/#contact").

Definition filled : State :=
  sample (lit "Ann") (lit "ann@example.org") (lit "Hello").

(** The same values on a form that posts to an endpoint of the site's
    own. *)
Definition own_endpoint : State :=
  mkState (Some (Some (lit "https://api.example.com/contact")))
          (Some (mkStatus (lit "") (lit "")))
          (Some (mkField (lit "Ann") (lit "")))
          (Some (mkField (lit "ann@example.org") (lit "")))
          (Some (mkField (lit "Hello") (lit "")))
          (lit "https://example.org/#contact").


(** Nothing typed but two spaces and a few words where the address goes. *)
Definition scribbled : State :=
  sample (lit "  ") (lit "not an address") (lit "").

(** The name is a lone high surrogate, U+D800. *)
Definition half_character : State :=
  sample [55296%N] (lit "ann@example.org") (lit "Hello").

(** The form, its status region and its three controls exist. *)
Definition wired (s : State) : bool :=
  bool_decide (is_Some (form s)) && bool_decide (is_Some (status s)) &&
  bool_decide (is_Some (nameField s)) && bool_decide (is_Some (emailField s)) &&
  bool_decide (is_Some (messageField s)).

(** The values of the three controls, and the values they have after a
    reset. *)
Definition values (s : State) : option jsstring * option jsstring * option jsstring :=
  (value <$> nameField s, value <$> emailField s, value <$> messageField s).

Definition fields (s : State) : option Field * option Field * option Field :=
  (nameField s, emailField s, messageField s).

Definition defaults (s : State) : option jsstring * option jsstring * option jsstring :=
  (defaultValue <$> nameField s, defaultValue <$> emailField s,
   defaultValue <$> messageField s).

(** The two checks of lines 183 and 189 let the submission through. *)
Definition valid (s : State) : bool :=
  match nameField s, emailField s, messageField s with
  | Some n, Some e, Some m =>
    JsString.truthy (JsString.trim (value n)) &&
    JsString.truthy (JsString.trim (value e)) &&
    JsString.truthy (JsString.trim (value m)) &&
    Regex.test Regex.emailPattern (JsString.trim (value e))
  | _, _, _ => false
  end.

(** ** The shape of an e-mail address in words

    "Non-space characters, then [@], then non-space characters, then [.],
    then non-space characters", over the whole string. *)
Definition nonSpaces (s : jsstring) : Prop :=
  s <> [] /\ Forall (fun c => JsString.isSpace c = false) s.

Definition email_shape (s : jsstring) : Prop :=
  exists a b c : jsstring,
    s = a ++ [64%N] ++ b ++ [46%N] ++ c /\
    nonSpaces a /\ nonSpaces b /\ nonSpaces c.

End Contact.

(* ===================================================================== *)
(** * The top-level statements (script.js, lines 2-234)                   *)
(* ===================================================================== *)

Module Script.

(** The listeners and observations the script registers when it runs. *)
Inductive listener : Type :=
| NavToggleClick
| NavLinkClick (i : nat)
| AnchorClick (i : nat)
| SectionObserved (i : nat)
| FilterClick (i : nat)
| OpenProjectClick (i : nat)
| ModalCloseClick
| ModalClick
| DocumentKeydown
| CardKeydown (i : nat)
| MailFallbackClick
| FormSubmit.

#[export] Instance listener_eq_dec : EqDecision listener.
Proof. solve_decision. Defined.

(** The page the script finds when it starts.  The four component states
    say which of the queried elements exist; the counters are the lengths
    of the arrays that the remaining [qsa] calls return. *)
Record Page : Type := mkPage {
  yearEl : option jsstring;
  currentYear : N;
  reducedMotion : bool;
  navState : Nav.State;
  navLinks : nat;
  anchors : nat;
  sections : nat;
  filterState : Filter.State;
  openButtons : nat;
  modalState : Modal.State;
  mailFallback : bool;
  contactState : Contact.State;
  listeners : list listener
}.

Definition set_yearEl (v : jsstring) (p : Page) : Page :=
  mkPage (Some v) (currentYear p) (reducedMotion p) (navState p) (navLinks p)
         (anchors p) (sections p) (filterState p) (openButtons p)
         (modalState p) (mailFallback p) (contactState p) (listeners p).
Definition set_filterState (v : Filter.State) (p : Page) : Page :=
  mkPage (yearEl p) (currentYear p) (reducedMotion p) (navState p) (navLinks p)
         (anchors p) (sections p) v (openButtons p)
         (modalState p) (mailFallback p) (contactState p) (listeners p).
Definition set_listeners (v : list listener) (p : Page) : Page :=
  mkPage (yearEl p) (currentYear p) (reducedMotion p) (navState p) (navLinks p)
         (anchors p) (sections p) (filterState p) (openButtons p)
         (modalState p) (mailFallback p) (contactState p) v.

Local Open Scope js_scope.

(** [target.addEventListener(...)] on a target that exists. *)
Definition addEventListener (l : listener) : Js.M Page unit :=
  Js.modify (fun p => set_listeners (listeners p ++ [l]) p).

(** [qsa(sel).forEach(x => x.addEventListener(...))] over [n] elements. *)
Definition addEach (n : nat) (l : nat -> listener) : Js.M Page unit :=
  Js.forEach (seq 0 n) (fun _ i => addEventListener (l i)).

(** [el && el.addEventListener(...)], [if (el) el.addEventListener(...)] *)
Definition addIfPresent {A} (el : Page -> option A) (l : listener) : Js.M Page unit :=
  let* e := Js.gets el in
  Js.when (bool_decide (is_Some e)) (addEventListener l).

(** The body of the closure, statement by statement. *)
Definition init : Js.M Page unit :=
  (* 11-12 *)
  (let* y := Js.gets yearEl in
   let* year := Js.gets currentYear in
   Js.when (bool_decide (is_Some y)) (Js.modify (set_yearEl (JsString.ofNat year))));;
  (* 17 *)
  addIfPresent (fun p => Nav.navToggle (navState p)) NavToggleClick;;
  (* 28 *)
  (let* n := Js.gets navLinks in addEach n NavLinkClick);;
  (* 38 *)
  (let* n := Js.gets anchors in addEach n AnchorClick);;
  (* 62 *)
  (let* n := Js.gets sections in addEach n SectionObserved);;
  (* 81 *)
  (let* n := Js.gets (fun p => length (Filter.filterButtons (filterState p))) in
   addEach n FilterClick);;
  (* 120 *)
  (let* n := Js.gets openButtons in addEach n OpenProjectClick);;
  (* 129 *)
  (let* present := Js.gets (fun p => Modal.modalClose (modalState p)) in
   Js.when present (addEventListener ModalCloseClick));;
  (* 130: no test before the call *)
  (let* _ := Js.deref (fun p => Modal.modal (modalState p)) in
   addEventListener ModalClick);;
  (* 135 *)
  addEventListener DocumentKeydown;;
  (* 150 *)
  (let* n := Js.gets (fun p => length (Filter.projects (filterState p))) in
   addEach n CardKeydown);;
  (* 164 *)
  (let* present := Js.gets mailFallback in
   Js.when present (addEventListener MailFallbackClick));;
  (* 175 *)
  addIfPresent (fun p => Contact.form (contactState p)) FormSubmit;;
  (* 226 *)
  (let* reduced := Js.gets reducedMotion in
   Js.when (negb reduced)
     (Js.modify (fun p =>
        set_filterState
          (Filter.requestAnimationFrame Filter.StartAnimations (filterState p)) p))).

(** The six elements that the contact form, the modal and the navigation
    need, by name. *)
Inductive expected : Type :=
| NavToggle
| NavPanel
| ModalContainer
| CloseControl
| ContactForm
| StatusRegion.

Definition present (e : expected) (p : Page) : bool :=
  match e with
  | NavToggle => bool_decide (is_Some (Nav.navToggle (navState p)))
  | NavPanel => bool_decide (is_Some (Nav.nav (navState p)))
  | ModalContainer => bool_decide (is_Some (Modal.modal (modalState p)))
  | CloseControl => Modal.modalClose (modalState p)
  | ContactForm => bool_decide (is_Some (Contact.form (contactState p)))
  | StatusRegion => bool_decide (is_Some (Contact.status (contactState p)))
  end.

(** The listeners that come one per element of an array. *)
Definition indexed (l : listener) : bool :=
  match l with
  | NavLinkClick _ | AnchorClick _ | SectionObserved _ | FilterClick _
  | OpenProjectClick _ | CardKeydown _ => true
  | _ => false
  end.

(** What the statements before line 130 register, in order. *)
Definition attached_before (p : Page) : list listener :=
  (if present NavToggle p then [NavToggleClick] else []) ++
  (NavLinkClick <$> seq 0 (navLinks p)) ++
  (AnchorClick <$> seq 0 (anchors p)) ++
  (SectionObserved <$> seq 0 (sections p)) ++
  (FilterClick <$> seq 0 (length (Filter.filterButtons (filterState p)))) ++
  (OpenProjectClick <$> seq 0 (openButtons p)) ++
  (if present CloseControl p then [ModalCloseClick] else []).

(** What line 130 and the statements after it register. *)
Definition attached_after (p : Page) : list listener :=
  [ModalClick; DocumentKeydown] ++
  (CardKeydown <$> seq 0 (length (Filter.projects (filterState p)))) ++
  (if mailFallback p then [MailFallbackClick] else []) ++
  (if present ContactForm p then [FormSubmit] else []).

(** Lines 11-12. *)
Definition with_year (p : Page) : Page :=
  mkPage (match yearEl p with
          | Some _ => Some (JsString.ofNat (currentYear p))
          | None => None
          end)
         (currentYear p) (reducedMotion p) (navState p) (navLinks p)
         (anchors p) (sections p) (filterState p) (openButtons p)
         (modalState p) (mailFallback p) (contactState p) (listeners p).

(** Lines 226-233. *)
Definition with_start_animations (p : Page) : Page :=
  if reducedMotion p then p
  else set_filterState
         (Filter.requestAnimationFrame Filter.StartAnimations (filterState p)) p.

(** A page with every element the script looks for, and the same page
    without [#project-modal]. *)
Definition complete : Page :=
  mkPage (Some (lit "")) 2024 false Nav.sample 4 6 5 Filter.sample 2 Modal.sample
         true (Contact.sample (lit "") (lit "") (lit "")) [].

Definition without_modal : Page :=
  mkPage (Some (lit "")) 2024 false Nav.sample 4 6 5 Filter.sample 2
         (Modal.mkState None (Some (lit "")) (Some (lit ""))
            (Some (Modal.mkImage (lit "") (lit "") (lit "none"))) true
            (Modal.focusable Modal.sample) (Some Modal.Body) None (lit ""))
         true (Contact.sample (lit "") (lit "") (lit "")) [].

End Script.

(* ===================================================================== *)
(** * Scroll spy (script.js, lines 51-62)                                 *)
(* ===================================================================== *)

Module Spy.

(** A link of [.primary-nav]: its [href] attribute and whether it carries
    the class [active]. *)
Record Link : Type := mkLink {
  href : option jsstring;
  active : bool
}.

(** An entry handed to the observer's callback: the [id] of the section
    observed and [isIntersecting]. *)
Record Entry : Type := mkEntry {
  target : jsstring;
  isIntersecting : bool
}.

(** [`#${id}`] *)
Definition hash (id : jsstring) : jsstring := 35%N :: id.

(** [navLinks.find(a => a.getAttribute('href') === `#${id}`)], with the
    position of the link it finds. *)
Definition find_link (id : jsstring) (links : list Link) : option (nat * Link) :=
  list_find (fun a => href a = Some (hash id)) links.

(** The body of [entries.forEach] (lines 56-58);
    [classList.toggle('active', force)] makes the class present exactly
    when [force] is true. *)
Definition observe (links : list Link) (e : Entry) : list Link :=
  match find_link (target e) links with
  | Some (i, _) => alter (fun a => mkLink (href a) (isIntersecting e)) i links
  | None => links
  end.

(** The callback given to [IntersectionObserver] (lines 54-60). *)
Definition callback (entries : list Entry) (links : list Link) : list Link :=
  fold_left observe entries links.

End Spy.

(* ===================================================================== *)
(** * Enter on a project card (script.js, lines 149-157)                  *)
(* ===================================================================== *)

Module Cards.

(** The keydown handler of a card.  [button] is what
    [card.querySelector('.open-project')] finds, given by its dataset;
    [btn.click()] runs the click handler of lines 121-126 before it
    returns, and an exception thrown by that listener is reported by the
    browser, not passed on to the caller of [click()]. *)
Definition card_keydown (key : jsstring) (button : option Modal.Content)
  : Js.M Modal.State unit :=
  if bool_decide (key = lit "Enter") then
    match button with
    | Some dataset =>
      Js.modify (fun s => Js.final (Modal.open_project_click dataset s))
    | None => Js.ret tt
    end
  else Js.ret tt.

End Cards.

(* ===================================================================== *)
(** * What an encoded component is made of                                *)
(* ===================================================================== *)

Module Uri.

(** Every element of a JavaScript string is a 16-bit code unit. *)
Definition codeUnits (s : jsstring) : bool :=
  forallb (fun c => (c <? 65536)%N) s.

(** The characters [encodeURIComponent] lets through, and [%]. *)
Definition escaped (s : jsstring) : bool :=
  forallb (fun c => JsString.isUnreserved c || (c =? 37)%N) s.

End Uri.

(* ===================================================================== *)
(** * Pages to try the handlers on                                        *)
(* ===================================================================== *)

Module Pages.

(** A contact form that posts to the site itself, filled in. *)
Definition plain_form : Contact.State :=
  Contact.mkState (Some (Some (lit "/contact")))
                  (Some (Contact.mkStatus (lit "old") (lit "")))
                  (Some (Contact.mkField (lit " Ann ") (lit "")))
                  (Some (Contact.mkField (lit "ann@example.org") (lit "")))
                  (Some (Contact.mkField (lit "Hello & bye?") (lit "")))
                  (lit "https://example.org/#contact").

(** The same form posting to Formspree, the message typed with spaces
    around it. *)
Definition remote_form : Contact.State :=
  Contact.sample (lit "Ann") (lit "ann@example.org") (lit "  Hello  ").

(** The name holds nothing but blanks. *)
Definition blank_name : Contact.State :=
  Contact.sample (lit "   ") (lit "ann@example.org") (lit "Hello").

(** The complete page without [#form-status], and without [#site-nav]. *)
Definition without_status : Script.Page :=
  Script.mkPage (Some (lit "")) 2024 false Nav.sample 4 6 5 Filter.sample 2 Modal.sample
    true
    (Contact.mkState (Some (Some (lit "https://formspree.io/f/xyzabcde"))) None
       (Some (Contact.mkField (lit "Ann") (lit "")))
       (Some (Contact.mkField (lit "ann@example.org") (lit "")))
       (Some (Contact.mkField (lit "Hello") (lit "")))
       (lit "https://example.org/"))
    [].

Definition without_panel : Script.Page :=
  Script.mkPage (Some (lit "")) 2024 false
    (Nav.mkState (Some (Some (lit "false"))) None 390)
    0 6 5 Filter.sample 2 Modal.sample true
    (Contact.sample (lit "") (lit "") (lit "")) [].

(** Two cards, and a second filter button that lacks [data-filter]. *)
Definition unlabelled_filter : Filter.State :=
  Filter.mkState [Filter.web_card; Filter.design_card]
                 [Filter.mkButton (Some (lit "all")) true; Filter.mkButton None false]
                 [] [] 0.

(** Three links of the primary navigation, two of them to the same
    section. *)
Definition nav_links : list Spy.Link :=
  [Spy.mkLink (Some (lit "#about")) false;
   Spy.mkLink (Some (lit "#projects")) false;
   Spy.mkLink (Some (lit "#about")) false].

End Pages.

(* ===================================================================== *)
(** * Facts about the string built-ins                                    *)
(* ===================================================================== *)

Section JsStringFacts.

Import JsString.

Lemma trimStart_no_leading_space (s : jsstring) :
  match trimStart s with
  | c :: _ => isSpace c = false
  | [] => True
  end.
Proof.
  induction s as [|c s IH]; simpl; [exact I|].
  destruct (isSpace c) eqn:E; [exact IH | exact E].
Qed.

Lemma trimStart_idem (s : jsstring) : trimStart (trimStart s) = trimStart s.
Proof.
  pose proof (trimStart_no_leading_space s) as H.
  destruct (trimStart s) as [|c t]; simpl; [reflexivity|].
  now rewrite H.
Qed.

Lemma isUnreserved_ascii (c : N) : isUnreserved c = true -> (c <= 126)%N.
Proof.
  unfold isUnreserved, isAlnum, isMark. simpl.
  rewrite !orb_true_iff, !andb_true_iff, !N.leb_le, !N.eqb_eq. lia.
Qed.

(** An unpaired surrogate is the only thing [encodeURIComponent] refuses. *)
Lemma encodeURIComponent_wellFormed_upto (n : nat) (s : jsstring) :
  length s <= n ->
  (isWellFormed s = true <-> is_Some (encodeURIComponent s)).
Proof.
  revert s. induction n as [|n IH]; intros s Hlen.
  - destruct s; simpl in *; [|lia]. split; [eauto | reflexivity].
  - destruct s as [|c rest]; simpl in *; [split; [eauto | reflexivity]|].
    assert (Hsurr : isUnreserved c = true ->
                    isHighSurrogate c = false /\ isLowSurrogate c = false).
    { intros H. apply isUnreserved_ascii in H.
      unfold isHighSurrogate, isLowSurrogate.
      split; apply andb_false_iff; left; apply N.leb_gt; lia. }
    destruct (isUnreserved c) eqn:Hu.
    + destruct (Hsurr eq_refl) as [-> ->]. simpl.
      rewrite (IH rest) by lia.
      destruct (encodeURIComponent rest); simpl; split; intros [x Hx]; eauto; discriminate.
    + destruct (isHighSurrogate c) eqn:Hh.
      * destruct rest as [|d rest']; [split; [discriminate | intros [x Hx]; discriminate]|].
        destruct (isLowSurrogate d); simpl.
        -- simpl in Hlen. rewrite (IH rest') by lia.
           destruct (encodeURIComponent rest'); simpl; split; intros [x Hx]; eauto; discriminate.
        -- split; [discriminate | intros [x Hx]; discriminate].
      * destruct (isLowSurrogate c); simpl.
        -- split; [discriminate | intros [x Hx]; discriminate].
        -- rewrite (IH rest) by lia.
           destruct (encodeURIComponent rest); simpl; split; intros [x Hx]; eauto; discriminate.
Qed.

Lemma encodeURIComponent_wellFormed (s : jsstring) :
  isWellFormed s = true <-> is_Some (encodeURIComponent s).
Proof. apply (encodeURIComponent_wellFormed_upto (length s)); lia. Qed.

Lemma isWellFormed_app_upto (n : nat) (a b : jsstring) :
  length a <= n ->
  isWellFormed a = true -> isWellFormed b = true -> isWellFormed (a ++ b) = true.
Proof.
  revert a. induction n as [|n IH]; intros a Hlen Ha Hb.
  - destruct a; simpl in *; [assumption | lia].
  - destruct a as [|c rest]; simpl in *; [assumption|].
    destruct (isHighSurrogate c).
    + destruct rest as [|d rest']; [discriminate|]. simpl in *.
      apply andb_true_iff in Ha as [Hd Hr]. rewrite Hd. simpl.
      apply IH; [lia | assumption | assumption].
    + apply andb_true_iff in Ha as [Hc Hr]. rewrite Hc. simpl.
      apply IH; [lia | assumption | assumption].
Qed.

Lemma isWellFormed_app (a b : jsstring) :
  isWellFormed a = true -> isWellFormed b = true -> isWellFormed (a ++ b) = true.
Proof. apply (isWellFormed_app_upto (length a)); lia. Qed.

End JsStringFacts.

(* ===================================================================== *)
(** * What the e-mail pattern accepts                                     *)
(* ===================================================================== *)

Section RegexFacts.

Import Regex.

Lemma lang_cat_inv (r1 r2 : re) (s : jsstring) :
  lang (Cat r1 r2) s -> exists s1 s2, s = s1 ++ s2 /\ lang r1 s1 /\ lang r2 s2.
Proof. inversion 1; subst; eauto. Qed.

Lemma lang_alt_inv (r1 r2 : re) (s : jsstring) :
  lang (Alt r1 r2) s -> lang r1 s \/ lang r2 s.
Proof. inversion 1; subst; auto. Qed.

Lemma lang_class_inv (p : N -> bool) (s : jsstring) :
  lang (Class p) s -> exists c, s = [c] /\ p c = true.
Proof. inversion 1; subst; eauto. Qed.

Lemma nullable_lang (r : re) : nullable r = true <-> lang r [].
Proof.
  induction r as [| |p|r1 IH1 r2 IH2|r1 IH1 r2 IH2|r IH]; simpl.
  - split; [discriminate | inversion 1].
  - split; [constructor | reflexivity].
  - split; [discriminate | inversion 1].
  - rewrite andb_true_iff, IH1, IH2. split.
    + intros [H1 H2]. apply (L_cat _ _ [] []); assumption.
    + intros H. apply lang_cat_inv in H as (s1 & s2 & Heq & H1 & H2).
      destruct s1, s2; try discriminate. split; assumption.
  - rewrite orb_true_iff, IH1, IH2. split.
    + intros [H|H]; [apply L_alt_l | apply L_alt_r]; assumption.
    + apply lang_alt_inv.
  - split; [constructor | reflexivity].
Qed.

(** A non-empty word of [r*] starts with a non-empty word of [r]. *)
Lemma star_cons_inv (r : re) (s : jsstring) :
  lang (Star r) s ->
  forall c t, s = c :: t ->
  exists t1 t2, t = t1 ++ t2 /\ lang r (c :: t1) /\ lang (Star r) t2.
Proof.
  intros H. remember (Star r) as r' eqn:Hr.
  induction H as [| | | | | |r0 s1 s2 H1 _ H2 IH2]; try discriminate.
  injection Hr as Hr. subst r0. intros c t Heq.
  destruct s1 as [|c1 s1'].
  - simpl in Heq. apply (IH2 eq_refl c t Heq).
  - simpl in Heq. injection Heq as Hc Ht. subst c1 t.
    exists s1', s2. auto.
Qed.

Lemma deriv_lang (r : re) : forall c s, lang (deriv c r) s <-> lang r (c :: s).
Proof.
  induction r as [| |p|r1 IH1 r2 IH2|r1 IH1 r2 IH2|r IH]; intros c s; simpl.
  - split; inversion 1.
  - split; inversion 1.
  - destruct (p c) eqn:Hp; split.
    + inversion 1; subst. now constructor.
    + intros H. apply lang_class_inv in H as (c' & Heq & _).
      injection Heq as _ ->. constructor.
    + inversion 1.
    + intros H. apply lang_class_inv in H as (c' & Heq & Hc').
      injection Heq as -> _. congruence.
  - assert (Hcat : lang (Cat (deriv c r1) r2) s -> lang (Cat r1 r2) (c :: s)).
    { intros H. apply lang_cat_inv in H as (s1 & s2 & -> & H1 & H2).
      apply IH1 in H1. apply (L_cat _ _ (c :: s1) s2); assumption. }
    assert (Hinv : lang (Cat r1 r2) (c :: s) ->
                   lang (Cat (deriv c r1) r2) s \/ (lang r1 [] /\ lang r2 (c :: s))).
    { intros H. apply lang_cat_inv in H as (s1 & s2 & Heq & H1 & H2).
      destruct s1 as [|c1 s1']; simpl in Heq.
      - right. subst s2. split; assumption.
      - injection Heq as -> ->. left. constructor; [apply IH1|]; assumption. }
    destruct (nullable r1) eqn:Hn.
    + split.
      * intros H. apply lang_alt_inv in H as [H|H]; [now apply Hcat|].
        apply nullable_lang in Hn.
        apply (L_cat _ _ [] (c :: s)); [assumption | now apply IH2].
      * intros H. destruct (Hinv H) as [H'|[_ H']];
          [now apply L_alt_l | apply L_alt_r; now apply IH2].
    + split; [exact Hcat|].
      intros H. destruct (Hinv H) as [H'|[H' _]]; [assumption|].
      apply nullable_lang in H'. congruence.
  - split; intros H.
    + apply lang_alt_inv in H as [H|H];
        [apply L_alt_l; now apply IH1 | apply L_alt_r; now apply IH2].
    + apply lang_alt_inv in H as [H|H];
        [apply L_alt_l; now apply IH1 | apply L_alt_r; now apply IH2].
  - split; intros H.
    + apply lang_cat_inv in H as (s1 & s2 & -> & H1 & H2).
      apply IH in H1. apply (L_star_cons _ (c :: s1) s2); assumption.
    + destruct (star_cons_inv _ _ H c s eq_refl) as (t1 & t2 & -> & H1 & H2).
      constructor; [now apply IH | assumption].
Qed.

(** [test] decides the language. *)
Lemma test_lang (s : jsstring) : forall r, test r s = true <-> lang r s.
Proof.
  induction s as [|c s IH]; intros r.
  - apply nullable_lang.
  - change (test r (c :: s)) with (test (deriv c r) s).
    rewrite IH. apply deriv_lang.
Qed.

Lemma lang_star_class (p : N -> bool) (s : jsstring) :
  lang (Star (Class p)) s <-> Forall (fun c => p c = true) s.
Proof.
  split.
  - intros H. remember (Star (Class p)) as r eqn:Hr.
    induction H as [| | | | | |r0 s1 s2 H1 _ H2 IH2]; try discriminate.
    + constructor.
    + injection Hr as Hr. subst r0.
      apply lang_class_inv in H1 as (c & -> & Hc).
      constructor; [assumption | now apply IH2].
  - induction 1 as [|c t Hc _ IH]; [constructor|].
    apply (L_star_cons _ [c] t); [now constructor | assumption].
Qed.

Lemma lang_plus_nonSpace (s : jsstring) :
  lang (Plus nonSpace) s <-> Contact.nonSpaces s.
Proof.
  unfold Plus, nonSpace, Contact.nonSpaces. split.
  - intros H. apply lang_cat_inv in H as (s1 & s2 & -> & H1 & H2).
    apply lang_class_inv in H1 as (c & -> & Hc).
    apply lang_star_class in H2. split; [discriminate|].
    constructor.
    + now apply negb_true_iff.
    + eapply Forall_impl; [exact H2|]. intros a Ha. now apply negb_true_iff.
  - intros [Hne Hall]. destruct s as [|c t]; [congruence|].
    inversion Hall as [|? ? Hc Ht]; subst.
    apply (L_cat _ _ [c] t).
    + constructor. now apply negb_true_iff.
    + apply lang_star_class. eapply Forall_impl; [exact Ht|].
      intros a Ha. now apply negb_true_iff.
Qed.

Lemma lang_chr (c : N) (s : jsstring) : lang (Chr c) s <-> s = [c].
Proof.
  unfold Chr. split.
  - intros H. apply lang_class_inv in H as (c' & -> & Hc).
    apply N.eqb_eq in Hc. now subst.
  - intros ->. constructor. apply N.eqb_refl.
Qed.

(** The pattern of line 189 accepts exactly the strings of the shape
    "non-spaces [@] non-spaces [.] non-spaces". *)
Lemma emailPattern_shape (s : jsstring) :
  test emailPattern s = true <-> Contact.email_shape s.
Proof.
  rewrite test_lang. unfold emailPattern, Contact.email_shape. split.
  - intros H.
    apply lang_cat_inv in H as (a & s1 & -> & Ha & H).
    apply lang_cat_inv in H as (at_ & s2 & -> & Hat & H).
    apply lang_cat_inv in H as (b & s3 & -> & Hb & H).
    apply lang_cat_inv in H as (dot & c & -> & Hdot & Hc).
    apply lang_chr in Hat, Hdot. subst at_ dot.
    exists a, b, c. rewrite <- !lang_plus_nonSpace. auto.
  - intros (a & b & c & -> & Ha & Hb & Hc).
    rewrite <- lang_plus_nonSpace in Ha, Hb, Hc.
    repeat (constructor; [first [assumption | now apply lang_chr]|]).
    assumption.
Qed.

End RegexFacts.

(* ===================================================================== *)
(** * Running a handler step by step                                      *)
(* ===================================================================== *)

Section JsFacts.

Context {St : Type}.

Lemma bind_ok {A B} (m : Js.M St A) (k : A -> Js.M St B) (s s' : St) (a : A) :
  m s = Js.Ok a s' -> Js.bind m k s = k a s'.
Proof. unfold Js.bind. now intros ->. Qed.

Lemma bind_throw {A B} (m : Js.M St A) (k : A -> Js.M St B) (s s' : St) (e : Js.error) :
  m s = Js.Throw e s' -> Js.bind m k s = Js.Throw e s'.
Proof. unfold Js.bind. now intros ->. Qed.

Lemma deref_some {A} (f : St -> option A) (s : St) (a : A) :
  f s = Some a -> Js.deref f s = Js.Ok a s.
Proof. unfold Js.deref. now intros ->. Qed.

Lemma deref_none {A} (f : St -> option A) (s : St) :
  f s = None -> Js.deref f s = Js.Throw Js.TypeError s.
Proof. unfold Js.deref. now intros ->. Qed.

End JsFacts.

(* ===================================================================== *)
(** * Contact form                                                        *)
(* ===================================================================== *)

Section ContactFacts.

Import Contact.

Lemma wired_inv (s : State) :
  wired s = true ->
  exists a st n e m h,
    s = mkState (Some a) (Some st) (Some n) (Some e) (Some m) h.
Proof.
  unfold wired. destruct s as [[a|] [st|] [n|] [e|] [m|] h]; simpl;
    try discriminate; eauto 10.
Qed.

Lemma state_eta (s : State) :
  s = mkState (form s) (status s) (nameField s) (emailField s) (messageField s) (href s).
Proof. now destruct s. Qed.

Lemma trimmed_some (field : State -> option Field) (s : State) (f : Field) :
  field s = Some f -> trimmed field s = Js.Ok (JsString.trim (value f)) s.
Proof. intros H. unfold trimmed. now rewrite (bind_ok _ _ s s f) by now apply deref_some. Qed.

Lemma status_text_some (msg : jsstring) (s : State) (st : Status) :
  status s = Some st ->
  status_text msg s = Js.Ok tt (set_status (mkStatus msg (color st)) s).
Proof. intros H. unfold status_text, Js.bind, Js.deref, Js.modify. now rewrite H. Qed.

(** [status.textContent = msg; status.style.color = col] *)
Lemma show_status (msg col : jsstring) (s : State) (st : Status) :
  status s = Some st ->
  Js.bind (status_text msg) (fun _ => status_color col) s =
    Js.Ok tt (set_status (mkStatus msg col) s).
Proof.
  intros H. unfold status_text, status_color, Js.bind, Js.deref, Js.modify.
  rewrite H. reflexivity.
Qed.

Lemma show_status_then {A} (msg col : jsstring) (k : Js.M State A) (s : State) (st : Status) :
  status s = Some st ->
  Js.bind (status_text msg) (fun _ => Js.bind (status_color col) (fun _ => k)) s =
    k (set_status (mkStatus msg col) s).
Proof.
  intros H. unfold status_text, status_color, Js.bind, Js.deref, Js.modify.
  rewrite H. reflexivity.
Qed.

(** The first four statements of the submit handler. *)
Lemma submit_begin_reads (s : State) (st : Status) (n e m : Field) :
  status s = Some st -> nameField s = Some n -> emailField s = Some e ->
  messageField s = Some m ->
  forall k : jsstring -> jsstring -> jsstring -> Js.M State progress,
    Js.bind (status_text (lit ""))
      (fun _ => Js.bind (trimmed nameField)
         (fun name => Js.bind (trimmed emailField)
            (fun email => Js.bind (trimmed messageField)
               (fun message => k name email message)))) s =
    k (JsString.trim (value n)) (JsString.trim (value e)) (JsString.trim (value m))
      (set_status (mkStatus (lit "") (color st)) s).
Proof.
  intros Hst Hn He Hm k.
  rewrite (bind_ok _ _ _ _ _ (status_text_some (lit "") s st Hst)).
  erewrite bind_ok by (apply trimmed_some; exact Hn).
  erewrite bind_ok by (apply trimmed_some; exact He).
  erewrite bind_ok by (apply trimmed_some; exact Hm).
  reflexivity.
Qed.

(** Running the handler up to the [await] on a page that passes both
    checks and has the endpoint configured: the request goes out with the
    untrimmed values, and the status says so. *)
Lemma submit_begin_awaits (s : State) :
  wired s = true -> valid s = true -> remote_configured s = true ->
  exists a n e m st,
    form s = Some a /\ nameField s = Some n /\ emailField s = Some e /\
    messageField s = Some m /\ status s = Some st /\
    submit_begin s =
      Js.Ok (Awaiting (mkRequest (JsString.or_default a (lit ""))
                                 (JsString.toWellFormed (value n),
                                  JsString.toWellFormed (value e),
                                  JsString.toWellFormed (value m))))
            (set_status (mkStatus msg_sending (lit "var(--muted)")) s).
Proof.
  intros Hw Hv Hr. apply wired_inv in Hw as (a & st & n & e & m & h & ->).
  unfold valid, remote_configured in *; simpl in Hv, Hr.
  apply andb_true_iff in Hv as [Hv Hre].
  apply andb_true_iff in Hv as [Hv Hm].
  apply andb_true_iff in Hv as [Hn He].
  exists a, n, e, m, st. repeat (split; [reflexivity|]).
  unfold submit_begin.
  rewrite (submit_begin_reads _ st n e m) by reflexivity.
  rewrite Hn, He, Hm, Hre. cbn [negb orb].
  rewrite (bind_ok _ _ _ _ a) by (apply deref_some; reflexivity).
  cbv zeta. rewrite Hr.
  rewrite (show_status_then _ _ _ _ (mkStatus (lit "") (color st))) by reflexivity.
  reflexivity.
Qed.

Lemma submit_resume_success (s : State) (data : Json.value) :
  wired s = true ->
  exists s',
    submit_resume (Response true data) s = Js.Ok tt s' /\
    status s' = Some (mkStatus msg_sent (lit "limegreen")) /\
    values s' = defaults s /\ href s' = href s /\ form s' = form s.
Proof.
  intros Hw. apply wired_inv in Hw as (a & st & n & e & m & h & ->).
  eexists. split; [reflexivity|]. simpl. auto.
Qed.

(** What the status region says after a response that is not [ok]. *)
Lemma submit_resume_failure (s : State) (data : Json.value) :
  wired s = true ->
  exists msg,
    submit_resume (Response false data) s =
      Js.Ok tt (set_status (mkStatus msg (lit "tomato")) s) /\
    match truthy_error data with
    | Some e =>
      match Json.toString e with
      | Some text => msg = text
      | None => msg = msg_network
      end
    | None => msg = msg_failed
    end.
Proof.
  intros Hw. apply wired_inv in Hw as (a & st & n & e & m & h & ->).
  unfold submit_resume, after_fetch.
  destruct (truthy_error data) as [err|]; [destruct (Json.toString err) as [text|]|];
    eexists; (split; [reflexivity|]); reflexivity.
Qed.

(** An [error] that is a non-empty string is its own text. *)
Lemma truthy_error_string (data : Json.value) (str : jsstring) :
  Json.member (lit "error") data = Some (Json.String str) -> str <> [] ->
  truthy_error data = Some (Json.String str).
Proof.
  intros Hm Hne. unfold truthy_error.
  destruct data; try discriminate Hm. cbn [Json.truthy]. rewrite Hm.
  cbn [Json.truthy]. destruct str; [contradiction | reflexivity].
Qed.

Lemma submit_resume_rejected (s : State) :
  wired s = true ->
  submit_resume Rejected s =
    Js.Ok tt (set_status (mkStatus msg_network (lit "tomato")) s).
Proof.
  intros Hw. apply wired_inv in Hw as (a & st & n & e & m & h & ->). reflexivity.
Qed.

Lemma wired_set_status (st : Status) (s : State) :
  wired s = true -> wired (set_status st s) = true.
Proof.
  intros Hw. apply wired_inv in Hw as (a & st0 & n & e & m & h & ->). reflexivity.
Qed.

(** C2 as stated fails.  A form can have a remote endpoint configured
    that the handler never calls: the action must contain the text
    [formspree.io], so on [own_endpoint] a submission that passes both
    checks ends in the mail draft, with no message and no reset, whatever
    the endpoint would have answered.  And a failure status does not
    always show a message: when the body is [{"error": []}] the status
    region is emptied. *)
Lemma configured_endpoint_is_not_always_used :
  form own_endpoint = Some (Some (lit "https://api.example.com/contact")) /\
  wired own_endpoint = true /\ valid own_endpoint = true /\
  (exists s',
     submit (Response true Json.Null) own_endpoint = Js.Ok Finished s' /\
     status s' = Some (mkStatus [] (lit "")) /\
     fields s' = fields own_endpoint /\
     values s' <> defaults own_endpoint /\
     href s' <> href own_endpoint) /\
  (exists req s',
     submit (Response false (Json.Object [(lit "error", Json.Array [])])) filled
       = Js.Ok (Awaiting req) s' /\
     status s' = Some (mkStatus [] (lit "tomato"))).
Proof.
  split; [reflexivity|]. split; [reflexivity|]. split; [vm_compute; reflexivity|].
  split.
  - eexists. split; [vm_compute; reflexivity|].
    split; [reflexivity|]. split; [reflexivity|]. split; discriminate.
  - eexists. eexists. split; [vm_compute; reflexivity|]. reflexivity.
Qed.

(** C2, as the code has it.  A submission that passes both checks on a
    form whose action contains [formspree.io] reaches [fetch], and the
    location stays.  On a success status the status region shows
    "Thanks — message sent." and the controls are back at their defaults.
    On a failure status the controls are exactly as they were and the
    status region shows, in tomato, the [error] of the JSON body
    converted to text when the body has a truthy one (a non-empty string
    as it is) and "Submission failed — try the email fallback." when it
    has none; a rejected [fetch], or an [error] that cannot be converted,
    gives "Network error — please use the email fallback." with the
    controls as they were. *)
Theorem remote_submission_outcome (s : State) (r : fetchResult) :
  wired s = true -> valid s = true -> remote_configured s = true ->
  exists req s',
    submit r s = Js.Ok (Awaiting req) s' /\
    href s' = href s /\
    match r with
    | Response true _ =>
      status s' =
        Some (mkStatus (lit "Thanks " ++ [8212%N] ++ lit " message sent.")
                       (lit "limegreen")) /\
      values s' = defaults s
    | Response false data =>
      fields s' = fields s /\
      exists msg,
        status s' = Some (mkStatus msg (lit "tomato")) /\
        match truthy_error data with
        | Some e =>
          match Json.toString e with
          | Some text => msg = text
          | None =>
            msg = lit "Network error " ++ [8212%N] ++ lit " please use the email fallback."
          end
        | None =>
          msg = lit "Submission failed " ++ [8212%N] ++ lit " try the email fallback."
        end /\
        (forall str,
           Json.member (lit "error") data = Some (Json.String str) -> str <> [] ->
           msg = str)
    | Rejected =>
      status s' =
        Some (mkStatus
                (lit "Network error " ++ [8212%N] ++ lit " please use the email fallback.")
                (lit "tomato")) /\
      fields s' = fields s
    end.
Proof.
  intros Hw Hv Hr.
  destruct (submit_begin_awaits s Hw Hv Hr)
    as (a & n & e & m & st & Ha & Hn & He & Hm & Hst & Hbegin).
  set (s1 := set_status (mkStatus msg_sending (lit "var(--muted)")) s) in *.
  assert (Hw1 : wired s1 = true) by now apply wired_set_status.
  eexists. unfold submit, Js.bind. rewrite Hbegin.
  destruct r as [|[|] data].
  - rewrite (submit_resume_rejected s1 Hw1). eexists. split; [reflexivity|].
    simpl. auto.
  - destruct (submit_resume_success s1 data Hw1) as (s' & -> & Hs & Hvals & Hh & _).
    eexists. split; [reflexivity|]. simpl. auto.
  - destruct (submit_resume_failure s1 data Hw1) as (msg & -> & Hmsg).
    eexists. split; [reflexivity|]. split; [reflexivity|]. split; [reflexivity|].
    exists msg. split; [reflexivity|]. split; [exact Hmsg|].
    intros str Hmem Hne. rewrite (truthy_error_string data str Hmem Hne) in Hmsg.
    exact Hmsg.
Qed.

Lemma remote_submission_outcome_witness :
  (exists req s',
     submit (Response true Json.Null) filled = Js.Ok (Awaiting req) s' /\
     href s' = href filled /\
     status s' =
       Some (mkStatus (lit "Thanks " ++ [8212%N] ++ lit " message sent.")
                      (lit "limegreen")) /\
     values s' = defaults filled) /\
  (exists req s',
     submit (Response false (Json.Object [(lit "error", Json.String (lit "Too many"))]))
            filled = Js.Ok (Awaiting req) s' /\
     fields s' = fields filled /\
     status s' = Some (mkStatus (lit "Too many") (lit "tomato"))).
Proof.
  split.
  - apply (remote_submission_outcome filled (Response true Json.Null));
      vm_compute; reflexivity.
  - destruct (remote_submission_outcome filled
                (Response false (Json.Object [(lit "error", Json.String (lit "Too many"))]))
                eq_refl eq_refl eq_refl)
      as (req & s' & Hrun & _ & Hfields & msg & Hst & _ & Hstr).
    exists req, s'. split; [exact Hrun|]. split; [exact Hfields|].
    rewrite Hst. rewrite (Hstr (lit "Too many") eq_refl); [reflexivity | discriminate].
Defined.



Lemma encode_some (x e : jsstring) (s : State) :
  JsString.encodeURIComponent x = Some e -> encode x s = Js.Ok e s.
Proof. unfold encode. now intros ->. Qed.

Lemma encode_none (x : jsstring) (s : State) :
  JsString.encodeURIComponent x = None -> encode x s = Js.Throw Js.URIError s.
Proof. unfold encode. now intros ->. Qed.

(** The draft can be composed as soon as the three trimmed values have no
    unpaired surrogate. *)
Lemma draft_encodable (name email message : jsstring) :
  JsString.isWellFormed name = true ->
  JsString.isWellFormed email = true ->
  JsString.isWellFormed message = true ->
  exists subject body,
    JsString.encodeURIComponent
      (lit "Contact from " ++ JsString.or_else name (lit "Website")) = Some subject /\
    JsString.encodeURIComponent (draft_body name email message) = Some body.
Proof.
  intros Hn He Hm.
  assert (Hs : JsString.isWellFormed
                 (lit "Contact from " ++ JsString.or_else name (lit "Website")) = true).
  { apply isWellFormed_app; [reflexivity|].
    unfold JsString.or_else. destruct (JsString.truthy name); [assumption | reflexivity]. }
  assert (Hb : JsString.isWellFormed (draft_body name email message) = true).
  { unfold draft_body.
    repeat (apply isWellFormed_app; [first [assumption | reflexivity]|]). assumption. }
  apply encodeURIComponent_wellFormed in Hs as [subject Hs].
  apply encodeURIComponent_wellFormed in Hb as [body Hb].
  eauto.
Qed.

(** C9, as the code has it.  The mail-fallback handler checks nothing:
    whatever the three controls hold (empty, or an e-mail value of any
    shape), as long as the trimmed values can be URI-encoded (they have no
    unpaired surrogate) it navigates to the draft composed from them, and
    an empty name gives the subject "Contact from Website". *)
Theorem mail_fallback_composes (s : State) (n e m : Field) :
  nameField s = Some n -> emailField s = Some e -> messageField s = Some m ->
  let name := JsString.trim (value n) in
  let email := JsString.trim (value e) in
  let message := JsString.trim (value m) in
  JsString.isWellFormed name = true ->
  JsString.isWellFormed email = true ->
  JsString.isWellFormed message = true ->
  exists subject body,
    JsString.encodeURIComponent
      (lit "Contact from " ++ JsString.or_else name (lit "Website")) = Some subject /\
    JsString.encodeURIComponent (draft_body name email message) = Some body /\
    mail_fallback_click s = Js.Ok tt (set_href (mailto subject body) s) /\
    (name = [] -> subject = lit "Contact%20from%20Website").
Proof.
  intros Hn He Hm name email message Wn We Wm.
  destruct (draft_encodable name email message Wn We Wm) as (subject & body & Hs & Hb).
  exists subject, body. split; [exact Hs|]. split; [exact Hb|]. split.
  - unfold mail_fallback_click.
    rewrite (bind_ok _ _ s s name) by now apply trimmed_some.
    rewrite (bind_ok _ _ s s email) by now apply trimmed_some.
    rewrite (bind_ok _ _ s s message) by now apply trimmed_some.
    rewrite (bind_ok _ _ s s subject) by now apply encode_some.
    rewrite (bind_ok _ _ s s body) by now apply encode_some.
    reflexivity.
  - intros Hempty. rewrite Hempty in Hs. vm_compute in Hs. injection Hs as <-.
    reflexivity.
Qed.

Lemma mail_fallback_composes_witness :
  exists subject body,
    JsString.encodeURIComponent
      (lit "Contact from " ++ JsString.or_else (JsString.trim (lit "  ")) (lit "Website"))
      = Some subject /\
    JsString.encodeURIComponent
      (draft_body (JsString.trim (lit "  ")) (JsString.trim (lit "not an address"))
                  (JsString.trim (lit ""))) = Some body /\
    mail_fallback_click scribbled = Js.Ok tt (set_href (mailto subject body) scribbled) /\
    (JsString.trim (lit "  ") = [] -> subject = lit "Contact%20from%20Website").
Proof.
  apply (mail_fallback_composes scribbled (mkField (lit "  ") (lit ""))
           (mkField (lit "not an address") (lit "")) (mkField (lit "") (lit "")));
    reflexivity.
Defined.

(** C9 as stated fails on a value that cannot be encoded: with a lone
    high surrogate in the name control, [encodeURIComponent] throws and
    the handler ends without navigating. *)
Lemma mail_fallback_unpaired_surrogate :
  mail_fallback_click half_character = Js.Throw Js.URIError half_character /\
  ~ exists subject body,
      mail_fallback_click half_character =
        Js.Ok tt (set_href (mailto subject body) half_character).
Proof.
  split; [reflexivity|].
  intros (subject & body & H). vm_compute in H. discriminate H.
Qed.

End ContactFacts.

(* ===================================================================== *)
(** * Project modal                                                       *)
(* ===================================================================== *)

Section ModalFacts.

Import Modal.

Lemma modal_wired_inv (s : State) :
  wired s = true ->
  exists a t d img f act last ov,
    s = mkState (Some a) (Some t) (Some d) (Some img) true f act last ov.
Proof.
  unfold wired. destruct s as [[a|] [t|] [d|] [img|] [|] f act last ov]; simpl;
    try discriminate; eauto 10.
Qed.

(** [openModal] on a page that has all five elements, in one step. *)
Lemma openModal_wired (c : Content) (s : State) (img : Image) :
  wired s = true -> modalImage s = Some img ->
  openModal c s =
    Js.Ok tt (mkState (Some (Some (lit "false")))
                      (Some (param (title c) (lit "")))
                      (Some (param (desc c) (lit "")))
                      (Some (image_after c img))
                      true (focusable s) (focus_after s CloseButton)
                      (activeElement s) (lit "hidden")).
Proof.
  intros Hw Himg. apply modal_wired_inv in Hw as (a & t & d & img' & f & act & last & ov & ->).
  simpl in Himg. injection Himg as ->.
  unfold openModal, image_after, focus_after, Js.bind; simpl.
  destruct (JsString.truthy (param (image c) (lit ""))); simpl;
    unfold focus_close, focus, Js.bind; simpl; destruct (f CloseButton); reflexivity.
Qed.

(** [closeModal] on a page that has the modal container, in one step. *)
Lemma closeModal_present (s : State) (a : option jsstring) :
  modal s = Some a ->
  closeModal s =
    Js.Ok tt (mkState (Some (Some (lit "true"))) (modalTitle s) (modalDesc s)
                      (modalImage s) (modalClose s) (focusable s)
                      (match lastFocused s with
                       | Some el => focus_after s el
                       | None => activeElement s
                       end)
                      (lastFocused s) (lit "")).
Proof.
  destruct s as [m t d img cl f act last ov]; simpl. intros ->.
  unfold closeModal, focus_after, Js.bind; simpl.
  destruct last as [el|]; simpl; [|reflexivity].
  unfold focus, Js.bind; simpl. destruct (f el); reflexivity.
Qed.

Lemma closeModal_fixed (s : State) :
  fixed_part (Js.final (closeModal s)) = fixed_part s /\
  (is_Some (modal s) -> is_Some (modal (Js.final (closeModal s)))).
Proof.
  destruct (modal s) as [a|] eqn:Hm.
  - rewrite (closeModal_present s a Hm). simpl. split; [reflexivity | eauto].
  - unfold closeModal. rewrite (bind_throw _ _ s s Js.TypeError) by now apply deref_none.
    simpl. split; [reflexivity | now rewrite Hm].
Qed.

(** The [keydown] handler, branch by branch. *)
Lemma keydown_cases (key : jsstring) (shift : bool) (s : State) :
  keydown key shift s =
    if bool_decide (key = lit "Escape") then
      match modal s with
      | Some a =>
        if bool_decide (a = Some (lit "false")) then
          Js.bind closeModal (fun _ => Js.ret false) s
        else Js.Ok false s
      | None => Js.Throw Js.TypeError s
      end
    else if bool_decide (key = lit "Tab") then
      match modal s with
      | Some a =>
        if bool_decide (a = Some (lit "false")) then
          if close_has_focus s && negb shift then
            Js.bind focus_close (fun _ => Js.ret true) s
          else Js.Ok false s
        else Js.Ok false s
      | None => Js.Throw Js.TypeError s
      end
    else Js.Ok false s.
Proof.
  unfold keydown. destruct (bool_decide (key = lit "Escape")) eqn:Hesc.
  - apply bool_decide_eq_true in Hesc. subst key.
    replace (bool_decide (lit "Escape" = lit "Tab")) with false by reflexivity.
    unfold is_open, Js.bind at 1 2 3, Js.deref, Js.ret, Js.when.
    destruct (modal s) as [a|]; [|reflexivity].
    destruct (bool_decide (a = Some (lit "false"))); [|reflexivity].
    unfold Js.bind. destruct (closeModal s); reflexivity.
  - unfold Js.bind at 1 2, Js.ret at 1, Js.when, Js.ret at 1.
    destruct (bool_decide (key = lit "Tab")); [|reflexivity].
    unfold is_open, Js.bind at 1 2, Js.deref, Js.ret at 1.
    destruct (modal s) as [a|]; [|reflexivity].
    destruct (bool_decide (a = Some (lit "false"))); [|reflexivity].
    unfold Js.bind at 1, Js.gets.
    destruct (close_has_focus s && negb shift); reflexivity.
Qed.

Lemma focus_fixed (el : element) (s : State) :
  fixed_part (Js.final (focus el s)) = fixed_part s /\
  modal (Js.final (focus el s)) = modal s.
Proof.
  destruct s as [m t d img cl f act last ov].
  unfold focus, Js.bind, Js.gets, Js.when; simpl. destruct (f el); simpl; auto.
Qed.

Lemma focus_close_fixed (s : State) :
  fixed_part (Js.final (focus_close s)) = fixed_part s /\
  modal (Js.final (focus_close s)) = modal s.
Proof.
  unfold focus_close, Js.bind, Js.gets. destruct (modalClose s).
  - apply focus_fixed.
  - simpl. auto.
Qed.

Lemma keydown_fixed (key : jsstring) (shift : bool) (s : State) :
  fixed_part (Js.final (keydown key shift s)) = fixed_part s /\
  (is_Some (modal s) -> is_Some (modal (Js.final (keydown key shift s)))).
Proof.
  rewrite keydown_cases.
  assert (Hclose : fixed_part (Js.final (Js.bind closeModal (fun _ => Js.ret false) s))
                   = fixed_part s /\
                   (is_Some (modal s) ->
                    is_Some (modal (Js.final (Js.bind closeModal (fun _ => Js.ret false) s))))).
  { pose proof (closeModal_fixed s) as H. unfold Js.bind.
    destruct (closeModal s); exact H. }
  assert (Hfocus : fixed_part (Js.final (Js.bind focus_close (fun _ => Js.ret true) s))
                   = fixed_part s /\
                   (is_Some (modal s) ->
                    is_Some (modal (Js.final (Js.bind focus_close (fun _ => Js.ret true) s))))).
  { pose proof (focus_close_fixed s) as [H1 H2]. unfold Js.bind.
    destruct (focus_close s); simpl in *; rewrite H2; auto. }
  repeat case_match; simpl; auto.
  all: split; [reflexivity | intros [x Hx]; discriminate].
Qed.

(** An event other than opening a project leaves the title, the
    description, the image and [lastFocused] alone, and the modal
    container where it is. *)
Lemma handle_fixed (e : event) (s : State) :
  opens e = false ->
  fixed_part (Js.final (handle e s)) = fixed_part s /\
  (is_Some (modal s) -> is_Some (modal (Js.final (handle e s)))).
Proof.
  destruct e as [d| |b|k sh|el|can]; simpl; intros Ho; try discriminate.
  - apply closeModal_fixed.
  - destruct b; simpl; [apply closeModal_fixed | auto].
  - pose proof (keydown_fixed k sh s) as H.
    unfold Js.bind. destruct (keydown k sh s); simpl in *; exact H.
  - destruct s; simpl. auto.
  - destruct s; simpl. auto.
Qed.

Lemma run_fixed (es : list event) :
  forall s,
    forallb (fun e => negb (opens e)) es = true ->
    fixed_part (run es s) = fixed_part s /\
    (is_Some (modal s) -> is_Some (modal (run es s))).
Proof.
  induction es as [|e es IH]; intros s Hes; simpl in *; [auto|].
  apply andb_true_iff in Hes as [He Hes]. apply negb_true_iff in He.
  destruct (handle_fixed e s He) as [Hf Hm].
  destruct (IH (Js.final (handle e s)) Hes) as [Hf' Hm'].
  split; [congruence | auto].
Qed.

(** C5 as stated fails.  Closing calls [focus()] on the element that
    was the active element before the open, and that call does nothing
    on an element that cannot take focus.  When nothing was focused the
    active element is the body: after the open and the close the focus
    is on the close control, not where it was.  The same happens to a
    button that had the focus and was disabled while the modal was
    open. *)
Lemma close_can_leave_focus_on_close_control :
  (activeElement sample_unfocused = Some Body /\
   exists s1 s2,
     openModal compiler sample_unfocused = Js.Ok tt s1 /\
     closeModal s1 = Js.Ok tt s2 /\
     activeElement s2 = Some CloseButton) /\
  (has_focus sample (OpenButton 0) = true /\
   exists s1 s2,
     openModal compiler sample = Js.Ok tt s1 /\
     closeModal (run [Focusability button_disabled] s1) = Js.Ok tt s2 /\
     activeElement s2 = Some CloseButton).
Proof.
  split; (split; [reflexivity|]); eexists; eexists;
    (split; [vm_compute; reflexivity|]); split; vm_compute; reflexivity.
Qed.

(** C5, as the code has it.  Opening the modal with content [c] writes
    [c]'s title and description into the two text fields as they are (an
    undefined one reads as the empty string) and remembers the active
    element.  Whatever happens next short of another open, closing the
    modal calls [focus()] on that element: the focus is on it afterwards
    when it can take focus at that moment, and stays where it is when it
    cannot.  So the focus returns to the element that had it before the
    open whenever that element still takes focus. *)
Theorem open_then_close_restores_focus
    (s : State) (c : Content) (es : list event) :
  wired s = true ->
  forallb (fun e => negb (opens e)) es = true ->
  exists s1 s2,
    openModal c s = Js.Ok tt s1 /\
    modalTitle s1 = Some (param (title c) (lit "")) /\
    modalDesc s1 = Some (param (desc c) (lit "")) /\
    closeModal (run es s1) = Js.Ok tt s2 /\
    activeElement s2 =
      match activeElement s with
      | Some el => if focusable (run es s1) el then Some el else activeElement (run es s1)
      | None => activeElement (run es s1)
      end /\
    (forall el, activeElement s = Some el -> focusable (run es s1) el = true ->
                has_focus s2 el = true).
Proof.
  intros Hw Hes.
  destruct (modal_wired_inv s Hw) as (a & t & d & img & f & act & last & ov & Hs).
  assert (Himg : modalImage s = Some img) by now rewrite Hs.
  pose proof (openModal_wired c s img Hw Himg) as Hopen.
  match type of Hopen with _ = Js.Ok tt ?x => remember x as s1 eqn:Hs1 end.
  assert (Hlast : lastFocused s1 = activeElement s) by now subst s1.
  assert (Hmod1 : is_Some (modal s1)) by (subst s1; simpl; eauto).
  destruct (run_fixed es s1 Hes) as [Hfix Hmod].
  destruct (Hmod Hmod1) as [a' Ha'].
  injection Hfix as _ _ _ _ Hl.
  assert (Hafter : activeElement (Js.final (closeModal (run es s1))) =
            match activeElement s with
            | Some el =>
              if focusable (run es s1) el then Some el else activeElement (run es s1)
            | None => activeElement (run es s1)
            end).
  { rewrite (closeModal_present _ a' Ha'). cbn [Js.final activeElement].
    rewrite Hl, Hlast. reflexivity. }
  exists s1. eexists. split; [exact Hopen|].
  split; [now subst s1|]. split; [now subst s1|].
  split; [apply (closeModal_present _ a' Ha')|].
  rewrite (closeModal_present _ a' Ha') in Hafter. cbn [Js.final] in Hafter.
  split; [exact Hafter|].
  intros el Hact Hfoc. unfold has_focus. rewrite Hafter, Hact, Hfoc.
  cbn [focusable]. rewrite Hfoc. now rewrite bool_decide_eq_true_2.
Qed.

Lemma open_then_close_restores_focus_witness :
  exists s1 s2,
    openModal compiler sample = Js.Ok tt s1 /\
    modalTitle s1 = Some (lit "Compiler") /\
    modalDesc s1 = Some (lit "A small compiler") /\
    closeModal
      (run [Keydown (lit "Tab") false; UserFocus (Some Body); Keydown (lit "Escape") false]
           s1) = Js.Ok tt s2 /\
    has_focus s2 (OpenButton 0) = true.
Proof.
  destruct (open_then_close_restores_focus
              sample compiler
              [Keydown (lit "Tab") false; UserFocus (Some Body); Keydown (lit "Escape") false]
              eq_refl eq_refl)
    as (s1 & s2 & Hopen & Ht & Hd & Hclose & _ & Hfocus).
  exists s1, s2. split; [exact Hopen|]. split; [exact Ht|]. split; [exact Hd|].
  split; [exact Hclose|].
  apply Hfocus; [reflexivity|].
  injection Hopen as <-. reflexivity.
Defined.



(** C7 as stated fails.  With the modal open and the focus on another
    element, Tab leaves the focus where it is; with Shift held on the
    close control, the handler does not prevent the default action, so
    the browser moves the focus as usual. *)
Lemma tab_does_not_always_refocus :
  modal sample_elsewhere = Some (Some (lit "false")) /\
  keydown (lit "Tab") false sample_elsewhere = Js.Ok false sample_elsewhere /\
  activeElement sample_elsewhere <> Some CloseButton /\
  activeElement sample_open = Some CloseButton /\
  keydown (lit "Tab") true sample_open = Js.Ok false sample_open.
Proof.
  repeat split; try reflexivity. discriminate.
Qed.

(** C7, as the code has it.  On a Tab while the modal is open the handler
    acts only when the close control has the focus and Shift is not held:
    it prevents the default action and the focus stays on the close
    control.  In every other case it does nothing at all. *)
Theorem tab_refocuses_only_from_close (s : State) (shift : bool) :
  modal s = Some (Some (lit "false")) -> modalClose s = true ->
  (activeElement s = Some CloseButton -> shift = false ->
   keydown (lit "Tab") shift s = Js.Ok true s) /\
  (activeElement s <> Some CloseButton \/ shift = true ->
   keydown (lit "Tab") shift s = Js.Ok false s).
Proof.
  intros Hm Hc. rewrite keydown_cases. simpl. rewrite Hm. simpl.
  unfold close_has_focus. rewrite Hc. split.
  - intros Ha ->. rewrite bool_decide_eq_true_2 by assumption. simpl.
    unfold focus_close, focus, Js.bind, Js.gets, Js.when. rewrite Hc.
    destruct s as [m t d img cl f act last ov]; simpl in *. subst act.
    destruct (f CloseButton); reflexivity.
  - intros [Ha| ->].
    + now rewrite bool_decide_eq_false_2.
    + now rewrite andb_false_r.
Qed.

Lemma tab_refocuses_only_from_close_witness :
  keydown (lit "Tab") false sample_open = Js.Ok true sample_open /\
  keydown (lit "Tab") true sample_open = Js.Ok false sample_open.
Proof.
  split.
  - apply (tab_refocuses_only_from_close sample_open false); reflexivity.
  - apply (tab_refocuses_only_from_close sample_open true); try reflexivity.
    right. reflexivity.
Defined.

(** C10.  Opening the modal with an empty image hides the image element
    and leaves its [src] and [alt] as they were, while the title and the
    description are rewritten. *)
Theorem open_without_image_keeps_src (s : State) (c : Content) (img : Image) :
  wired s = true -> modalImage s = Some img ->
  param (image c) (lit "") = lit "" ->
  exists s',
    openModal c s = Js.Ok tt s' /\
    modalImage s' = Some (mkImage (src img) (alt img) (lit "none")) /\
    modalTitle s' = Some (param (title c) (lit "")) /\
    modalDesc s' = Some (param (desc c) (lit "")).
Proof.
  intros Hw Himg Hempty. eexists. split; [apply (openModal_wired c s img Hw Himg)|].
  simpl. unfold image_after. rewrite Hempty. simpl. auto.
Qed.

Lemma open_without_image_keeps_src_witness :
  exists s',
    openModal notes sample_closed_again = Js.Ok tt s' /\
    modalImage s' = Some (mkImage (lit "img/compiler.png") (lit "Compiler") (lit "none")) /\
    modalTitle s' = Some (lit "Notes") /\
    modalDesc s' = Some (lit "Plain text").
Proof.
  apply (open_without_image_keeps_src sample_closed_again notes
           (mkImage (lit "img/compiler.png") (lit "Compiler") (lit "")));
    reflexivity.
Defined.

Lemma wired_fixed (s s' : State) :
  fixed_part s' = fixed_part s -> is_Some (modal s') ->
  wired s = true -> wired s' = true.
Proof.
  intros Hf [a Ha] Hw. injection Hf as Ht Hd Hi Hc _.
  unfold wired in *. rewrite Ha, Ht, Hd, Hi, Hc.
  apply andb_true_iff in Hw as [Hw ->].
  apply andb_true_iff in Hw as [Hw ->].
  apply andb_true_iff in Hw as [Hw ->].
  apply andb_true_iff in Hw as [_ ->].
  reflexivity.
Qed.

(** The image of an earlier project stays behind: after an open with an
    image and any events short of another open, an open without image
    still carries the earlier [src] (as a scalar-value string) and
    [alt]. *)
Lemma earlier_src_persists (s : State) (c1 c2 : Content) (es : list event) :
  wired s = true ->
  JsString.truthy (param (image c1) (lit "")) = true ->
  param (image c2) (lit "") = lit "" ->
  forallb (fun e => negb (opens e)) es = true ->
  exists s1 s2,
    openModal c1 s = Js.Ok tt s1 /\
    openModal c2 (run es s1) = Js.Ok tt s2 /\
    modalImage s2 =
      Some (mkImage (JsString.toWellFormed (param (image c1) (lit "")))
                    (param (title c1) (lit "")) (lit "none")) /\
    modalTitle s2 = Some (param (title c2) (lit "")).
Proof.
  intros Hw H1 H2 Hes.
  destruct (modal_wired_inv s Hw) as (a & t & d & img & f & act & last & ov & Hs).
  assert (Himg : modalImage s = Some img) by now rewrite Hs.
  pose proof (openModal_wired c1 s img Hw Himg) as Hopen.
  match type of Hopen with _ = Js.Ok tt ?x => remember x as s1 eqn:Hs1 end.
  assert (Hw1 : wired s1 = true) by now subst s1.
  assert (Himg1 : modalImage s1 =
            Some (mkImage (JsString.toWellFormed (param (image c1) (lit "")))
                          (param (title c1) (lit "")) (lit ""))).
  { subst s1. simpl. unfold image_after. now rewrite H1. }
  destruct (run_fixed es s1 Hes) as [Hfix Hmod].
  assert (Hw2 : wired (run es s1) = true).
  { apply (wired_fixed s1); [assumption | | assumption].
    apply Hmod. subst s1. simpl. eauto. }
  assert (Himg2 : modalImage (run es s1) = modalImage s1) by now injection Hfix.
  rewrite Himg1 in Himg2.
  exists s1. eexists. split; [exact Hopen|].
  split; [apply (openModal_wired c2 _ _ Hw2 Himg2)|].
  simpl. unfold image_after. rewrite H2. simpl. auto.
Qed.

End ModalFacts.

(* ===================================================================== *)
(** * Mobile navigation                                                   *)
(* ===================================================================== *)

Section NavFacts.

Import Nav.

(** The toggle handler in one step: the attribute is inverted, and the
    display is flipped on its own account. *)
Lemma toggle_click_wired (s : State) (a : option jsstring) (d : jsstring) :
  navToggle s = Some a -> nav s = Some d ->
  toggle_click s =
    Js.Ok tt (mkState
                (Some (Some (ofBool (negb (bool_decide (a = Some (lit "true")))))))
                (Some (if bool_decide (d = lit "block") then lit "" else lit "block"))
                (innerWidth s)).
Proof.
  destruct s as [t n w]; simpl. intros -> ->.
  unfold toggle_click, Js.bind; simpl.
  destruct (bool_decide (d = lit "block")); reflexivity.
Qed.

Lemma link_click_wired (s : State) (a : option jsstring) (d : jsstring) :
  navToggle s = Some a -> nav s = Some d ->
  link_click s =
    Js.Ok tt (if (innerWidth s <=? 980)%Z && bool_decide (d = lit "block")
              then mkState (Some (Some (lit "false"))) (Some (lit "")) (innerWidth s)
              else s).
Proof.
  destruct s as [t n w]; simpl. intros -> ->.
  unfold link_click, Js.bind; simpl.
  destruct (w <=? 980)%Z; simpl; [|reflexivity].
  destruct (bool_decide (d = lit "block")); reflexivity.
Qed.

Lemma ofBool_true (b : bool) : bool_decide (ofBool b = lit "true") = b.
Proof. destruct b; reflexivity. Qed.

Lemma handle_keeps_sync (e : event) (s : State) :
  wired s = true -> in_sync s ->
  wired (Js.final (handle e s)) = true /\ in_sync (Js.final (handle e s)).
Proof.
  unfold wired, in_sync, expanded, shown.
  destruct s as [[a|] [d|] w]; simpl; try discriminate. intros _ Hsync.
  destruct e; simpl.
  - rewrite (toggle_click_wired _ a d) by reflexivity. simpl. split; [reflexivity|].
    destruct (bool_decide (a = Some (lit "true"))) eqn:Ha;
      destruct (bool_decide (d = lit "block")) eqn:Hd; simpl; try reflexivity.
    + apply bool_decide_eq_true in Ha. apply bool_decide_eq_false in Hd.
      subst a. rewrite bool_decide_eq_true_2 in Hsync by reflexivity.
      symmetry in Hsync. apply bool_decide_eq_true in Hsync. congruence.
    + apply bool_decide_eq_false in Ha. apply bool_decide_eq_true in Hd.
      subst d. rewrite (bool_decide_eq_true_2 (Some (lit "block") = Some (lit "block")))
        in Hsync by reflexivity.
      apply bool_decide_eq_true in Hsync. congruence.
  - rewrite (link_click_wired _ a d) by reflexivity. simpl.
    destruct ((w <=? 980)%Z && bool_decide (d = lit "block")); simpl; auto.
Qed.

(** C8 as stated fails: the display is not set from the new value of the
    attribute.  On a page whose markup says [aria-expanded="true"] while
    the panel has no inline display, one click collapses the attribute
    and shows the panel. *)
Lemma toggle_click_can_diverge :
  toggle_click marked_expanded =
    Js.Ok tt (mkState (Some (Some (lit "false"))) (Some (lit "block")) 390) /\
  ~ in_sync (Js.final (toggle_click marked_expanded)).
Proof.
  split; [reflexivity|]. unfold in_sync. vm_compute. discriminate.
Qed.

(** C8, as the code has it.  A click on the toggle writes the inversion
    of [aria-expanded] back and flips the inline display of the panel
    between ['block'] and [''] whatever the attribute says; the panel is
    shown exactly when the attribute is ['true'] after the click if that
    was so before it, and this carries over any sequence of clicks on the
    toggle and on the links. *)
Theorem toggle_click_keeps_sync (s : State) (a : option jsstring) (d : jsstring) :
  navToggle s = Some a -> nav s = Some d ->
  exists s',
    toggle_click s = Js.Ok tt s' /\
    navToggle s' = Some (Some (ofBool (negb (bool_decide (a = Some (lit "true")))))) /\
    nav s' = Some (if bool_decide (d = lit "block") then lit "" else lit "block") /\
    (in_sync s -> forall es, in_sync (run es s')).
Proof.
  intros Ha Hd. eexists. split; [apply (toggle_click_wired s a d Ha Hd)|].
  split; [reflexivity|]. split; [reflexivity|].
  intros Hsync es.
  assert (Hw : wired s = true) by (unfold wired; now rewrite Ha, Hd).
  destruct (handle_keeps_sync ToggleClick s Hw Hsync) as [Hw' Hsync'].
  simpl in Hw', Hsync'. rewrite (toggle_click_wired s a d Ha Hd) in Hw', Hsync'.
  simpl in Hw', Hsync'.
  match goal with |- in_sync (run es ?x) => generalize dependent x end.
  induction es as [|e es IH]; intros s' Hw' Hsync'; simpl; [assumption|].
  destruct (handle_keeps_sync e s' Hw' Hsync') as [Hw'' Hsync''].
  apply IH; assumption.
Qed.

Lemma toggle_click_keeps_sync_witness :
  in_sync sample /\
  exists s',
    toggle_click sample = Js.Ok tt s' /\
    navToggle s' = Some (Some (lit "true")) /\
    nav s' = Some (lit "block") /\
    forall es, in_sync (run es s').
Proof.
  split; [reflexivity|].
  destruct (toggle_click_keeps_sync sample (Some (lit "false")) (lit "") eq_refl eq_refl)
    as (s' & Hrun & Haria & Hdisplay & Hsync).
  exists s'. split; [exact Hrun|]. split; [exact Haria|]. split; [exact Hdisplay|].
  apply Hsync. reflexivity.
Defined.

End NavFacts.

(* ===================================================================== *)
(** * Project filtering                                                   *)
(* ===================================================================== *)

Section FilterFacts.

Import Filter.

Lemma style_lookup (f : Card -> Card) (i j : nat) (s : State) :
  projects (style f i s) !! j =
    if decide (i = j) then f <$> projects s !! i else projects s !! j.
Proof. unfold style. simpl. apply list_lookup_alter. Qed.

Lemma visit_some (filter : option jsstring) (s : State) (i : nat) (p : Card) :
  projects s !! i = Some p ->
  visit filter s i =
    if selects filter p then
      mkState (alter (set_display (lit "")) i (projects s)) (filterButtons s)
              (frameQueue s ++ [FadeIn i]) (timers s) (now s)
    else
      mkState (alter (set_opacity (lit "0")) i (projects s)) (filterButtons s)
              (frameQueue s) (timers s ++ [((now s + 180)%N, i)]) (now s).
Proof. unfold visit. intros ->. destruct (selects filter p); reflexivity. Qed.

(** The loop of [applyFilter] after its first [k] rounds. *)
Lemma applyFilter_prefix (filter : option jsstring) (s : State) (k : nat) :
  quiescent s -> k <= length (projects s) ->
  let s_k := fold_left (visit filter) (seq 0 k) s in
  (forall i, projects s_k !! i =
             if decide (i < k) then restyle filter <$> projects s !! i
             else projects s !! i) /\
  now s_k = now s /\
  (forall cb, cb ∈ frameQueue s_k <->
              exists i p, cb = FadeIn i /\ i < k /\ projects s !! i = Some p /\
                          selects filter p = true) /\
  (forall tm, tm ∈ timers s_k <->
              exists i p, tm = ((now s + 180)%N, i) /\ i < k /\
                          projects s !! i = Some p /\ selects filter p = false).
Proof.
  intros [Hq Ht]. induction k as [|k IH]; intros Hk; cbv zeta.
  - simpl. split; [reflexivity|]. split; [reflexivity|]. rewrite Hq, Ht.
    split; intros x; (split; [intros H; inversion H | intros (i & p & _ & Hi & _); lia]).
  - rewrite seq_S, fold_left_app. simpl.
    destruct (IH ltac:(lia)) as (Hp & Hn & Hf & Htm). clear IH.
    set (s_k := fold_left (visit filter) (seq 0 k) s) in *.
    destruct (lookup_lt_is_Some_2 (projects s) k ltac:(lia)) as [p Hpk].
    assert (Hpk' : projects s_k !! k = Some p).
    { rewrite Hp. destruct (decide (k < k)); [lia | assumption]. }
    rewrite (visit_some filter s_k k p Hpk').
    assert (Hcard : forall f : Card -> Card, f p = restyle filter p ->
              forall i, alter f k (projects s_k) !! i =
                        if decide (i < S k) then restyle filter <$> projects s !! i
                        else projects s !! i).
    { intros f Hfp i. rewrite list_lookup_alter, !Hp.
      destruct (decide (k = i)) as [<-|Hne].
      - destruct (decide (k < k)); [lia|]. destruct (decide (k < S k)); [|lia].
        rewrite Hpk. simpl. now rewrite Hfp.
      - destruct (decide (i < k)), (decide (i < S k)); try lia; reflexivity. }
    unfold restyle in Hcard.
    destruct (selects filter p) eqn:Hsel; simpl.
    + split; [apply Hcard; reflexivity|]. split; [assumption|]. split.
      * intros cb. rewrite elem_of_app, Hf, list_elem_of_singleton. split.
        -- intros [(i & q & -> & Hi & Hpi & Hs)| ->].
           ++ exists i, q. repeat split; auto.
           ++ exists k, p. repeat split; auto.
        -- intros (i & q & -> & Hi & Hpi & Hs).
           destruct (decide (i = k)) as [->|Hne]; [now right|].
           left. exists i, q. repeat split; auto. lia.
      * intros tm. rewrite Htm. split.
        -- intros (i & q & -> & Hi & Hpi & Hs). exists i, q. repeat split; auto.
        -- intros (i & q & -> & Hi & Hpi & Hs).
           destruct (decide (i = k)) as [->|Hne]; [congruence|].
           exists i, q. repeat split; auto. lia.
    + split; [apply Hcard; reflexivity|]. split; [assumption|]. split.
      * intros cb. rewrite Hf. split.
        -- intros (i & q & -> & Hi & Hpi & Hs). exists i, q. repeat split; auto.
        -- intros (i & q & -> & Hi & Hpi & Hs).
           destruct (decide (i = k)) as [->|Hne]; [congruence|].
           exists i, q. repeat split; auto. lia.
      * intros tm. rewrite elem_of_app, Htm, list_elem_of_singleton, Hn. split.
        -- intros [(i & q & -> & Hi & Hpi & Hs)| ->].
           ++ exists i, q. repeat split; auto.
           ++ exists k, p. repeat split; auto.
        -- intros (i & q & -> & Hi & Hpi & Hs).
           destruct (decide (i = k)) as [->|Hne]; [now right|].
           left. exists i, q. repeat split; auto. lia.
Qed.

(** Right after [applyFilter] every card is on its way. *)
Lemma settling_init (filter : option jsstring) (s : State) :
  quiescent s ->
  settling filter (projects s) (now s) false (applyFilter filter s).
Proof.
  intros Hq.
  destruct (applyFilter_prefix filter s (length (projects s)) Hq (le_n _))
    as (Hp & Hn & Hf & Htm).
  fold (applyFilter filter s) in *.
  split; [|split; [|split; [|split]]].
  - intros i. rewrite Hp. destruct (projects s !! i) as [p|] eqn:Hpi.
    + apply lookup_lt_Some in Hpi as Hlt.
      destruct (decide (i < length (projects s))); [|lia].
      exists (restyle filter p). split; [reflexivity|].
      unfold on_its_way, restyle. destruct (selects filter p) eqn:Hsel; simpl.
      * split; [reflexivity|]. split; [reflexivity|]. right.
        apply Hf. exists i, p. auto.
      * split; [reflexivity|]. split; [reflexivity|]. right.
        apply Htm. exists i, p. auto.
    + now destruct (decide (i < length (projects s))).
  - apply Forall_forall. intros cb Hcb. apply Hf in Hcb as (i & p & -> & _ & Hpi & Hs).
    eauto.
  - apply Forall_forall. intros tm Htm'. apply Htm in Htm' as (i & p & -> & _ & Hpi & Hs).
    simpl. eauto.
  - discriminate.
  - rewrite Hn. lia.
Qed.

(** Running queued fade-ins touches nothing but the opacity of the cards
    they name. *)
Lemma run_fadeIns (q : list frameCallback) :
  Forall (fun cb => is_fadeIn cb = true) q ->
  forall s,
    let r := fold_left run_callback q s in
    frameQueue r = frameQueue s /\ timers r = timers s /\ now r = now s /\
    forall j, projects r !! j =
              if bool_decide (FadeIn j ∈ q)
              then set_opacity (lit "1") <$> projects s !! j
              else projects s !! j.
Proof.
  induction 1 as [|cb q Hcb _ IH]; intros s; simpl.
  - repeat split.
  - destruct cb as [i|]; [|discriminate]. simpl.
    destruct (IH (style (set_opacity (lit "1")) i s)) as (Hf & Ht & Hn & Hp).
    split; [exact Hf|]. split; [exact Ht|]. split; [exact Hn|].
    intros j. rewrite Hp, style_lookup.
    destruct (decide (i = j)) as [<-|Hne].
    + rewrite (bool_decide_eq_true_2 (FadeIn i ∈ FadeIn i :: q)) by left.
      destruct (bool_decide (FadeIn i ∈ q)); destruct (projects s !! i); reflexivity.
    + destruct (bool_decide (FadeIn j ∈ q)) eqn:Hq.
      * apply bool_decide_eq_true in Hq. rewrite bool_decide_eq_true_2; [reflexivity|].
        now right.
      * apply bool_decide_eq_false in Hq. rewrite bool_decide_eq_false_2; [reflexivity|].
        intros Hin. apply elem_of_cons in Hin as [Heq|Hin]; [congruence | contradiction].
Qed.

(** Firing timers touches nothing but the display of the cards they
    name. *)
Lemma fire_timers (fired : list (N * nat)) :
  forall s,
    let r := fold_left (fun s tm => style (set_display (lit "none")) tm.2 s) fired s in
    frameQueue r = frameQueue s /\ timers r = timers s /\ now r = now s /\
    forall j, projects r !! j =
              if bool_decide (j ∈ fired.*2)
              then set_display (lit "none") <$> projects s !! j
              else projects s !! j.
Proof.
  induction fired as [|[due i] fired IH]; intros s; simpl.
  - repeat split.
  - destruct (IH (style (set_display (lit "none")) i s)) as (Hf & Ht & Hn & Hp).
    split; [exact Hf|]. split; [exact Ht|]. split; [exact Hn|].
    intros j. rewrite Hp, style_lookup.
    change (list_fmap (N * nat)%type nat snd fired) with (fired.*2).
    destruct (decide (i = j)) as [<-|Hne].
    + rewrite (bool_decide_eq_true_2 (i ∈ i :: fired.*2)) by left.
      destruct (bool_decide (i ∈ fired.*2)); destruct (projects s !! i); reflexivity.
    + destruct (bool_decide (j ∈ fired.*2)) eqn:Hq.
      * apply bool_decide_eq_true in Hq. rewrite bool_decide_eq_true_2; [reflexivity|].
        now right.
      * apply bool_decide_eq_false in Hq. rewrite bool_decide_eq_false_2; [reflexivity|].
        intros Hin. apply elem_of_cons in Hin as [Heq|Hin]; [congruence | contradiction].
Qed.

Lemma settling_fadeIns filter ps t0 framed s :
  settling filter ps t0 framed s ->
  Forall (fun cb => is_fadeIn cb = true) (frameQueue s).
Proof.
  intros (_ & Hq & _). eapply Forall_impl; [exact Hq|].
  intros cb (i & p & -> & _). reflexivity.
Qed.

(** A frame keeps the cards on their way and empties the queue. *)
Lemma settling_frame filter ps t0 framed s :
  settling filter ps t0 framed s ->
  settling filter ps t0 true (frame s) /\ now (frame s) = now s.
Proof.
  intros Hs. pose proof (settling_fadeIns _ _ _ _ _ Hs) as Hfade.
  destruct Hs as (Hcards & Hq & Htm & _ & Hdue).
  unfold frame.
  destruct (run_fadeIns (frameQueue s) Hfade (set_frameQueue [] s)) as (Hf & Ht & Hn & Hp).
  simpl in Hf, Ht, Hn, Hp.
  split; [|exact Hn].
  split; [|split; [|split; [|split]]].
  - intros i. specialize (Hcards i). destruct (ps !! i) as [p|] eqn:Hpi.
    + destruct Hcards as (p' & Hp' & Hcat & Hway).
      rewrite Hp, Hp'. unfold on_its_way. rewrite Hf, Ht.
      destruct (selects filter p) eqn:Hsel.
      * destruct Hway as [Hd Ho].
        destruct (bool_decide (FadeIn i ∈ frameQueue s)) eqn:Hin; simpl.
        -- eexists. split; [reflexivity|]. simpl. auto.
        -- apply bool_decide_eq_false in Hin. exists p'. split; [reflexivity|].
           split; [assumption|]. split; [assumption|]. destruct Ho; [now left | contradiction].
      * rewrite bool_decide_eq_false_2.
        -- exists p'. split; [reflexivity|]. split; assumption.
        -- intros Hin. rewrite Forall_forall in Hq.
           destruct (Hq _ Hin) as (i' & p0 & Heq & Hp0 & Hs0).
           injection Heq as <-. congruence.
    + rewrite Hp, Hcards. now destruct (bool_decide _).
  - rewrite Hf. constructor.
  - now rewrite Ht.
  - intros _. exact Hf.
  - rewrite Hn, Ht. exact Hdue.
Qed.

Lemma filter_not_due_nil (t : N) (ts : list (N * nat)) :
  Forall (fun tm => (tm.1 <= t)%N) ts ->
  List.filter (fun tm => negb (due t tm)) ts = [].
Proof.
  induction 1 as [|tm ts Htm _ IH]; simpl; [reflexivity|].
  unfold due at 1. apply N.leb_le in Htm. now rewrite Htm.
Qed.

(** The passing of time keeps the cards on their way, and leaves no timer
    behind once 180 ms have gone by. *)
Lemma settling_elapse filter ps t0 framed s (dt : N) :
  settling filter ps t0 framed s ->
  settling filter ps t0 framed (elapse dt s) /\ now (elapse dt s) = (now s + dt)%N.
Proof.
  intros (Hcards & Hq & Htm & Hfr & Hdue).
  unfold elapse.
  set (t := (now s + dt)%N).
  set (fired := List.filter (due t) (timers s)).
  set (waiting := List.filter (fun tm => negb (due t tm)) (timers s)).
  destruct (fire_timers fired (set_now t (set_timers waiting s))) as (Hf & Ht & Hn & Hp).
  simpl in Hf, Ht, Hn, Hp.
  split; [|exact Hn].
  rewrite Forall_forall in Htm.
  split; [|split; [|split; [|split]]].
  - intros i. specialize (Hcards i). destruct (ps !! i) as [p|] eqn:Hpi.
    + destruct Hcards as (p' & Hp' & Hcat & Hway).
      rewrite Hp, Hp'. unfold on_its_way. rewrite Hf, Ht.
      destruct (selects filter p) eqn:Hsel.
      * rewrite bool_decide_eq_false_2.
        -- exists p'. split; [reflexivity|]. split; assumption.
        -- intros Hin. apply list_elem_of_fmap in Hin as ([d i'] & Heq & Hin).
           simpl in Heq. subst i'. apply list_elem_of_In, filter_In in Hin as [Hin _].
           apply list_elem_of_In in Hin. destruct (Htm _ Hin) as (_ & p0 & Hp0 & Hs0).
           simpl in Hp0. congruence.
      * destruct Hway as [Ho Hd].
        destruct (bool_decide (i ∈ fired.*2)) eqn:Hin; simpl.
        -- eexists. split; [reflexivity|]. simpl. auto.
        -- apply bool_decide_eq_false in Hin. exists p'. split; [reflexivity|].
           split; [assumption|]. split; [assumption|].
           destruct Hd as [Hd|Hd]; [now left|]. right.
           apply list_elem_of_In, filter_In. split; [now apply list_elem_of_In|].
           destruct (due t ((t0 + 180)%N, i)) eqn:Hdue'; [|reflexivity].
           exfalso. apply Hin. apply list_elem_of_fmap. exists ((t0 + 180)%N, i).
           split; [reflexivity|]. apply list_elem_of_In, filter_In.
           split; [now apply list_elem_of_In | assumption].
    + rewrite Hp, Hcards. now destruct (bool_decide _).
  - now rewrite Hf.
  - rewrite Ht. apply Forall_forall. intros tm Hin.
    apply list_elem_of_In, filter_In in Hin as [Hin _]. apply Htm. now apply list_elem_of_In.
  - rewrite Hf. exact Hfr.
  - rewrite Hn, Ht. intros Hlate. apply filter_not_due_nil.
    apply Forall_forall. intros tm Hin. destruct (Htm _ Hin) as [-> _]. exact Hlate.
Qed.

Lemma settling_run filter ps t0 (es : list event) :
  forall framed s,
    forallb passive es = true ->
    settling filter ps t0 framed s ->
    settling filter ps t0 (framed || existsb is_frame es) (run es s) /\
    now (run es s) = (now s + elapsed es)%N.
Proof.
  induction es as [|e es IH]; intros framed s Hes Hs; simpl.
  - rewrite orb_false_r, N.add_0_r. auto.
  - simpl in Hes. apply andb_true_iff in Hes as [He Hes].
    destruct e as [i| |dt]; [discriminate| |]; simpl.
    + destruct (settling_frame _ _ _ _ _ Hs) as [Hs' Hn].
      destruct (IH true (frame s) Hes Hs') as [Hs'' Hn'].
      rewrite orb_true_r. split; [exact Hs'' | congruence].
    + destruct (settling_elapse _ _ _ _ _ dt Hs) as [Hs' Hn].
      destruct (IH framed (elapse dt s) Hes Hs') as [Hs'' Hn'].
      split; [exact Hs''|]. rewrite Hn', Hn. lia.
Qed.

(** Once a frame has been painted and the timers are gone, every card has
    arrived. *)
Lemma settling_done filter ps t0 s :
  settling filter ps t0 true s -> (t0 + 180 <= now s)%N ->
  forall i p, ps !! i = Some p ->
    exists p', projects s !! i = Some p' /\ category p' = category p /\
               if selects filter p then shown p' else hidden p'.
Proof.
  intros (Hcards & _ & _ & Hfr & Hdue) Hlate i p Hpi.
  specialize (Hcards i). rewrite Hpi in Hcards.
  destruct Hcards as (p' & Hp' & Hcat & Hway).
  exists p'. split; [assumption|]. split; [assumption|].
  rewrite (Hfr eq_refl), (Hdue Hlate) in Hway. unfold shown, hidden.
  destruct (selects filter p).
  - destruct Hway as [Hd [Ho|Hin]]; [auto | inversion Hin].
  - destruct Hway as [Ho [Hd|Hin]]; [auto | inversion Hin].
Qed.

(** C4.  [applyFilter] restores the display of a selected card (line 72)
    but never cancels the timer that an earlier call has set for it
    (line 76).  The visitor presses "web" and, 100 ms later, "all": the
    design card is selected by "all", yet the timer set by "web" takes it
    out of the layout 80 ms after that, and there it stays although
    nothing is pending any more. *)
Lemma stale_timer_hides_selected_card :
  exists p p',
    projects sample_filtering !! 1 = Some p /\
    selects (Some (lit "all")) p = true /\
    projects (run [Frame; Elapse 180] (applyFilter (Some (lit "all")) sample_filtering)) !! 1
      = Some p' /\
    display p' = lit "none" /\
    ~ shown p' /\
    quiescent (run [Frame; Elapse 180] (applyFilter (Some (lit "all")) sample_filtering)).
Proof.
  eexists. eexists.
  split; [reflexivity|]. split; [reflexivity|]. split; [reflexivity|].
  split; [reflexivity|]. split; [|split; reflexivity].
  intros [Hd _]. vm_compute in Hd. discriminate Hd.
Qed.

(** What the filter does when it is left alone.  When no callback is
    pending, [applyFilter(filter)] at once lays out the selected cards
    and makes the others transparent; after any further frames and
    passing of time without a press on a filter button that include one
    frame and 180 ms, every selected card (every card when the filter is
    "all") is shown, with its display restored and opacity 1, and every
    other card is hidden, with opacity 0 and display none. *)
Theorem filter_settles (filter : option jsstring) (s : State) (es : list event) :
  quiescent s ->
  forallb passive es = true -> existsb is_frame es = true -> (180 <= elapsed es)%N ->
  forall i p, projects s !! i = Some p ->
    (exists p0,
       projects (applyFilter filter s) !! i = Some p0 /\
       if selects filter p then display p0 = lit "" else opacity p0 = lit "0") /\
    (exists p',
       projects (run es (applyFilter filter s)) !! i = Some p' /\
       category p' = category p /\
       if selects filter p then shown p' else hidden p').
Proof.
  intros Hq Hpassive Hframe Hlate i p Hpi.
  pose proof (settling_init filter s Hq) as Hinit.
  split.
  - destruct Hinit as (Hcards & _). specialize (Hcards i). rewrite Hpi in Hcards.
    destruct Hcards as (p0 & Hp0 & _ & Hway). exists p0. split; [assumption|].
    destruct (selects filter p); tauto.
  - destruct (settling_run filter (projects s) (now s) es false _ Hpassive Hinit)
      as [Hs Hn].
    rewrite Hframe in Hs. simpl in Hs.
    apply (settling_done filter (projects s) (now s) _ Hs); [|assumption].
    rewrite Hn.
    destruct (applyFilter_prefix filter s (length (projects s)) Hq (le_n _))
      as (_ & Hnow & _).
    fold (applyFilter filter s) in Hnow. rewrite Hnow. lia.
Qed.

Lemma filter_settles_witness :
  (exists p',
     projects (run [Elapse 60; Frame; Elapse 120] (applyFilter (Some (lit "web")) sample)) !! 0
       = Some p' /\
     category p' = category web_card /\ shown p') /\
  (exists p',
     projects (run [Elapse 60; Frame; Elapse 120] (applyFilter (Some (lit "web")) sample)) !! 1
       = Some p' /\
     category p' = category design_card /\ hidden p').
Proof.
  split.
  - apply (filter_settles (Some (lit "web")) sample [Elapse 60; Frame; Elapse 120]
             ltac:(split; reflexivity) eq_refl eq_refl ltac:(vm_compute; discriminate)
             0 web_card eq_refl).
  - apply (filter_settles (Some (lit "web")) sample [Elapse 60; Frame; Elapse 120]
             ltac:(split; reflexivity) eq_refl eq_refl ltac:(vm_compute; discriminate)
             1 design_card eq_refl).
Defined.

(** The same through the click handler of a filter button: it marks the
    button and applies the button's [data-filter]. *)
Lemma filter_click_settles (s : State) (b : nat) (btn : Button) (es : list event) :
  quiescent s -> filterButtons s !! b = Some btn ->
  forallb passive es = true -> existsb is_frame es = true -> (180 <= elapsed es)%N ->
  forall i p, projects s !! i = Some p ->
    exists p',
      projects (run (Click b :: es) s) !! i = Some p' /\
      category p' = category p /\
      if selects (dataFilter btn) p then shown p' else hidden p'.
Proof.
  intros Hq Hb Hpassive Hframe Hlate i p Hpi.
  simpl. unfold filter_click. rewrite Hb.
  match goal with
  | |- context [applyFilter _ ?x] => set (s0 := x)
  end.
  assert (Hq0 : quiescent s0) by exact Hq.
  pose proof (settling_init (dataFilter btn) s0 Hq0) as Hinit.
  destruct (settling_run (dataFilter btn) (projects s0) (now s0) es false _ Hpassive Hinit)
    as [Hs Hn].
  rewrite Hframe in Hs. simpl in Hs.
  apply (settling_done (dataFilter btn) (projects s0) (now s0) _ Hs); [|exact Hpi].
  rewrite Hn.
  destruct (applyFilter_prefix (dataFilter btn) s0 (length (projects s0)) Hq0 (le_n _))
    as (_ & Hnow & _).
  fold (applyFilter (dataFilter btn) s0) in Hnow. rewrite Hnow. lia.
Qed.

End FilterFacts.

(* ===================================================================== *)
(** * Start-up                                                            *)
(* ===================================================================== *)

Section ScriptFacts.

Import Script.

Lemma addEach_from (l : nat -> listener) (xs : list nat) :
  forall i p,
    Js.forEach_from i xs (fun _ x => addEventListener (l x)) p =
    Js.Ok tt (set_listeners (listeners p ++ (l <$> xs)) p).
Proof.
  induction xs as [|x xs IH]; intros i p; simpl.
  - unfold Js.ret. rewrite app_nil_r. now destruct p.
  - unfold Js.bind, addEventListener at 1, Js.modify. rewrite IH.
    destruct p; simpl. now rewrite <- app_assoc.
Qed.

Lemma addEach_spec (n : nat) (l : nat -> listener) (p : Page) :
  addEach n l p = Js.Ok tt (set_listeners (listeners p ++ (l <$> seq 0 n)) p).
Proof. apply addEach_from. Qed.

Lemma year_step (p : Page) :
  Js.bind (Js.gets yearEl)
          (fun y => Js.bind (Js.gets currentYear)
             (fun year => Js.when (bool_decide (is_Some y))
                            (Js.modify (set_yearEl (JsString.ofNat year))))) p
  = Js.Ok tt (with_year p).
Proof. destruct p as [[y|] ? ? ? ? ? ? ? ? ? ? ? ?]; reflexivity. Qed.

Lemma set_listeners_nil (p : Page) : set_listeners (listeners p ++ []) p = p.
Proof. destruct p; simpl. now rewrite app_nil_r. Qed.

Lemma addEventListener_spec (l : listener) (p : Page) :
  addEventListener l p = Js.Ok tt (set_listeners (listeners p ++ [l]) p).
Proof. reflexivity. Qed.

Lemma addIfPresent_spec {A} (el : Page -> option A) (l : listener) (p : Page) :
  addIfPresent el l p =
    Js.Ok tt (set_listeners
                (listeners p ++ if bool_decide (is_Some (el p)) then [l] else []) p).
Proof.
  unfold addIfPresent, Js.bind, Js.gets, Js.when.
  destruct (bool_decide (is_Some (el p))); [reflexivity|].
  unfold Js.ret. now rewrite set_listeners_nil.
Qed.

Lemma addEach_gets (f : Page -> nat) (l : nat -> listener) (p : Page) :
  Js.bind (Js.gets f) (fun n => addEach n l) p =
    Js.Ok tt (set_listeners (listeners p ++ (l <$> seq 0 (f p))) p).
Proof. unfold Js.bind, Js.gets. apply addEach_spec. Qed.

Lemma when_present (b : Page -> bool) (l : listener) (p : Page) :
  Js.bind (Js.gets b) (fun present => Js.when present (addEventListener l)) p =
    Js.Ok tt (set_listeners (listeners p ++ if b p then [l] else []) p).
Proof.
  unfold Js.bind, Js.gets, Js.when. destruct (b p); [reflexivity|].
  unfold Js.ret. now rewrite set_listeners_nil.
Qed.

Lemma modal_step_some (p : Page) (a : option jsstring) :
  Modal.modal (modalState p) = Some a ->
  Js.bind (Js.deref (fun p => Modal.modal (modalState p)))
          (fun _ => addEventListener ModalClick) p =
    Js.Ok tt (set_listeners (listeners p ++ [ModalClick]) p).
Proof. intros H. unfold Js.bind, Js.deref. now rewrite H. Qed.

Lemma modal_step_none (p : Page) :
  Modal.modal (modalState p) = None ->
  Js.bind (Js.deref (fun p => Modal.modal (modalState p)))
          (fun _ => addEventListener ModalClick) p =
    Js.Throw Js.TypeError p.
Proof. intros H. unfold Js.bind, Js.deref. now rewrite H. Qed.

(** The whole start-up in one step: the script runs to its end exactly
    when [#project-modal] exists; without it, line 130 throws and nothing
    after it is registered. *)
Lemma init_spec (p : Page) :
  init p =
    match Modal.modal (modalState p) with
    | Some _ =>
      Js.Ok tt (with_start_animations
                  (set_listeners (listeners p ++ attached_before p ++ attached_after p)
                                 (with_year p)))
    | None =>
      Js.Throw Js.TypeError
               (set_listeners (listeners p ++ attached_before p) (with_year p))
    end.
Proof.
  unfold init.
  rewrite (bind_ok _ _ p _ tt (year_step p)).
  rewrite (bind_ok _ _ _ _ tt (addIfPresent_spec _ _ _)).
  rewrite (bind_ok _ _ _ _ tt (addEach_gets _ _ _)).
  rewrite (bind_ok _ _ _ _ tt (addEach_gets _ _ _)).
  rewrite (bind_ok _ _ _ _ tt (addEach_gets _ _ _)).
  rewrite (bind_ok _ _ _ _ tt (addEach_gets _ _ _)).
  rewrite (bind_ok _ _ _ _ tt (addEach_gets _ _ _)).
  rewrite (bind_ok _ _ _ _ tt (when_present _ _ _)).
  cbn [with_year set_listeners yearEl currentYear reducedMotion navState navLinks
       anchors sections filterState openButtons modalState mailFallback
       contactState listeners].
  unfold attached_before, attached_after, with_start_animations, present.
  destruct (Modal.modal (modalState p)) as [a|] eqn:Hm.
  - erewrite bind_ok by (apply (modal_step_some _ a); exact Hm).
    rewrite (bind_ok _ _ _ _ tt (addEventListener_spec _ _)).
    rewrite (bind_ok _ _ _ _ tt (addEach_gets _ _ _)).
    rewrite (bind_ok _ _ _ _ tt (when_present _ _ _)).
    rewrite (bind_ok _ _ _ _ tt (addIfPresent_spec _ _ _)).
    unfold Js.bind, Js.gets, Js.when, Js.modify, Js.ret.
    destruct p; simpl. rewrite <- !app_assoc. simpl.
    destruct reducedMotion0; reflexivity.
  - erewrite bind_throw by (apply modal_step_none; exact Hm).
    destruct p; simpl. rewrite <- !app_assoc. reflexivity.
Qed.

(** The script runs to its end exactly when the modal container exists:
    the navigation toggle, the navigation panel, the close control, the
    contact form and the status region may all be missing, but a page
    without [#project-modal] makes line 130 throw. *)
Lemma init_returns_iff_modal_present (p : Page) :
  Js.returned (init p) = present ModalContainer p.
Proof.
  rewrite init_spec. unfold present.
  destruct (Modal.modal (modalState p)); reflexivity.
Qed.

Lemma not_in_each (f : nat -> listener) (l : listener) (n : nat) :
  (forall i, indexed (f i) = true) -> indexed l = false ->
  l ∈ f <$> seq 0 n <-> False.
Proof.
  intros Hf Hl. split; [|contradiction].
  intros H. apply list_elem_of_fmap in H as (i & -> & _). congruence.
Qed.

Lemma in_attached_before (l : listener) (p : Page) :
  indexed l = false ->
  l ∈ attached_before p <->
  (l = NavToggleClick /\ present NavToggle p = true) \/
  (l = ModalCloseClick /\ present CloseControl p = true).
Proof.
  intros Hl. unfold attached_before. rewrite !elem_of_app.
  rewrite (not_in_each NavLinkClick l _ (fun _ => eq_refl) Hl).
  rewrite (not_in_each AnchorClick l _ (fun _ => eq_refl) Hl).
  rewrite (not_in_each SectionObserved l _ (fun _ => eq_refl) Hl).
  rewrite (not_in_each FilterClick l _ (fun _ => eq_refl) Hl).
  rewrite (not_in_each OpenProjectClick l _ (fun _ => eq_refl) Hl).
  destruct (present NavToggle p), (present CloseControl p);
    rewrite ?list_elem_of_singleton, ?elem_of_nil; intuition discriminate.
Qed.

Lemma in_attached_after (l : listener) (p : Page) :
  indexed l = false ->
  l ∈ attached_after p <->
  l = ModalClick \/ l = DocumentKeydown \/
  (l = MailFallbackClick /\ mailFallback p = true) \/
  (l = FormSubmit /\ present ContactForm p = true).
Proof.
  intros Hl. unfold attached_after. rewrite !elem_of_app.
  rewrite (not_in_each CardKeydown l _ (fun _ => eq_refl) Hl).
  rewrite !elem_of_cons.
  destruct (mailFallback p), (present ContactForm p);
    rewrite ?list_elem_of_singleton, ?elem_of_nil; intuition discriminate.
Qed.

(** On a page with the modal container, a handler is registered exactly
    when its element exists. *)
Lemma init_registers_what_exists (p : Page) :
  present ModalContainer p = true -> listeners p = [] ->
  exists p',
    init p = Js.Ok tt p' /\
    (NavToggleClick ∈ listeners p' <-> present NavToggle p = true) /\
    (ModalCloseClick ∈ listeners p' <-> present CloseControl p = true) /\
    (FormSubmit ∈ listeners p' <-> present ContactForm p = true) /\
    ModalClick ∈ listeners p' /\ DocumentKeydown ∈ listeners p'.
Proof.
  intros Hm Hl. rewrite init_spec. unfold present in Hm.
  destruct (Modal.modal (modalState p)) as [a|]; [|discriminate].
  eexists. split; [reflexivity|].
  assert (Hls : forall q, listeners (with_start_animations q) = listeners q).
  { intros q. unfold with_start_animations. now destruct (reducedMotion q). }
  rewrite Hls. simpl. rewrite Hl. simpl.
  rewrite !elem_of_app.
  rewrite !in_attached_before, !in_attached_after by reflexivity.
  repeat split; intros; intuition discriminate.
Qed.

(** C1 on the page without [#project-modal].  A missing modal container
    is fatal: the start-up throws a [TypeError] once the listeners of
    lines 17-129 are in place, and the keyboard handler and the two
    handlers of the contact form, which that page does have, are never
    registered. *)
Theorem init_without_modal_throws :
  present ContactForm without_modal = true /\
  mailFallback without_modal = true /\
  exists p',
    init without_modal = Js.Throw Js.TypeError p' /\
    bool_decide (DocumentKeydown ∈ listeners p') = false /\
    bool_decide (MailFallbackClick ∈ listeners p') = false /\
    bool_decide (FormSubmit ∈ listeners p') = false.
Proof.
  split; [reflexivity|]. split; [reflexivity|].
  eexists. split; [rewrite init_spec; reflexivity|].
  repeat split; vm_compute; reflexivity.
Qed.

(** On the complete page the start-up returns, with one listener per
    toggle, link, anchor, section, filter button, project button, close
    control, modal, document, card, fallback link and form. *)
Lemma init_complete :
  exists p',
    init complete = Js.Ok tt p' /\
    length (listeners p') = 27 /\
    Filter.frameQueue (filterState p') = [Filter.StartAnimations].
Proof.
  eexists. split; [rewrite init_spec; reflexivity|].
  split; vm_compute; reflexivity.
Qed.

End ScriptFacts.

(* ===================================================================== *)
(** * More about the string built-ins                                     *)
(* ===================================================================== *)

Section TrimFacts.

Import JsString.

Lemma trimStart_split (s : jsstring) :
  exists w, s = w ++ trimStart s /\ Forall (fun c => isSpace c = true) w.
Proof.
  induction s as [|c s (w & Hs & Hw)]; [exists []; auto|].
  cbn [trimStart]. destruct (isSpace c) eqn:Hc.
  - exists (c :: w). split; [cbn; congruence | now constructor].
  - exists []. auto.
Qed.

Lemma trimEnd_split (s : jsstring) :
  exists w, s = trimEnd s ++ w /\ Forall (fun c => isSpace c = true) w.
Proof.
  unfold trimEnd. destruct (trimStart_split (rev s)) as (w & Hs & Hw).
  exists (rev w). split.
  - rewrite <- rev_app_distr, <- Hs. now rewrite rev_involutive.
  - now apply Forall_rev.
Qed.

Lemma trimEnd_last (s : jsstring) (c : N) :
  last (trimEnd s) = Some c -> isSpace c = false.
Proof.
  unfold trimEnd. pose proof (trimStart_no_leading_space (rev s)) as H.
  destruct (trimStart (rev s)) as [|x t]; [discriminate|].
  cbn [rev]. rewrite last_snoc. congruence.
Qed.

Lemma trimEnd_head (s : jsstring) (c : N) :
  head (trimEnd s) = Some c -> head s = Some c.
Proof.
  destruct (trimEnd_split s) as (w & Hs & _). intros H. rewrite Hs.
  destruct (trimEnd s); [discriminate | exact H].
Qed.

Lemma trimStart_head (s : jsstring) (c : N) :
  head (trimStart s) = Some c -> isSpace c = false.
Proof.
  pose proof (trimStart_no_leading_space s) as H.
  destruct (trimStart s); [discriminate|]. cbn. congruence.
Qed.

Lemma trimStart_all_space (s : jsstring) :
  Forall (fun c => isSpace c = true) s -> trimStart s = [].
Proof. induction 1 as [|c s Hc _ IH]; [reflexivity|]. cbn [trimStart]. now rewrite Hc. Qed.

(** [trim] gives nothing exactly on a string of blanks. *)
Lemma trim_nil_iff (s : jsstring) :
  trim s = [] <-> Forall (fun c => isSpace c = true) s.
Proof.
  unfold trim. split.
  - intros H. destruct (trimStart_split s) as (w1 & Hs & Hw1).
    destruct (trimEnd_split (trimStart s)) as (w2 & Hs2 & Hw2).
    rewrite H in Hs2. cbn in Hs2. rewrite Hs, Hs2. now apply Forall_app.
  - intros H. now rewrite (trimStart_all_space s H).
Qed.

Lemma trim_Forall (P : N -> Prop) (s : jsstring) :
  Forall P s -> Forall P (trim s).
Proof.
  unfold trim. destruct (trimStart_split s) as (w1 & Hs & _).
  destruct (trimEnd_split (trimStart s)) as (w2 & Hs2 & _).
  intros H. rewrite Hs, Hs2 in H.
  apply Forall_app in H as [_ H]. now apply Forall_app in H as [H _].
Qed.

Lemma trim_strips_both_ends_parts (s : jsstring) :
  exists w1 w2, s = w1 ++ trim s ++ w2.
Proof.
  unfold trim. destruct (trimStart_split s) as (w1 & Hs & _).
  destruct (trimEnd_split (trimStart s)) as (w2 & Hs2 & _).
  exists w1, w2. now rewrite <- Hs2.
Qed.

(** [trim] removes a run of blanks at either end and nothing else, and
    what it returns neither starts nor ends with a blank. *)
Theorem trim_strips_both_ends (s : jsstring) :
  exists w1 w2,
    s = w1 ++ trim s ++ w2 /\
    Forall (fun c => isSpace c = true) w1 /\
    Forall (fun c => isSpace c = true) w2 /\
    (forall c, head (trim s) = Some c -> isSpace c = false) /\
    (forall c, last (trim s) = Some c -> isSpace c = false).
Proof.
  unfold trim. destruct (trimStart_split s) as (w1 & Hs & Hw1).
  destruct (trimEnd_split (trimStart s)) as (w2 & Hs2 & Hw2).
  exists w1, w2. split; [now rewrite <- Hs2|].
  split; [assumption|]. split; [assumption|]. split.
  - intros c Hc. apply trimEnd_head in Hc. now apply trimStart_head in Hc.
  - apply trimEnd_last.
Qed.

Lemma startsWith_spec (pat s : jsstring) :
  startsWith pat s = true <-> exists b, s = pat ++ b.
Proof.
  revert s. induction pat as [|p pat IH]; intros s; cbn [startsWith].
  - split; [eauto | reflexivity].
  - destruct s as [|c s]; [split; [discriminate | intros [b Hb]; discriminate]|].
    rewrite andb_true_iff, N.eqb_eq, IH. split.
    + intros [-> [b ->]]. eauto.
    + intros [b Hb]. injection Hb as -> ->. eauto.
Qed.

(** [s.includes(pat)] holds exactly when [pat] occurs somewhere in [s]. *)
Lemma includes_spec (s pat : jsstring) :
  includes s pat = true <-> exists a b, s = a ++ pat ++ b.
Proof.
  induction s as [|c s IH].
  - change (includes [] pat) with (startsWith pat [] || false).
    rewrite orb_true_iff, startsWith_spec. split.
    + intros [[b Hb]|H]; [|discriminate]. exists [], b. exact Hb.
    + intros (a & b & H). left. destruct a; [eauto | discriminate].
  - change (includes (c :: s) pat) with (startsWith pat (c :: s) || includes s pat).
    rewrite orb_true_iff, startsWith_spec, IH. split.
    + intros [[b Hb]|(a & b & ->)]; [exists [], b; exact Hb | exists (c :: a), b; reflexivity].
    + intros (a & b & H). destruct a as [|x a]; [left; eauto|].
      right. injection H as -> ->. eauto.
Qed.

End TrimFacts.

Section UriFacts.

Import JsString Uri.

Lemma hexDigit_alnum (d : N) : (d < 16)%N -> isAlnum (hexDigit d) = true.
Proof.
  intros Hd. unfold hexDigit, isAlnum.
  destruct (d <? 10)%N eqn:H10.
  - apply N.ltb_lt in H10. rewrite !orb_true_iff, !andb_true_iff, !N.leb_le. lia.
  - apply N.ltb_ge in H10. rewrite !orb_true_iff, !andb_true_iff, !N.leb_le. lia.
Qed.

Lemma percent_escaped (b : N) : (b < 256)%N -> escaped (percent b) = true.
Proof.
  intros Hb. unfold escaped, percent, isUnreserved. cbn [forallb].
  assert (H1 : (N.shiftr b 4 < 16)%N).
  { rewrite N.shiftr_div_pow2. apply N.Div0.div_lt_upper_bound. exact Hb. }
  assert (H2 : (N.land b 15 < 16)%N).
  { change 15%N with (N.ones 4). rewrite N.land_ones. now apply N.mod_lt. }
  rewrite (hexDigit_alnum _ H1), (hexDigit_alnum _ H2). reflexivity.
Qed.

Lemma lor_byte (a b : N) : (a < 256)%N -> (b < 256)%N -> (N.lor a b < 256)%N.
Proof.
  intros Ha Hb.
  assert (Hlog : forall x, (x < 256)%N -> (N.log2 x < 8)%N).
  { intros x Hx. destruct (N.eq_dec x 0%N) as [->|Hne]; [reflexivity|].
    apply N.log2_lt_pow2; [lia | exact Hx]. }
  destruct (N.eq_dec (N.lor a b) 0%N) as [->|Hne]; [lia|].
  change 256%N with (2 ^ 8)%N. apply N.log2_lt_pow2; [lia|].
  rewrite N.log2_lor. apply N.max_lub_lt; auto.
Qed.

Lemma land_63 (x : N) : (N.land x 63 < 256)%N.
Proof.
  change 63%N with (N.ones 6). rewrite N.land_ones.
  pose proof (N.mod_lt x (2 ^ 6) ltac:(discriminate)) as H.
  change (2 ^ 6)%N with 64%N in *. lia.
Qed.

Lemma shiftr_small (cp k bound : N) :
  (cp < 2 ^ k * bound)%N -> (N.shiftr cp k < bound)%N.
Proof. intros H. rewrite N.shiftr_div_pow2. now apply N.Div0.div_lt_upper_bound. Qed.

(** The UTF-8 form of a code point is made of octets. *)
Lemma utf8_octets (cp : N) :
  (cp < 1114112)%N -> Forall (fun b => (b < 256)%N) (utf8 cp).
Proof.
  intros Hcp. unfold utf8.
  destruct (cp <? 128)%N eqn:H1; [apply N.ltb_lt in H1; repeat constructor; lia|].
  destruct (cp <? 2048)%N eqn:H2.
  { apply N.ltb_lt in H2. repeat constructor; apply lor_byte;
      first [lia | apply land_63 | idtac].
    assert (N.shiftr cp 6 < 32)%N by (apply shiftr_small; exact H2). lia. }
  destruct (cp <? 65536)%N eqn:H3.
  { apply N.ltb_lt in H3. repeat constructor; apply lor_byte;
      first [lia | apply land_63 | idtac].
    assert (N.shiftr cp 12 < 16)%N by (apply shiftr_small; exact H3). lia. }
  repeat constructor; apply lor_byte; first [lia | apply land_63 | idtac].
  assert (N.shiftr cp 18 < 8)%N by (apply shiftr_small; cbn; lia). lia.
Qed.

Lemma escaped_app (a b : jsstring) : escaped (a ++ b) = escaped a && escaped b.
Proof. apply forallb_app. Qed.

Lemma escapeOctets_escaped (bs : list N) :
  Forall (fun b => (b < 256)%N) bs -> escaped (escapeOctets bs) = true.
Proof.
  unfold escapeOctets. induction 1 as [|b bs Hb _ IH]; [reflexivity|].
  cbn [map concat]. now rewrite escaped_app, IH, (percent_escaped b Hb).
Qed.

Lemma codePoint_range (hi lo : N) :
  isHighSurrogate hi = true -> isLowSurrogate lo = true ->
  (codePoint hi lo < 1114112)%N.
Proof.
  unfold isHighSurrogate, isLowSurrogate, codePoint.
  rewrite !andb_true_iff, !N.leb_le. lia.
Qed.

Lemma encodeURIComponent_escaped_upto (n : nat) :
  forall s out,
    length s <= n -> codeUnits s = true ->
    encodeURIComponent s = Some out -> escaped out = true.
Proof.
  induction n as [|n IH]; intros s out Hlen Hs Henc.
  - destruct s; [|simpl in Hlen; lia]. cbn in Henc. now injection Henc as <-.
  - destruct s as [|c rest]; [cbn in Henc; now injection Henc as <-|].
    cbn [length] in Hlen. unfold codeUnits in Hs. cbn [forallb] in Hs.
    apply andb_true_iff in Hs as [Hc Hrest]. apply N.ltb_lt in Hc.
    cbn [encodeURIComponent] in Henc.
    destruct (isUnreserved c) eqn:Hu.
    + destruct (encodeURIComponent rest) as [out'|] eqn:Er; [|discriminate].
      cbn in Henc. injection Henc as <-. unfold escaped. cbn [forallb].
      rewrite Hu. cbn. apply (IH rest out'); [lia | exact Hrest | exact Er].
    + destruct (isHighSurrogate c) eqn:Hh.
      * destruct rest as [|d rest']; [discriminate|].
        destruct (isLowSurrogate d) eqn:Hl; [|discriminate].
        destruct (encodeURIComponent rest') as [out'|] eqn:Er; [|discriminate].
        cbn in Henc. injection Henc as <-.
        cbn [forallb] in Hrest. apply andb_true_iff in Hrest as [_ Hrest'].
        cbn [length] in Hlen. rewrite escaped_app.
        apply andb_true_iff. split.
        -- apply escapeOctets_escaped, utf8_octets, codePoint_range; assumption.
        -- apply (IH rest' out'); [lia | exact Hrest' | exact Er].
      * destruct (isLowSurrogate c); [discriminate|].
        destruct (encodeURIComponent rest) as [out'|] eqn:Er; [|discriminate].
        cbn in Henc. injection Henc as <-. rewrite escaped_app.
        apply andb_true_iff. split.
        -- apply escapeOctets_escaped, utf8_octets. lia.
        -- apply (IH rest out'); [lia | exact Hrest | exact Er].
Qed.

(** What [encodeURIComponent] returns is made of unreserved characters
    and [%XX] escapes only. *)
Lemma encodeURIComponent_escaped (s out : jsstring) :
  codeUnits s = true -> encodeURIComponent s = Some out -> escaped out = true.
Proof. apply (encodeURIComponent_escaped_upto (length s)). lia. Qed.

Lemma codeUnits_app (a b : jsstring) :
  codeUnits (a ++ b) = codeUnits a && codeUnits b.
Proof. apply forallb_app. Qed.

Lemma codeUnits_trim (s : jsstring) : codeUnits s = true -> codeUnits (trim s) = true.
Proof.
  unfold codeUnits. rewrite !forallb_forall. intros H c Hc. apply H.
  destruct (trim_strips_both_ends_parts s) as (w1 & w2 & Hs).
  rewrite Hs. apply in_or_app. right. apply in_or_app. now left.
Qed.

End UriFacts.

(* ===================================================================== *)
(** * More about the contact form                                         *)
(* ===================================================================== *)

Section MoreContactFacts.

Import Contact.

Lemma truthy_nonempty (s : jsstring) : s <> [] -> JsString.truthy s = true.
Proof. destruct s; [congruence | reflexivity]. Qed.

Lemma email_shape_nonempty (s : jsstring) : email_shape s -> s <> [].
Proof. intros (a & b & c & -> & [Ha _] & _). destruct a; [congruence | discriminate]. Qed.

(** The two checks of the submit handler pass on non-blank values with an
    address of the expected shape. *)
Lemma valid_of_shape (s : State) (n e m : Field) :
  nameField s = Some n -> emailField s = Some e -> messageField s = Some m ->
  JsString.trim (value n) <> [] -> JsString.trim (value m) <> [] ->
  email_shape (JsString.trim (value e)) ->
  valid s = true.
Proof.
  intros Hn He Hm Nn Nm Hshape. unfold valid. rewrite Hn, He, Hm.
  rewrite (truthy_nonempty _ Nn), (truthy_nonempty _ Nm).
  rewrite (truthy_nonempty _ (email_shape_nonempty _ Hshape)).
  now apply emailPattern_shape in Hshape as ->.
Qed.

(** A control that holds nothing, or nothing but blanks, stops the
    submission with "Please complete all fields.", whatever the other
    controls hold and wherever the form posts to (lines 183-187). *)
Theorem blank_field_blocks_submission
    (s : State) (n e m : Field) (r : fetchResult) :
  wired s = true ->
  nameField s = Some n -> emailField s = Some e -> messageField s = Some m ->
  Forall (fun c => JsString.isSpace c = true) (value n) \/
  Forall (fun c => JsString.isSpace c = true) (value e) \/
  Forall (fun c => JsString.isSpace c = true) (value m) ->
  submit r s = Js.Ok Finished (set_status (mkStatus msg_complete (lit "tomato")) s).
Proof.
  intros Hw Hn He Hm Hblank.
  apply wired_inv in Hw as (a & st & n' & e' & m' & h & ->).
  cbn in Hn, He, Hm. injection Hn as ->. injection He as ->. injection Hm as ->.
  assert (Hcond : negb (JsString.truthy (JsString.trim (value n)))
                  || negb (JsString.truthy (JsString.trim (value e)))
                  || negb (JsString.truthy (JsString.trim (value m))) = true).
  { destruct Hblank as [H|[H|H]]; apply trim_nil_iff in H; rewrite H; cbn;
      rewrite ?orb_true_r; reflexivity. }
  match goal with |- submit r ?x = Js.Ok Finished ?y =>
    assert (Hbegin : submit_begin x = Js.Ok Finished y) end.
  { unfold submit_begin.
    rewrite (submit_begin_reads _ st n e m) by reflexivity.
    rewrite Hcond.
    rewrite (show_status_then _ _ _ _ (mkStatus (lit "") (color st))) by reflexivity.
    reflexivity. }
  unfold submit. now rewrite (bind_ok _ _ _ _ _ Hbegin).
Qed.

Lemma blank_field_blocks_submission_witness :
  submit (Response true Json.Null) Pages.blank_name =
    Js.Ok Finished (set_status (mkStatus msg_complete (lit "tomato")) Pages.blank_name).
Proof.
  apply (blank_field_blocks_submission Pages.blank_name
           (mkField (lit "   ") (lit "")) (mkField (lit "ann@example.org") (lit ""))
           (mkField (lit "Hello") (lit "")) (Response true Json.Null));
    try reflexivity.
  left. repeat constructor.
Defined.

(** When the form does not post to Formspree, a submission that passes
    the two checks opens the mail draft, and it is the very link that the
    mail-fallback control composes from the same values (lines 216-221
    and 165-172); the status region is left empty. *)
Theorem plain_submission_opens_draft
    (s : State) (st : Status) (n e m : Field) (r : fetchResult) :
  wired s = true -> remote_configured s = false -> status s = Some st ->
  nameField s = Some n -> emailField s = Some e -> messageField s = Some m ->
  JsString.trim (value n) <> [] -> JsString.trim (value m) <> [] ->
  email_shape (JsString.trim (value e)) ->
  JsString.isWellFormed (JsString.trim (value n)) = true ->
  JsString.isWellFormed (JsString.trim (value e)) = true ->
  JsString.isWellFormed (JsString.trim (value m)) = true ->
  exists link,
    submit r s =
      Js.Ok Finished (set_href link (set_status (mkStatus (lit "") (color st)) s)) /\
    mail_fallback_click s = Js.Ok tt (set_href link s).
Proof.
  intros Hw Hr Hst Hn He Hm Nn Nm Hshape Wn We Wm.
  pose proof (valid_of_shape s n e m Hn He Hm Nn Nm Hshape) as Hv.
  destruct (draft_encodable _ _ _ Wn We Wm) as (subject & body & Hs & Hb).
  assert (Hname : JsString.or_else (JsString.trim (value n)) (lit "Website")
                  = JsString.trim (value n)).
  { unfold JsString.or_else. now rewrite (truthy_nonempty _ Nn). }
  rewrite Hname in Hs.
  exists (mailto subject body). split.
  - apply wired_inv in Hw as (a & st' & n' & e' & m' & h & ->).
    cbn in Hst, Hn, He, Hm.
    injection Hst as ->. injection Hn as ->. injection He as ->. injection Hm as ->.
    unfold valid, remote_configured in Hv, Hr. cbn in Hv, Hr.
    apply andb_true_iff in Hv as [Hv Hre].
    apply andb_true_iff in Hv as [Hv Tm].
    apply andb_true_iff in Hv as [Tn Te].
    match goal with |- submit r ?x = Js.Ok Finished ?y =>
      assert (Hbegin : submit_begin x = Js.Ok Finished y) end.
    { unfold submit_begin.
      rewrite (submit_begin_reads _ st n e m) by reflexivity.
      rewrite Tn, Te, Tm, Hre. cbn [negb orb].
      rewrite (bind_ok _ _ _ _ a) by (apply deref_some; reflexivity).
      cbv zeta. rewrite Hr.
      erewrite bind_ok by (apply encode_some; exact Hs).
      erewrite bind_ok by (apply encode_some; exact Hb).
      reflexivity. }
    unfold submit. now rewrite (bind_ok _ _ _ _ _ Hbegin).
  - unfold mail_fallback_click.
    erewrite bind_ok by (apply trimmed_some; exact Hn).
    erewrite bind_ok by (apply trimmed_some; exact He).
    erewrite bind_ok by (apply trimmed_some; exact Hm).
    rewrite Hname.
    erewrite bind_ok by (apply encode_some; exact Hs).
    erewrite bind_ok by (apply encode_some; exact Hb).
    reflexivity.
Qed.

Lemma plain_submission_opens_draft_witness :
  exists link,
    submit Rejected Pages.plain_form =
      Js.Ok Finished
            (set_href link (set_status (mkStatus (lit "") (lit "")) Pages.plain_form)) /\
    mail_fallback_click Pages.plain_form = Js.Ok tt (set_href link Pages.plain_form).
Proof.
  apply (plain_submission_opens_draft Pages.plain_form
           (mkStatus (lit "old") (lit ""))
           (mkField (lit " Ann ") (lit "")) (mkField (lit "ann@example.org") (lit ""))
           (mkField (lit "Hello & bye?") (lit "")) Rejected);
    try reflexivity; try (vm_compute; discriminate).
  apply emailPattern_shape. vm_compute. reflexivity.
Defined.

(** A string without unpaired surrogate is its own scalar-value string. *)
Lemma toWellFormed_upto (k : nat) :
  forall s, length s <= k -> JsString.isWellFormed s = true ->
    JsString.toWellFormed s = s.
Proof.
  induction k as [|k IH]; intros s Hlen Hwf.
  - destruct s; [reflexivity | simpl in Hlen; lia].
  - destruct s as [|c rest]; [reflexivity|].
    cbn [JsString.isWellFormed JsString.toWellFormed] in *.
    destruct (JsString.isHighSurrogate c).
    + destruct rest as [|d rest']; [discriminate|].
      apply andb_true_iff in Hwf as [Hd Hwf]. rewrite Hd.
      rewrite IH; [reflexivity | simpl in Hlen; lia | exact Hwf].
    + apply andb_true_iff in Hwf as [Hc Hwf]. apply negb_true_iff in Hc. rewrite Hc.
      rewrite IH; [reflexivity | simpl in Hlen; lia | exact Hwf].
Qed.

Lemma toWellFormed_id (s : jsstring) :
  JsString.isWellFormed s = true -> JsString.toWellFormed s = s.
Proof. apply (toWellFormed_upto (length s)). lia. Qed.

(** When the form posts to Formspree, a submission that passes the two
    checks reaches [fetch] with the form's action as address and a
    [FormData] that holds the three values untrimmed, each as a
    scalar-value string: exactly as the control holds it when it has no
    unpaired surrogate.  Meanwhile the status region says "Sending..."
    and neither the controls nor the location change (lines 196-202). *)
Theorem remote_submission_in_flight (s : State) (n e m : Field) :
  wired s = true -> remote_configured s = true ->
  nameField s = Some n -> emailField s = Some e -> messageField s = Some m ->
  JsString.trim (value n) <> [] -> JsString.trim (value m) <> [] ->
  email_shape (JsString.trim (value e)) ->
  exists action data,
    form s = Some action /\
    submit_begin s =
      Js.Ok (Awaiting (mkRequest (JsString.or_default action (lit "")) data))
            (set_status (mkStatus (lit "Sending...") (lit "var(--muted)")) s) /\
    data = (JsString.toWellFormed (value n), JsString.toWellFormed (value e),
            JsString.toWellFormed (value m)) /\
    (JsString.isWellFormed (value n) = true ->
     JsString.isWellFormed (value e) = true ->
     JsString.isWellFormed (value m) = true ->
     data = (value n, value e, value m)).
Proof.
  intros Hw Hr Hn He Hm Nn Nm Hshape.
  pose proof (valid_of_shape s n e m Hn He Hm Nn Nm Hshape) as Hv.
  destruct (submit_begin_awaits s Hw Hv Hr)
    as (a & n' & e' & m' & st & Ha & Hn' & He' & Hm' & _ & Hbegin).
  rewrite Hn in Hn'. rewrite He in He'. rewrite Hm in Hm'.
  injection Hn' as <-. injection He' as <-. injection Hm' as <-.
  exists a. eexists. split; [exact Ha|]. split; [exact Hbegin|].
  split; [reflexivity|].
  intros Wn We Wm. now rewrite !toWellFormed_id.
Qed.

Lemma remote_submission_in_flight_witness :
  exists action,
    form Pages.remote_form = Some action /\
    submit_begin Pages.remote_form =
      Js.Ok (Awaiting (mkRequest (JsString.or_default action (lit ""))
                                 (lit "Ann", lit "ann@example.org", lit "  Hello  ")))
            (set_status (mkStatus (lit "Sending...") (lit "var(--muted)"))
                        Pages.remote_form).
Proof.
  destruct (remote_submission_in_flight Pages.remote_form
              (mkField (lit "Ann") (lit "")) (mkField (lit "ann@example.org") (lit ""))
              (mkField (lit "  Hello  ") (lit "")) eq_refl eq_refl eq_refl eq_refl eq_refl)
    as (action & data & Hform & Hbegin & _ & Hdata).
  - vm_compute. discriminate.
  - vm_compute. discriminate.
  - apply emailPattern_shape. vm_compute. reflexivity.
  - exists action. split; [exact Hform|].
    rewrite Hbegin, Hdata; reflexivity.
Defined.

Lemma or_default_empty (attr : option jsstring) :
  JsString.or_default attr (lit "") =
    match attr with Some action => action | None => [] end.
Proof. destruct attr as [[|c action]|]; reflexivity. Qed.

Lemma remote_configured_spec (s : State) (attr : option jsstring) :
  form s = Some attr ->
  remote_configured s = true <->
  exists action before after,
    attr = Some action /\ action = before ++ lit "formspree.io" ++ after.
Proof.
  intros Hf. unfold remote_configured. rewrite Hf, or_default_empty, includes_spec.
  destruct attr as [action|].
  - split.
    + intros (a & b & ->). eauto.
    + intros (action' & a & b & Heq & ->). injection Heq as ->. eauto.
  - split.
    + intros (a & b & H). destruct a; discriminate.
    + intros (action & a & b & Heq & _). discriminate.
Qed.

(** On a form that does not pass the test of line 197 a submission that
    passes both checks never gets to [fetch]: the handler ends, or
    [encodeURIComponent] throws. *)
Lemma submit_begin_plain (s : State) (req : Request) (s' : State) :
  wired s = true -> valid s = true -> remote_configured s = false ->
  submit_begin s <> Js.Ok (Awaiting req) s'.
Proof.
  intros Hw Hv Hr. apply wired_inv in Hw as (a & st & n & e & m & h & ->).
  unfold valid, remote_configured in *; simpl in Hv, Hr.
  apply andb_true_iff in Hv as [Hv Hre].
  apply andb_true_iff in Hv as [Hv Hm].
  apply andb_true_iff in Hv as [Hn He].
  unfold submit_begin.
  rewrite (submit_begin_reads _ st n e m) by reflexivity.
  rewrite Hn, He, Hm, Hre. cbn [negb orb].
  rewrite (bind_ok _ _ _ _ a) by (apply deref_some; reflexivity).
  cbv zeta. rewrite Hr.
  unfold Js.bind at 1, encode at 1.
  destruct (JsString.encodeURIComponent _); [|discriminate].
  cbn [Js.ret]. unfold Js.bind at 1, encode at 1.
  destruct (JsString.encodeURIComponent _); discriminate.
Qed.

(** A submission that passes both checks gets to [fetch] exactly when the
    form has an [action] attribute in which the text [formspree.io]
    occurs somewhere, be it in the host, in the path or in the query
    (lines 196-202); with any other address, and without the attribute,
    the handler never calls [fetch]. *)
Theorem endpoint_recognised_anywhere (s : State) (attr : option jsstring) :
  wired s = true -> valid s = true -> form s = Some attr ->
  (exists req s', submit_begin s = Js.Ok (Awaiting req) s') <->
  exists action before after,
    attr = Some action /\ action = before ++ lit "formspree.io" ++ after.
Proof.
  intros Hw Hv Hf. rewrite <- (remote_configured_spec s attr Hf). split.
  - intros (req & s' & Hbegin).
    destruct (remote_configured s) eqn:Hr; [reflexivity|].
    now destruct (submit_begin_plain s req s' Hw Hv Hr).
  - intros Hr.
    destruct (submit_begin_awaits s Hw Hv Hr)
      as (a & n & e & m & st & _ & _ & _ & _ & _ & Hbegin).
    eauto.
Qed.

Lemma endpoint_recognised_anywhere_witness :
  (exists req s', submit_begin Contact.filled = Js.Ok (Awaiting req) s') /\
  ~ (exists req s', submit_begin Contact.own_endpoint = Js.Ok (Awaiting req) s').
Proof.
  split.
  - apply (endpoint_recognised_anywhere Contact.filled
             (Some (lit "https://formspree.io/f/xyzabcde")) eq_refl eq_refl eq_refl).
    exists (lit "https://formspree.io/f/xyzabcde"), (lit "https://"), (lit "/f/xyzabcde").
    split; reflexivity.
  - intros Hfetch.
    apply (endpoint_recognised_anywhere Contact.own_endpoint
             (Some (lit "https://api.example.com/contact")) eq_refl eq_refl eq_refl)
      in Hfetch.
    destruct Hfetch as (action & before & after & Haction & Hsplit).
    injection Haction as <-.
    assert (Hin : JsString.includes (lit "https://api.example.com/contact")
                                    (lit "formspree.io") = true)
      by (apply includes_spec; eauto).
    vm_compute in Hin. discriminate Hin.
Defined.

(** Whatever the visitor types, the subject and the body that the
    mail-fallback control puts into the link consist of unreserved
    characters and [%XX] escapes only: a typed [&], [?], [=], [#], blank
    or line break cannot add to or cut short the parameters of the
    [mailto:] link (lines 169-171). *)
Theorem mail_fallback_link_escaped (s s' : State) (n e m : Field) :
  nameField s = Some n -> emailField s = Some e -> messageField s = Some m ->
  Uri.codeUnits (value n) = true -> Uri.codeUnits (value e) = true ->
  Uri.codeUnits (value m) = true ->
  mail_fallback_click s = Js.Ok tt s' ->
  exists subject body,
    href s' = mailto subject body /\
    Uri.escaped subject = true /\ Uri.escaped body = true.
Proof.
  intros Hn He Hm Un Ue Um.
  apply codeUnits_trim in Un, Ue, Um.
  unfold mail_fallback_click.
  erewrite bind_ok by (apply trimmed_some; exact Hn).
  erewrite bind_ok by (apply trimmed_some; exact He).
  erewrite bind_ok by (apply trimmed_some; exact Hm).
  set (subj := lit "Contact from " ++ _).
  set (bod := draft_body _ _ _).
  assert (Usubj : Uri.codeUnits subj = true).
  { unfold subj, JsString.or_else. rewrite codeUnits_app.
    destruct (JsString.truthy _); [now rewrite Un | reflexivity]. }
  assert (Ubod : Uri.codeUnits bod = true).
  { unfold bod, draft_body. rewrite !codeUnits_app, Un, Ue, Um. reflexivity. }
  destruct (JsString.encodeURIComponent subj) as [subject|] eqn:Es.
  - erewrite bind_ok by (apply encode_some; exact Es).
    destruct (JsString.encodeURIComponent bod) as [body|] eqn:Eb.
    + erewrite bind_ok by (apply encode_some; exact Eb).
      unfold Js.modify. intros H. injection H as <-.
      exists subject, body. split; [reflexivity|].
      split; [exact (encodeURIComponent_escaped _ _ Usubj Es)
             | exact (encodeURIComponent_escaped _ _ Ubod Eb)].
    + erewrite bind_throw by (apply encode_none; exact Eb). discriminate.
  - erewrite bind_throw by (apply encode_none; exact Es). discriminate.
Qed.

Lemma mail_fallback_link_escaped_witness :
  exists subject body,
    href (Js.final (mail_fallback_click Pages.plain_form)) = mailto subject body /\
    Uri.escaped subject = true /\ Uri.escaped body = true.
Proof.
  apply (mail_fallback_link_escaped Pages.plain_form
           (Js.final (mail_fallback_click Pages.plain_form))
           (mkField (lit " Ann ") (lit "")) (mkField (lit "ann@example.org") (lit ""))
           (mkField (lit "Hello & bye?") (lit "")));
    vm_compute; reflexivity.
Defined.

End MoreContactFacts.

(* ===================================================================== *)
(** * More about the navigation                                           *)
(* ===================================================================== *)

Section MoreNavFacts.

Import Nav.

(** Two clicks on the toggle bring the page back: the attribute to the
    value it had, the panel to the display it had (lines 17-25). *)
Theorem toggle_twice_restores (s : State) (b : bool) (d : jsstring) :
  navToggle s = Some (Some (ofBool b)) -> nav s = Some d ->
  d = lit "" \/ d = lit "block" ->
  run [ToggleClick; ToggleClick] s = s.
Proof.
  intros Ha Hd Hdisplay. cbn [run fold_left handle].
  rewrite (toggle_click_wired s _ d Ha Hd). cbn [Js.final].
  erewrite toggle_click_wired by reflexivity. cbn [Js.final innerWidth].
  destruct s as [t n w]. cbn in Ha, Hd. subst t n.
  destruct b, Hdisplay as [-> | ->]; reflexivity.
Qed.

Lemma toggle_twice_restores_witness :
  run [ToggleClick; ToggleClick] sample = sample.
Proof.
  apply (toggle_twice_restores sample false (lit "")); [reflexivity | reflexivity|].
  left. reflexivity.
Defined.

(** A click on a link of the panel (lines 29-34): on a viewport wider
    than 980 px it does nothing, whether the panel and the toggle exist
    or not; on a narrower one it leaves the panel without the inline
    display ['block']: if the panel had it, the display is emptied and
    [aria-expanded] is set to ['false'], and if not, nothing changes. *)
Theorem link_click_collapses (s : State) :
  ((980 < innerWidth s)%Z -> link_click s = Js.Ok tt s) /\
  (forall a d,
     navToggle s = Some a -> nav s = Some d -> (innerWidth s <= 980)%Z ->
     exists s',
       link_click s = Js.Ok tt s' /\
       shown s' = false /\
       (shown s = true ->
        s' = mkState (Some (Some (lit "false"))) (Some (lit "")) (innerWidth s)) /\
       (shown s = false -> s' = s)).
Proof.
  split.
  - intros Hw. unfold link_click, Js.bind, Js.gets.
    apply Z.leb_gt in Hw. now rewrite Hw.
  - intros a d Ha Hd Hw. rewrite (link_click_wired s a d Ha Hd).
    apply Z.leb_le in Hw. rewrite Hw. cbn [andb].
    unfold shown. rewrite Hd.
    destruct (bool_decide (d = lit "block")) eqn:Hb.
    + eexists. split; [reflexivity|]. cbn.
      apply bool_decide_eq_true in Hb. subst d.
      repeat split; try reflexivity. discriminate.
    + exists s. split; [reflexivity|].
      apply bool_decide_eq_false in Hb.
      split; [apply bool_decide_eq_false_2; congruence|].
      split; [|reflexivity].
      intros H. apply bool_decide_eq_true in H. congruence.
Qed.

Lemma link_click_collapses_witness :
  link_click (mkState None None 1280) = Js.Ok tt (mkState None None 1280) /\
  exists s',
    link_click (Js.final (toggle_click sample)) = Js.Ok tt s' /\
    shown s' = false /\
    s' = mkState (Some (Some (lit "false"))) (Some (lit "")) 390.
Proof.
  split.
  - apply (proj1 (link_click_collapses (mkState None None 1280))). reflexivity.
  - destruct (proj2 (link_click_collapses (Js.final (toggle_click sample)))
                (Some (lit "true")) (lit "block") eq_refl eq_refl)
      as (s' & Hrun & Hshown & Hexp & _).
    + vm_compute. discriminate.
    + exists s'. split; [exact Hrun|]. split; [exact Hshown|].
      apply Hexp. reflexivity.
Defined.

End MoreNavFacts.

(* ===================================================================== *)
(** * More about the modal                                                *)
(* ===================================================================== *)

Section MoreModalFacts.

Import Modal.

Lemma focus_keeps (el : element) (s : State) :
  modal (Js.final (focus el s)) = modal s /\
  bodyOverflow (Js.final (focus el s)) = bodyOverflow s.
Proof.
  destruct s as [m t d img cl f act last ov].
  unfold focus, Js.bind, Js.gets, Js.when; cbn. destruct (f el); cbn; auto.
Qed.

Lemma focus_close_keeps (s : State) :
  modal (Js.final (focus_close s)) = modal s /\
  bodyOverflow (Js.final (focus_close s)) = bodyOverflow s.
Proof.
  unfold focus_close, Js.bind, Js.gets. destruct (modalClose s).
  - apply focus_keeps.
  - cbn. auto.
Qed.

Lemma open_project_click_wired (d : Content) (s : State) (img : Image) :
  wired s = true -> modalImage s = Some img ->
  open_project_click d s =
    Js.Ok tt (mkState (Some (Some (lit "false")))
                      (Some (JsString.or_default (title d) (lit "")))
                      (Some (JsString.or_default (desc d) (lit "")))
                      (Some (image_after
                               (mkContent (Some (JsString.or_default (title d) (lit "")))
                                          (Some (JsString.or_default (desc d) (lit "")))
                                          (Some (JsString.or_default (image d) (lit ""))))
                               img))
                      true (focusable s) (focus_after s CloseButton)
                      (activeElement s) (lit "hidden")).
Proof.
  intros Hw Himg. unfold open_project_click.
  now rewrite (openModal_wired _ s img Hw Himg).
Qed.

Lemma handle_lock (e : event) (s : State) :
  wired s = true ->
  (modal s = Some (Some (lit "false")) <-> bodyOverflow s = lit "hidden") ->
  wired (Js.final (handle e s)) = true /\
  (modal (Js.final (handle e s)) = Some (Some (lit "false")) <->
   bodyOverflow (Js.final (handle e s)) = lit "hidden").
Proof.
  intros Hw Hlock.
  assert (Hclosed : wired (Js.final (closeModal s)) = true /\
            (modal (Js.final (closeModal s)) = Some (Some (lit "false")) <->
             bodyOverflow (Js.final (closeModal s)) = lit "hidden")).
  { destruct (modal_wired_inv s Hw) as (a & t & d & img & f & act & last & ov & ->).
    erewrite closeModal_present by reflexivity. cbn. split; [reflexivity|].
    split; discriminate. }
  destruct e as [d| |b|k sh|el|can]; cbn [handle].
  - destruct (modal_wired_inv s Hw) as (a & t & d0 & img & f & act & last & ov & Hs).
    assert (Himg : modalImage s = Some img) by now rewrite Hs.
    rewrite (open_project_click_wired d s img Hw Himg). cbn.
    split; [reflexivity|]. split; reflexivity.
  - exact Hclosed.
  - destruct b; [exact Hclosed | cbn; auto].
  - unfold Js.bind. rewrite keydown_cases.
    destruct (bool_decide (k = lit "Escape")).
    + destruct (modal s) as [a|] eqn:Hm; [|cbn; rewrite Hm; auto].
      destruct (bool_decide (a = Some (lit "false"))); [|cbn; rewrite Hm; auto].
      unfold Js.bind. destruct (closeModal s); exact Hclosed.
    + destruct (bool_decide (k = lit "Tab")); [|cbn; auto].
      destruct (modal s) as [a|] eqn:Hm; [|cbn; rewrite Hm; auto].
      destruct (bool_decide (a = Some (lit "false"))); [|cbn; rewrite Hm; auto].
      destruct (close_has_focus s && negb sh); [|cbn; rewrite Hm; auto].
      pose proof (focus_close_keeps s) as [Hk1 Hk2].
      pose proof (focus_close_fixed s) as [Hf _].
      unfold Js.bind. destruct (focus_close s) as [[] s'|err s']; cbn in *;
        (split; [apply (wired_fixed s); [exact Hf | rewrite Hk1, Hm; eauto | exact Hw]
                | rewrite Hk1, Hk2, Hm; exact Hlock]).
  - destruct (modal_wired_inv s Hw) as (a & t & d & img & f & act & last & ov & ->).
    cbn in *. auto.
  - destruct (modal_wired_inv s Hw) as (a & t & d & img & f & act & last & ov & ->).
    cbn in *. auto.
Qed.

(** The scrolling of the page is blocked exactly while the modal is open,
    and this holds after any sequence of clicks, key presses and changes
    of focus on a page that has the modal's elements (lines 108-117,
    121-146). *)
Theorem scroll_lock_follows_modal (s : State) (es : list event) :
  wired s = true ->
  (modal s = Some (Some (lit "false")) <-> bodyOverflow s = lit "hidden") ->
  modal (run es s) = Some (Some (lit "false")) <-> bodyOverflow (run es s) = lit "hidden".
Proof.
  revert s. induction es as [|e es IH]; intros s Hw Hlock; [exact Hlock|].
  cbn [run fold_left]. destruct (handle_lock e s Hw Hlock) as [Hw' Hlock'].
  apply (IH _ Hw' Hlock').
Qed.

Lemma scroll_lock_follows_modal_witness :
  modal (run [OpenProject compiler; Keydown (lit "Tab") false; Keydown (lit "Escape") false;
              OpenProject notes; ModalClick false] sample) = Some (Some (lit "false")) <->
  bodyOverflow (run [OpenProject compiler; Keydown (lit "Tab") false;
                     Keydown (lit "Escape") false; OpenProject notes; ModalClick false]
                    sample) = lit "hidden".
Proof.
  apply (scroll_lock_follows_modal sample); [reflexivity|].
  split; discriminate.
Defined.

(** Closing a modal that is closed already changes nothing (lines 114-118). *)
Theorem closeModal_twice (s : State) (a : option jsstring) :
  modal s = Some a ->
  exists s', closeModal s = Js.Ok tt s' /\ closeModal s' = Js.Ok tt s'.
Proof.
  intros Hm. eexists. split; [apply (closeModal_present s a Hm)|].
  erewrite closeModal_present by reflexivity. cbn.
  destruct s as [m t d img cl f act last ov]. cbn.
  destruct last as [el|]; [|reflexivity].
  unfold focus_after. cbn. destruct (f el) eqn:Hf; cbn; rewrite ?Hf; reflexivity.
Qed.

Lemma closeModal_twice_witness :
  exists s', closeModal sample_open = Js.Ok tt s' /\ closeModal s' = Js.Ok tt s'.
Proof.
  apply (closeModal_twice sample_open (Some (lit "false"))). reflexivity.
Defined.

(** Opening a second project while the modal is open forgets where the
    focus came from: [lastFocused] is overwritten with the close control,
    so closing leaves the focus on the close control instead of the
    element that had it before the first open (lines 98 and 116). *)
Theorem reopening_forgets_focus (s : State) (c1 c2 : Content) (el : element) :
  wired s = true -> has_focus s el = true -> focusable s CloseButton = true ->
  exists s1 s2 s3,
    openModal c1 s = Js.Ok tt s1 /\
    openModal c2 s1 = Js.Ok tt s2 /\
    closeModal s2 = Js.Ok tt s3 /\
    lastFocused s1 = Some el /\
    lastFocused s2 = Some CloseButton /\
    activeElement s3 = Some CloseButton.
Proof.
  intros Hw Hfocus Hclose.
  apply andb_true_iff in Hfocus as [Hact _]. apply bool_decide_eq_true in Hact.
  destruct (modal_wired_inv s Hw) as (a & t & d & img & f & act & last & ov & ->).
  cbn in Hact, Hclose. subst act.
  eexists. eexists. eexists.
  split; [apply (openModal_wired c1 _ img); reflexivity|].
  split; [eapply openModal_wired; reflexivity|].
  split; [eapply closeModal_present; reflexivity|].
  cbn. unfold focus_after. cbn. rewrite Hclose. cbn. rewrite Hclose. auto.
Qed.

Lemma reopening_forgets_focus_witness :
  exists s1 s2 s3,
    openModal compiler sample = Js.Ok tt s1 /\
    openModal notes s1 = Js.Ok tt s2 /\
    closeModal s2 = Js.Ok tt s3 /\
    lastFocused s1 = Some (OpenButton 0) /\
    lastFocused s2 = Some CloseButton /\
    activeElement s3 = Some CloseButton.
Proof.
  apply (reopening_forgets_focus sample compiler notes (OpenButton 0)); reflexivity.
Defined.

(** Enter on a project card is a click on the card's [.open-project]
    button: the modal shows the button's [data-title] and [data-desc]
    (empty when the attribute is missing), and closing it gives the focus
    back to the element that had it when Enter was pressed.  Any other
    key, and Enter on a card without such a button, changes nothing
    (lines 151-156 with 121-126). *)
Theorem enter_on_card_opens_project
    (s : State) (key : jsstring) (d : Content) (el : element) :
  wired s = true -> has_focus s el = true ->
  (exists s1 s2,
     Cards.card_keydown (lit "Enter") (Some d) s = Js.Ok tt s1 /\
     modalTitle s1 = Some (JsString.or_default (title d) (lit "")) /\
     modalDesc s1 = Some (JsString.or_default (desc d) (lit "")) /\
     modal s1 = Some (Some (lit "false")) /\
     closeModal s1 = Js.Ok tt s2 /\
     has_focus s2 el = true) /\
  Cards.card_keydown (lit "Enter") None s = Js.Ok tt s /\
  (key <> lit "Enter" -> Cards.card_keydown key (Some d) s = Js.Ok tt s).
Proof.
  intros Hw Hfocus. split; [|split].
  - apply andb_true_iff in Hfocus as [Hact Hfoc]. apply bool_decide_eq_true in Hact.
    destruct (modal_wired_inv s Hw) as (a & t & d0 & img & f & act & last & ov & Hs).
    assert (Himg : modalImage s = Some img) by now rewrite Hs.
    unfold Cards.card_keydown. cbn [bool_decide decide_rel]. 
    rewrite bool_decide_eq_true_2 by reflexivity. unfold Js.modify.
    rewrite (open_project_click_wired d s img Hw Himg). cbn [Js.final].
    eexists. eexists. split; [reflexivity|].
    split; [reflexivity|]. split; [reflexivity|]. split; [reflexivity|].
    split; [eapply closeModal_present; reflexivity|].
    unfold has_focus. cbn. rewrite Hact. unfold focus_after. cbn.
    rewrite Hfoc. now rewrite bool_decide_eq_true_2.
  - reflexivity.
  - intros Hkey. unfold Cards.card_keydown.
    now rewrite bool_decide_eq_false_2.
Qed.

Lemma enter_on_card_opens_project_witness :
  (exists s1 s2,
     Cards.card_keydown (lit "Enter") (Some (mkContent (Some (lit "Compiler")) None None))
                        sample = Js.Ok tt s1 /\
     modalTitle s1 = Some (lit "Compiler") /\
     modalDesc s1 = Some (lit "") /\
     modal s1 = Some (Some (lit "false")) /\
     closeModal s1 = Js.Ok tt s2 /\
     has_focus s2 (OpenButton 0) = true) /\
  Cards.card_keydown (lit "Enter") None sample = Js.Ok tt sample /\
  Cards.card_keydown (lit "Tab") (Some (mkContent (Some (lit "Compiler")) None None))
                     sample = Js.Ok tt sample.
Proof.
  destruct (enter_on_card_opens_project sample (lit "Tab")
              (mkContent (Some (lit "Compiler")) None None) (OpenButton 0)
              eq_refl eq_refl) as (Hopen & Hnone & Hother).
  split; [exact Hopen|]. split; [exact Hnone|].
  apply Hother. vm_compute. discriminate.
Defined.

End MoreModalFacts.

(* ===================================================================== *)
(** * More about the project filter                                       *)
(* ===================================================================== *)

Section MoreFilterFacts.

Import Filter.

Lemma alter_category (f : Card -> Card) (i : nat) (ps : list Card) :
  (forall p, category (f p) = category p) ->
  category <$> alter f i ps = category <$> ps.
Proof.
  intros Hf. apply list_eq. intros j.
  rewrite !list_lookup_fmap, list_lookup_alter.
  destruct (decide (i = j)) as [->|]; [|reflexivity].
  destruct (ps !! j); cbn; [now rewrite Hf | reflexivity].
Qed.

(** What the handlers never write: the categories of the cards, and the
    buttons (their classes change on a click only). *)
Lemma style_keeps (f : Card -> Card) (i : nat) (s : State) :
  (forall p, category (f p) = category p) ->
  category <$> projects (style f i s) = category <$> projects s /\
  filterButtons (style f i s) = filterButtons s.
Proof. intros Hf. unfold style. cbn. split; [now apply alter_category | reflexivity]. Qed.

Lemma fold_left_keeps {A B} (g : State -> A -> State) (obs : State -> B) :
  (forall s x, obs (g s x) = obs s) ->
  forall l s, obs (fold_left g l s) = obs s.
Proof.
  intros Hg l. induction l as [|x l IH]; intros s; [reflexivity|].
  cbn. now rewrite IH, Hg.
Qed.

Lemma visit_keeps (filter : option jsstring) (s : State) (i : nat) :
  (category <$> projects (visit filter s i), filterButtons (visit filter s i))
  = (category <$> projects s, filterButtons s).
Proof.
  unfold visit. destruct (projects s !! i) as [p|]; [|reflexivity].
  destruct (selects filter p); cbn; now rewrite alter_category.
Qed.

Lemma applyFilter_keeps (filter : option jsstring) (s : State) :
  (category <$> projects (applyFilter filter s), filterButtons (applyFilter filter s))
  = (category <$> projects s, filterButtons s).
Proof.
  unfold applyFilter.
  apply (fold_left_keeps (visit filter)
           (fun s => (category <$> projects s, filterButtons s))).
  intros s0 i. apply visit_keeps.
Qed.

Lemma frame_keeps (s : State) :
  (category <$> projects (frame s), filterButtons (frame s))
  = (category <$> projects s, filterButtons s).
Proof.
  unfold frame.
  rewrite (fold_left_keeps run_callback
             (fun s => (category <$> projects s, filterButtons s))); [reflexivity|].
  intros s0 [i|]; cbn [run_callback].
  - destruct (style_keeps (set_opacity (lit "1")) i s0 (fun _ => eq_refl)) as [-> ->].
    reflexivity.
  - apply (fold_left_keeps start_card
             (fun s => (category <$> projects s, filterButtons s))).
    intros s1 i. unfold start_card.
    destruct (style_keeps (set_opacity (lit "1")) i
                (style (set_transitionDelay
                          (JsString.ofNat (N.of_nat i * 45) ++ lit "ms")) i s1)
                (fun _ => eq_refl)) as [-> ->].
    destruct (style_keeps (set_transitionDelay
                             (JsString.ofNat (N.of_nat i * 45) ++ lit "ms")) i s1
                (fun _ => eq_refl)) as [-> ->].
    reflexivity.
Qed.

Lemma elapse_keeps (dt : N) (s : State) :
  (category <$> projects (elapse dt s), filterButtons (elapse dt s))
  = (category <$> projects s, filterButtons s).
Proof.
  unfold elapse.
  rewrite (fold_left_keeps (fun s tm => style (set_display (lit "none")) tm.2 s)
             (fun s => (category <$> projects s, filterButtons s))); [reflexivity|].
  intros s0 tm.
  destruct (style_keeps (set_display (lit "none")) tm.2 s0 (fun _ => eq_refl)) as [-> ->].
  reflexivity.
Qed.

Lemma step_keeps (e : event) (s : State) :
  (category <$> projects (step s e), dataFilter <$> filterButtons (step s e))
  = (category <$> projects s, dataFilter <$> filterButtons s).
Proof.
  destruct e as [i| |dt]; cbn [step].
  - unfold filter_click. destruct (filterButtons s !! i) as [btn|]; [|reflexivity].
    pose proof (applyFilter_keeps (dataFilter btn)
      (set_filterButtons
         (alter (fun b => mkButton (dataFilter b) true) i
                ((fun b => mkButton (dataFilter b) false) <$> filterButtons s)) s)) as H.
    injection H as Hc Hb. rewrite Hc, Hb. cbn. f_equal.
    apply list_eq. intros j.
    rewrite list_lookup_fmap, list_lookup_alter.
    destruct (decide (i = j)) as [->|]; rewrite !list_lookup_fmap;
      destruct (filterButtons s !! j); reflexivity.
  - pose proof (frame_keeps s) as H. injection H as -> ->. reflexivity.
  - pose proof (elapse_keeps dt s) as H. injection H as -> ->. reflexivity.
Qed.

Lemma run_keeps (es : list event) (s : State) :
  (category <$> projects (run es s), dataFilter <$> filterButtons (run es s))
  = (category <$> projects s, dataFilter <$> filterButtons s).
Proof.
  unfold run.
  apply (fold_left_keeps step
           (fun s => (category <$> projects s, dataFilter <$> filterButtons s))).
  intros s0 e. apply step_keeps.
Qed.

Lemma run_keeps_lookups (es : list event) (s : State) :
  (forall i p, projects s !! i = Some p ->
     exists p', projects (run es s) !! i = Some p' /\ category p' = category p) /\
  (forall j b, filterButtons s !! j = Some b ->
     exists b', filterButtons (run es s) !! j = Some b' /\ dataFilter b' = dataFilter b).
Proof.
  pose proof (run_keeps es s) as H. injection H as Hc Hb. split.
  - intros i p Hp. apply (f_equal (fun l => l !! i)) in Hc.
    rewrite !list_lookup_fmap, Hp in Hc.
    destruct (projects (run es s) !! i) as [p'|]; [|discriminate].
    injection Hc as Hc. eauto.
  - intros j b Hj. apply (f_equal (fun l => l !! j)) in Hb.
    rewrite !list_lookup_fmap, Hj in Hb.
    destruct (filterButtons (run es s) !! j) as [b'|]; [|discriminate].
    injection Hb as Hb. eauto.
Qed.

(** Whatever the visitor does and however time passes, the page keeps the
    same cards with the same categories and the same filter buttons with
    the same [data-filter]: the handlers write styles and classes only
    (lines 68-87, 225-233). *)
Theorem run_keeps_cards_and_filters (es : list event) (s : State) :
  length (projects (run es s)) = length (projects s) /\
  length (filterButtons (run es s)) = length (filterButtons s) /\
  (forall i p, projects s !! i = Some p ->
     exists p', projects (run es s) !! i = Some p' /\ category p' = category p) /\
  (forall j b, filterButtons s !! j = Some b ->
     exists b', filterButtons (run es s) !! j = Some b' /\ dataFilter b' = dataFilter b).
Proof.
  pose proof (run_keeps es s) as H. injection H as Hc Hb.
  split; [|split].
  - apply (f_equal length) in Hc. now rewrite !length_fmap in Hc.
  - apply (f_equal length) in Hb. now rewrite !length_fmap in Hb.
  - apply run_keeps_lookups.
Qed.

(** A click on a filter button leaves the class [active] on that button
    and on no other (lines 83-84). *)
Theorem filter_click_marks_one_button (s : State) (i : nat) (btn : Button) :
  filterButtons s !! i = Some btn ->
  forall j b, filterButtons s !! j = Some b ->
    filterButtons (filter_click i s) !! j =
      Some (mkButton (dataFilter b) (bool_decide (j = i))).
Proof.
  intros Hi j b Hj. unfold filter_click. rewrite Hi.
  match goal with |- filterButtons (applyFilter ?f ?x) !! _ = _ =>
    pose proof (applyFilter_keeps f x) as H end.
  injection H as _ Hb. rewrite Hb. cbn.
  rewrite list_lookup_alter.
  destruct (decide (i = j)) as [->|Hne]; rewrite !list_lookup_fmap, Hj; cbn.
  - now rewrite bool_decide_eq_true_2.
  - rewrite bool_decide_eq_false_2; [reflexivity | congruence].
Qed.

Lemma filter_click_marks_one_button_witness :
  filterButtons (filter_click 1 sample) !! 0 = Some (mkButton (Some (lit "all")) false) /\
  filterButtons (filter_click 1 sample) !! 1 = Some (mkButton (Some (lit "web")) true).
Proof.
  split.
  - apply (filter_click_marks_one_button sample 1 (mkButton (Some (lit "web")) false)
             eq_refl 0 (mkButton (Some (lit "all")) true) eq_refl).
  - apply (filter_click_marks_one_button sample 1 (mkButton (Some (lit "web")) false)
             eq_refl 1 (mkButton (Some (lit "web")) false) eq_refl).
Defined.

(** Once a press on a filter button has settled, nothing is pending. *)
Lemma click_round_quiescent (s : State) (b : nat) (btn : Button) (es : list event) :
  quiescent s -> filterButtons s !! b = Some btn ->
  forallb passive es = true -> existsb is_frame es = true -> (180 <= elapsed es)%N ->
  quiescent (run (Click b :: es) s).
Proof.
  intros Hq Hb Hpassive Hframe Hlate.
  cbn [run fold_left step]. unfold filter_click. rewrite Hb.
  match goal with
  | |- context [applyFilter _ ?x] => set (s0 := x)
  end.
  assert (Hq0 : quiescent s0) by exact Hq.
  pose proof (settling_init (dataFilter btn) s0 Hq0) as Hinit.
  destruct (settling_run (dataFilter btn) (projects s0) (now s0) es false _ Hpassive Hinit)
    as [Hs Hn].
  rewrite Hframe in Hs. cbn [orb] in Hs.
  destruct Hs as (_ & _ & _ & Hfr & Hdue).
  split; [exact (Hfr eq_refl)|].
  apply Hdue. fold (run es (applyFilter (dataFilter btn) s0)). rewrite Hn.
  destruct (applyFilter_prefix (dataFilter btn) s0 (length (projects s0)) Hq0 (le_n _))
    as (_ & Hnow & _).
  fold (applyFilter (dataFilter btn) s0) in Hnow. rewrite Hnow. lia.
Qed.

Lemma selects_category (filter : option jsstring) (p p' : Card) :
  category p' = category p -> selects filter p' = selects filter p.
Proof. unfold selects. now intros ->. Qed.

(** Filters pressed one after the other, each given the time to settle,
    leave the cards as the last one wants them: every card it selects is
    shown and every other card is hidden, whatever the earlier filter had
    done to them (lines 68-87). *)
Theorem filters_in_succession
    (s : State) (b1 b2 : nat) (btn1 btn2 : Button) (es1 es2 : list event) :
  quiescent s ->
  filterButtons s !! b1 = Some btn1 -> filterButtons s !! b2 = Some btn2 ->
  forallb passive es1 = true -> existsb is_frame es1 = true -> (180 <= elapsed es1)%N ->
  forallb passive es2 = true -> existsb is_frame es2 = true -> (180 <= elapsed es2)%N ->
  forall i p, projects s !! i = Some p ->
    exists p',
      projects (run (Click b1 :: es1 ++ Click b2 :: es2) s) !! i = Some p' /\
      category p' = category p /\
      if selects (dataFilter btn2) p then shown p' else hidden p'.
Proof.
  intros Hq Hb1 Hb2 P1 F1 L1 P2 F2 L2 i p Hp.
  change (Click b1 :: es1 ++ Click b2 :: es2) with ((Click b1 :: es1) ++ (Click b2 :: es2)).
  unfold run at 1. rewrite fold_left_app.
  fold (run (Click b1 :: es1) s).
  set (s1 := run (Click b1 :: es1) s).
  fold (run (Click b2 :: es2) s1).
  assert (Hq1 : quiescent s1) by (apply (click_round_quiescent s b1 btn1); assumption).
  destruct (run_keeps_lookups (Click b1 :: es1) s) as [Hcards Hbuttons].
  fold s1 in Hcards, Hbuttons.
  pose proof (Hcards i p Hp) as Hp1. pose proof (Hbuttons b2 btn2 Hb2) as Hbtn.
  destruct Hp1 as (p1 & Hp1 & Hcat1). destruct Hbtn as (btn' & Hbtn & Hdata).
  destruct (filter_click_settles s1 b2 btn' es2 Hq1 Hbtn P2 F2 L2 i p1 Hp1)
    as (p' & Hp' & Hcat' & Hend).
  exists p'. split; [exact Hp'|]. split; [congruence|].
  rewrite Hdata, (selects_category _ p p1 Hcat1) in Hend. exact Hend.
Qed.

Lemma filters_in_succession_witness :
  (exists p',
     projects (run (Click 1 :: [Frame; Elapse 200] ++ Click 0 :: [Elapse 180; Frame]) sample)
       !! 1 = Some p' /\
     category p' = category design_card /\ shown p').
Proof.
  apply (filters_in_succession sample 1 0
           (mkButton (Some (lit "web")) false) (mkButton (Some (lit "all")) true)
           [Frame; Elapse 200] [Elapse 180; Frame]
           ltac:(split; reflexivity) eq_refl eq_refl eq_refl eq_refl
           ltac:(vm_compute; discriminate) eq_refl eq_refl
           ltac:(vm_compute; discriminate) 1 design_card eq_refl).
Defined.

(** A filter button without [data-filter], pressed when nothing is
    pending, hides every card once a frame and 180 ms have passed: the
    filter is then [undefined], which no category equals (lines 70-71
    and 85). *)
Theorem unlabelled_filter_hides_every_card
    (s : State) (b : nat) (btn : Button) (es : list event) :
  quiescent s -> filterButtons s !! b = Some btn -> dataFilter btn = None ->
  forallb passive es = true -> existsb is_frame es = true -> (180 <= elapsed es)%N ->
  forall i p, projects s !! i = Some p ->
    exists p', projects (run (Click b :: es) s) !! i = Some p' /\ hidden p'.
Proof.
  intros Hq Hb Hnone Hpassive Hframe Hlate i p Hp.
  destruct (filter_click_settles s b btn es Hq Hb Hpassive Hframe Hlate i p Hp)
    as (p' & Hp' & _ & Hend).
  rewrite Hnone in Hend. exists p'. split; [exact Hp' | exact Hend].
Qed.

Lemma unlabelled_filter_hides_every_card_witness :
  (exists p',
     projects (run (Click 1 :: [Frame; Elapse 180]) Pages.unlabelled_filter) !! 0 = Some p' /\
     hidden p') /\
  (exists p',
     projects (run (Click 1 :: [Frame; Elapse 180]) Pages.unlabelled_filter) !! 1 = Some p' /\
     hidden p').
Proof.
  split.
  - apply (unlabelled_filter_hides_every_card Pages.unlabelled_filter 1
             (mkButton None false) [Frame; Elapse 180]
             ltac:(split; reflexivity) eq_refl eq_refl eq_refl eq_refl
             ltac:(vm_compute; discriminate) 0 web_card eq_refl).
  - apply (unlabelled_filter_hides_every_card Pages.unlabelled_filter 1
             (mkButton None false) [Frame; Elapse 180]
             ltac:(split; reflexivity) eq_refl eq_refl eq_refl eq_refl
             ltac:(vm_compute; discriminate) 1 design_card eq_refl).
Defined.

Lemma run_keeps_cards_and_filters_witness :
  exists p',
    projects (run [Click 1; Elapse 10; Click 0; Frame] sample) !! 1 = Some p' /\
    category p' = category design_card.
Proof.
  apply (proj1 (proj2 (proj2 (run_keeps_cards_and_filters
                                [Click 1; Elapse 10; Click 0; Frame] sample)))
           1 design_card eq_refl).
Defined.

End MoreFilterFacts.

(* ===================================================================== *)
(** * More about the start-up                                             *)
(* ===================================================================== *)

Section MoreScriptFacts.

Import Script.

(** The loop of the start-up callback after its first [k] rounds. *)
Lemma start_cards_prefix (s : Filter.State) (k : nat) :
  k <= length (Filter.projects s) ->
  let r := fold_left Filter.start_card (seq 0 k) s in
  Filter.frameQueue r = Filter.frameQueue s /\
  forall i,
    Filter.projects r !! i =
      if decide (i < k) then
        (fun p => Filter.set_opacity (lit "1")
                    (Filter.set_transitionDelay
                       (JsString.ofNat (N.of_nat i * 45) ++ lit "ms") p))
          <$> Filter.projects s !! i
      else Filter.projects s !! i.
Proof.
  induction k as [|k IH]; intros Hk; cbv zeta.
  - cbn. split; [reflexivity|]. intros i. reflexivity.
  - rewrite seq_S, fold_left_app. cbn [fold_left Nat.add].
    destruct (IH ltac:(lia)) as (Hq & Hp). clear IH.
    set (r := fold_left Filter.start_card (seq 0 k) s) in *.
    split; [exact Hq|].
    intros i. unfold Filter.start_card. rewrite !style_lookup, !Hp.
    destruct (decide (k = i)) as [<-|Hne].
    + destruct (decide (k < k)); [lia|]. destruct (decide (k < S k)); [|lia].
      destruct (decide (k = k)); [|congruence].
      destruct (Filter.projects s !! k); reflexivity.
    + destruct (decide (i < k)), (decide (i < S k)); try lia; reflexivity.
Qed.

(** The first frame after the start-up, when nothing else is queued. *)
Lemma first_frame (s : Filter.State) :
  Filter.frameQueue s = [Filter.StartAnimations] ->
  Filter.frameQueue (Filter.frame s) = [] /\
  forall i p, Filter.projects s !! i = Some p ->
    Filter.projects (Filter.frame s) !! i =
      Some (Filter.mkCard (Filter.category p) (Filter.display p) (lit "1")
                          (JsString.ofNat (N.of_nat i * 45) ++ lit "ms")).
Proof.
  intros Hq. unfold Filter.frame. rewrite Hq. cbn [fold_left Filter.run_callback].
  destruct (start_cards_prefix (Filter.set_frameQueue [] s)
              (length (Filter.projects (Filter.set_frameQueue [] s))) (le_n _))
    as (Hf & Hp).
  split; [exact Hf|].
  intros i p Hi. rewrite Hp. cbn [Filter.projects Filter.set_frameQueue].
  apply lookup_lt_Some in Hi as Hlt.
  destruct (decide (i < length (Filter.projects s))); [|lia].
  now rewrite Hi.
Qed.

(** Unless the visitor prefers reduced motion, the first frame after the
    start-up gives every project card the opacity 1 and a transition
    delay of 45 ms times its position, and leaves its display and its
    category alone; with reduced motion the start-up queues nothing and
    the cards stay as the style sheet has them (lines 8 and 225-233). *)
Theorem startup_animation (p : Page) :
  present ModalContainer p = true ->
  Filter.frameQueue (filterState p) = [] ->
  (reducedMotion p = false ->
   forall i c, Filter.projects (filterState p) !! i = Some c ->
     Filter.projects (Filter.frame (filterState (Js.final (init p)))) !! i =
       Some (Filter.mkCard (Filter.category c) (Filter.display c) (lit "1")
                           (JsString.ofNat (N.of_nat i * 45) ++ lit "ms"))) /\
  (reducedMotion p = true -> filterState (Js.final (init p)) = filterState p).
Proof.
  intros Hm Hq. rewrite init_spec. unfold present in Hm.
  destruct (Modal.modal (modalState p)) as [a|]; [|discriminate].
  cbn [Js.final]. unfold with_start_animations.
  cbn [reducedMotion with_year set_listeners filterState].
  split; intros Hr; rewrite Hr.
  - intros i c Hi. cbn [filterState set_filterState].
    apply first_frame; [|exact Hi].
    unfold Filter.requestAnimationFrame. cbn. now rewrite Hq.
  - reflexivity.
Qed.

Lemma startup_animation_witness :
  Filter.projects (Filter.frame (filterState (Js.final (init complete)))) !! 1 =
    Some (Filter.mkCard (Some (lit "design")) (lit "") (lit "1") (lit "45ms")).
Proof.
  apply (proj1 (startup_animation complete eq_refl eq_refl) eq_refl 1 Filter.design_card
           eq_refl).
Defined.

(** The start-up writes nothing but the year, the listeners and the
    animation queue: the navigation, the modal, the contact form, the
    cards and the filter buttons are as they were, whether it runs to its
    end or throws half way (lines 2-234). *)
Theorem init_touches_nothing_else (p : Page) :
  navState (Js.final (init p)) = navState p /\
  modalState (Js.final (init p)) = modalState p /\
  contactState (Js.final (init p)) = contactState p /\
  Filter.projects (filterState (Js.final (init p))) = Filter.projects (filterState p) /\
  Filter.filterButtons (filterState (Js.final (init p)))
    = Filter.filterButtons (filterState p) /\
  Filter.timers (filterState (Js.final (init p))) = Filter.timers (filterState p) /\
  exists added, listeners (Js.final (init p)) = listeners p ++ added.
Proof.
  rewrite init_spec.
  destruct (Modal.modal (modalState p)) as [a|]; cbn [Js.final].
  - unfold with_start_animations. cbn [reducedMotion with_year set_listeners].
    destruct (reducedMotion p); cbn; repeat split; eauto.
  - cbn. repeat split; eauto.
Qed.

(** A page with the form but without [#form-status] starts up like any
    other and gets its submit handler; the handler then throws at its
    first statement: nothing is validated, shown or sent (lines 175-178). *)
Theorem missing_status_breaks_submission (p : Page) (r : Contact.fetchResult) :
  present ModalContainer p = true -> present ContactForm p = true ->
  present StatusRegion p = false ->
  exists p',
    init p = Js.Ok tt p' /\
    FormSubmit ∈ listeners p' /\
    Contact.submit r (contactState p') = Js.Throw Js.TypeError (contactState p').
Proof.
  intros Hm Hf Hs. rewrite init_spec. unfold present in Hm, Hs.
  destruct (Modal.modal (modalState p)) as [a|]; [|discriminate].
  eexists. split; [reflexivity|]. split.
  - assert (Hls : forall q, listeners (with_start_animations q) = listeners q).
    { intros q. unfold with_start_animations. now destruct (reducedMotion q). }
    rewrite Hls. cbn [listeners set_listeners].
    rewrite !elem_of_app. right. right.
    apply in_attached_after; [reflexivity|]. auto.
  - assert (Hc : forall q, contactState (with_start_animations q) = contactState q).
    { intros q. unfold with_start_animations. now destruct (reducedMotion q). }
    rewrite Hc. cbn [contactState set_listeners with_year].
    destruct (Contact.status (contactState p)) as [st|] eqn:Hst; [discriminate|].
    unfold Contact.submit, Contact.submit_begin, Contact.status_text.
    erewrite bind_throw; [reflexivity|].
    erewrite bind_throw; [reflexivity|].
    erewrite bind_throw; [reflexivity|].
    now apply deref_none.
Qed.

Lemma missing_status_breaks_submission_witness :
  exists p',
    init Pages.without_status = Js.Ok tt p' /\
    FormSubmit ∈ listeners p' /\
    Contact.submit Contact.Rejected (contactState p')
      = Js.Throw Js.TypeError (contactState p').
Proof.
  apply (missing_status_breaks_submission Pages.without_status Contact.Rejected);
    reflexivity.
Defined.

(** A page with the toggle but without [#site-nav] starts up like any
    other and gets its click handler; a click then inverts
    [aria-expanded] and throws before anything is shown (lines 15-20). *)
Theorem missing_panel_breaks_toggle (p : Page) (a : option jsstring) :
  present ModalContainer p = true ->
  Nav.navToggle (navState p) = Some a -> present NavPanel p = false ->
  exists p',
    init p = Js.Ok tt p' /\
    NavToggleClick ∈ listeners p' /\
    Nav.toggle_click (navState p') =
      Js.Throw Js.TypeError
        (Nav.set_aria_expanded
           (Nav.ofBool (negb (bool_decide (a = Some (lit "true"))))) (navState p')).
Proof.
  intros Hm Ht Hn. rewrite init_spec. unfold present in Hm, Hn.
  destruct (Modal.modal (modalState p)) as [m|]; [|discriminate].
  eexists. split; [reflexivity|]. split.
  - assert (Hls : forall q, listeners (with_start_animations q) = listeners q).
    { intros q. unfold with_start_animations. now destruct (reducedMotion q). }
    rewrite Hls. cbn [listeners set_listeners].
    rewrite !elem_of_app. right. left.
    apply in_attached_before; [reflexivity|]. left. split; [reflexivity|].
    unfold present. rewrite Ht. reflexivity.
  - assert (Hc : forall q, navState (with_start_animations q) = navState q).
    { intros q. unfold with_start_animations. now destruct (reducedMotion q). }
    rewrite Hc. cbn [navState set_listeners with_year].
    destruct (Nav.nav (navState p)) as [d|] eqn:Hd; [discriminate|].
    unfold Nav.toggle_click.
    erewrite bind_ok by (apply deref_some; exact Ht).
    cbv zeta. unfold Js.bind at 1, Js.modify at 1.
    erewrite bind_throw; [reflexivity|].
    apply deref_none. exact Hd.
Qed.

Lemma missing_panel_breaks_toggle_witness :
  exists p',
    init Pages.without_panel = Js.Ok tt p' /\
    NavToggleClick ∈ listeners p' /\
    Nav.toggle_click (navState p') =
      Js.Throw Js.TypeError
        (Nav.set_aria_expanded (lit "true") (navState p')).
Proof.
  apply (missing_panel_breaks_toggle Pages.without_panel (Some (lit "false")));
    reflexivity.
Defined.

End MoreScriptFacts.

(* ===================================================================== *)
(** * Facts about the scroll spy                                          *)
(* ===================================================================== *)

Section SpyFacts.

Import Spy.

Lemma find_link_Some (id : jsstring) (links : list Link) (i : nat) (a : Link) :
  find_link id links = Some (i, a) <->
  links !! i = Some a /\ href a = Some (hash id) /\
  forall j b, links !! j = Some b -> j < i -> href b <> Some (hash id).
Proof. unfold find_link. rewrite list_find_Some. reflexivity. Qed.

Lemma observe_hrefs (links : list Link) (e : Entry) :
  href <$> observe links e = href <$> links.
Proof.
  unfold observe. destruct (find_link (target e) links) as [[i a]|]; [|reflexivity].
  apply list_eq. intros k. rewrite !list_lookup_fmap, list_lookup_alter.
  destruct (decide (i = k)) as [->|]; [|reflexivity].
  destruct (links !! k); reflexivity.
Qed.

Lemma callback_hrefs (entries : list Entry) (links : list Link) :
  href <$> callback entries links = href <$> links.
Proof.
  unfold callback. revert links.
  induction entries as [|e es IH]; intros links; [reflexivity|].
  cbn [fold_left]. rewrite IH. apply observe_hrefs.
Qed.

(** Which link [find] returns depends on the [href]s alone. *)
Lemma find_link_index (id : jsstring) (l1 l2 : list Link) (i : nat) (a1 : Link) :
  href <$> l1 = href <$> l2 ->
  find_link id l1 = Some (i, a1) ->
  exists a2, find_link id l2 = Some (i, a2).
Proof.
  intros Heq Hf. apply find_link_Some in Hf as (Hi & Ha & Hfirst).
  assert (Hlk : forall k, href <$> l1 !! k = href <$> l2 !! k).
  { intros k. rewrite <- !list_lookup_fmap. now rewrite Heq. }
  pose proof (Hlk i) as Hk. rewrite Hi in Hk.
  destruct (l2 !! i) as [a2|] eqn:H2; [|discriminate].
  injection Hk as Hk. exists a2. apply find_link_Some.
  split; [exact H2|]. split; [congruence|].
  intros j b Hj Hlt. pose proof (Hlk j) as Hkj. rewrite Hj in Hkj.
  destruct (l1 !! j) as [b1|] eqn:H1; [|discriminate].
  injection Hkj as Hkj. rewrite <- Hkj. now apply (Hfirst j b1).
Qed.

(** A link that no entry's [find] returns keeps its class list. *)
Lemma callback_untouched (links : list Link) (j : nat) (entries : list Entry) :
  Forall (fun e => forall a, find_link (target e) links <> Some (j, a)) entries ->
  forall l b, href <$> l = href <$> links -> l !! j = Some b ->
    callback entries l !! j = Some b.
Proof.
  unfold callback. induction 1 as [|e es He _ IH]; intros l b Hh Hj; [exact Hj|].
  cbn [fold_left]. apply IH; [now rewrite observe_hrefs|].
  unfold observe. destruct (find_link (target e) l) as [[i a]|] eqn:Hf; [|exact Hj].
  destruct (find_link_index _ _ _ _ _ Hh Hf) as [a2 H2].
  rewrite list_lookup_alter. destruct (decide (i = j)) as [->|]; [|exact Hj].
  now destruct (He a2).
Qed.

(** When one batch of entries names a section more than once, the last of
    them decides: the first link to that section ends up active exactly
    when that entry intersects, whatever the entries before it and the
    entries for other sections after it say (lines 54-60). *)
Theorem spy_last_entry_wins
    (before after : list Entry) (e : Entry) (links : list Link) (i : nat) (a : Link) :
  find_link (target e) links = Some (i, a) ->
  Forall (fun e' => target e' <> target e) after ->
  callback (before ++ e :: after) links !! i
    = Some (mkLink (href a) (isIntersecting e)).
Proof.
  intros Hf Hafter. unfold callback. rewrite fold_left_app. cbn [fold_left].
  fold (callback before links).
  pose proof (callback_hrefs before links) as Hh.
  set (l1 := callback before links) in *.
  destruct (find_link_index (target e) links l1 i a (eq_sym Hh) Hf) as [a1 H1].
  apply find_link_Some in Hf as (Hi & Ha & _).
  apply (callback_untouched links i).
  - eapply Forall_impl; [exact Hafter|]. intros e' Hne a' Hf'.
    apply find_link_Some in Hf' as (Hi' & Ha' & _).
    rewrite Hi in Hi'. injection Hi' as <-. rewrite Ha in Ha'.
    injection Ha' as Ha'. now apply Hne.
  - now rewrite observe_hrefs.
  - unfold observe. rewrite H1, list_lookup_alter.
    destruct (decide (i = i)); [|congruence].
    apply find_link_Some in H1 as (Hi1 & Ha1 & _). rewrite Hi1. cbn.
    do 2 f_equal. congruence.
Qed.

Lemma spy_last_entry_wins_witness :
  callback [mkEntry (lit "about") false; mkEntry (lit "about") true;
            mkEntry (lit "projects") true]
           Pages.nav_links !! 0
    = Some (mkLink (Some (lit "#about")) true).
Proof.
  apply (spy_last_entry_wins [mkEntry (lit "about") false]
           [mkEntry (lit "projects") true] (mkEntry (lit "about") true)
           Pages.nav_links 0 (mkLink (Some (lit "#about")) false)).
  - reflexivity.
  - repeat constructor. vm_compute. discriminate.
Defined.

(** Of two links to the same section only the first is ever marked: the
    later one keeps its class list through every batch of entries
    (line 57: [find] returns the first match). *)
Theorem spy_second_link_never_marked
    (entries : list Entry) (links : list Link) (i j : nat) (a b : Link) :
  i < j -> links !! i = Some a -> links !! j = Some b -> href a = href b ->
  callback entries links !! j = Some b.
Proof.
  intros Hlt Hi Hj Hab. apply (callback_untouched links j); [|reflexivity|exact Hj].
  apply Forall_forall. intros e _ x Hf.
  apply find_link_Some in Hf as (Hx & Hhx & Hfirst).
  rewrite Hj in Hx. injection Hx as <-.
  apply (Hfirst i a Hi Hlt). congruence.
Qed.

Lemma spy_second_link_never_marked_witness :
  callback [mkEntry (lit "about") true; mkEntry (lit "projects") true]
           Pages.nav_links !! 2
    = Some (mkLink (Some (lit "#about")) false).
Proof.
  apply (spy_second_link_never_marked _ Pages.nav_links 0 2
           (mkLink (Some (lit "#about")) false)).
  - lia.
  - reflexivity.
  - reflexivity.
  - reflexivity.
Defined.

(** The callback never changes an [href], and a link whose [href] is not
    [#] followed by the [id] of one of the entries – a link without
    [href] among them – keeps its class list (lines 55-58). *)
Theorem spy_leaves_other_links
    (entries : list Entry) (links : list Link) (j : nat) (b : Link) :
  links !! j = Some b ->
  Forall (fun e => href b <> Some (hash (target e))) entries ->
  callback entries links !! j = Some b /\
  href <$> callback entries links = href <$> links.
Proof.
  intros Hj Hno. split; [|apply callback_hrefs].
  apply (callback_untouched links j); [|reflexivity|exact Hj].
  eapply Forall_impl; [exact Hno|]. intros e Hne x Hf.
  apply find_link_Some in Hf as (Hx & Hhx & _).
  rewrite Hj in Hx. injection Hx as <-. contradiction.
Qed.

Lemma spy_leaves_other_links_witness :
  callback [mkEntry (lit "about") true; mkEntry (lit "contact") true]
           Pages.nav_links !! 1
    = Some (mkLink (Some (lit "#projects")) false) /\
  href <$> callback [mkEntry (lit "about") true; mkEntry (lit "contact") true]
                    Pages.nav_links
    = href <$> Pages.nav_links.
Proof.
  apply (spy_leaves_other_links _ Pages.nav_links 1).
  - reflexivity.
  - repeat constructor; vm_compute; discriminate.
Defined.

End SpyFacts.

(* ===================================================================== *)
(** * Blanks typed around a value                                         *)
(* ===================================================================== *)

Section PaddingFacts.

Import Contact.

Lemma trimStart_app_blank (w s : jsstring) :
  Forall (fun c => JsString.isSpace c = true) w ->
  JsString.trimStart (w ++ s) = JsString.trimStart s.
Proof.
  induction 1 as [|c w Hc _ IH]; [reflexivity|].
  cbn [app JsString.trimStart]. now rewrite Hc.
Qed.

Lemma trimEnd_app_blank (s w : jsstring) :
  Forall (fun c => JsString.isSpace c = true) w ->
  JsString.trimEnd (s ++ w) = JsString.trimEnd s.
Proof.
  intros Hw. unfold JsString.trimEnd. rewrite rev_app_distr.
  rewrite trimStart_app_blank; [reflexivity|]. now apply Forall_rev.
Qed.

Lemma trimStart_app (s t : jsstring) :
  JsString.trimStart s <> [] ->
  JsString.trimStart (s ++ t) = JsString.trimStart s ++ t.
Proof.
  induction s as [|c s IH]; [now intros []|].
  cbn [app JsString.trimStart]. destruct (JsString.isSpace c); [exact IH | reflexivity].
Qed.

(** Blanks on either side of a value are gone after [trim]. *)
Lemma trim_padded (a s b : jsstring) :
  Forall (fun c => JsString.isSpace c = true) a ->
  Forall (fun c => JsString.isSpace c = true) b ->
  JsString.trim (a ++ s ++ b) = JsString.trim s.
Proof.
  intros Ha Hb. unfold JsString.trim. rewrite (trimStart_app_blank a _ Ha).
  destruct (JsString.trimStart s) as [|c t] eqn:Hs.
  - destruct (trimStart_split s) as (w & Hw & Hblank). rewrite Hs, app_nil_r in Hw.
    subst w. rewrite trimStart_all_space; [reflexivity|]. now apply Forall_app.
  - rewrite trimStart_app by (rewrite Hs; discriminate).
    rewrite Hs. now apply trimEnd_app_blank.
Qed.

(** The mail-fallback handler sees the three values through [trim] only. *)
Lemma mail_fallback_by_trims (s s' : State) (n e m n' e' m' : Field) (link : jsstring) :
  nameField s = Some n -> emailField s = Some e -> messageField s = Some m ->
  nameField s' = Some n' -> emailField s' = Some e' -> messageField s' = Some m' ->
  JsString.trim (value n') = JsString.trim (value n) ->
  JsString.trim (value e') = JsString.trim (value e) ->
  JsString.trim (value m') = JsString.trim (value m) ->
  mail_fallback_click s = Js.Ok tt (set_href link s) ->
  mail_fallback_click s' = Js.Ok tt (set_href link s').
Proof.
  intros Hn He Hm Hn' He' Hm' Tn Te Tm. unfold mail_fallback_click.
  rewrite (bind_ok _ _ s s _ (trimmed_some _ _ _ Hn)).
  rewrite (bind_ok _ _ s s _ (trimmed_some _ _ _ He)).
  rewrite (bind_ok _ _ s s _ (trimmed_some _ _ _ Hm)).
  rewrite (bind_ok _ _ s' s' _ (trimmed_some _ _ _ Hn')).
  rewrite (bind_ok _ _ s' s' _ (trimmed_some _ _ _ He')).
  rewrite (bind_ok _ _ s' s' _ (trimmed_some _ _ _ Hm')).
  rewrite Tn, Te, Tm.
  destruct (JsString.encodeURIComponent
              (lit "Contact from "
               ++ JsString.or_else (JsString.trim (value n)) (lit "Website")))
    as [subject|] eqn:Hs.
  2:{ rewrite (bind_throw _ _ s s Js.URIError) by now apply encode_none. discriminate. }
  rewrite (bind_ok _ _ s s subject) by now apply encode_some.
  rewrite (bind_ok _ _ s' s' subject) by now apply encode_some.
  destruct (JsString.encodeURIComponent
              (draft_body (JsString.trim (value n)) (JsString.trim (value e))
                          (JsString.trim (value m))))
    as [body|] eqn:Hb.
  2:{ rewrite (bind_throw _ _ s s Js.URIError) by now apply encode_none. discriminate. }
  rewrite (bind_ok _ _ s s body) by now apply encode_some.
  rewrite (bind_ok _ _ s' s' body) by now apply encode_some.
  unfold Js.modify, set_href. intros H. injection H as H. now rewrite H.
Qed.

(** Blanks typed before or after the name, the address or the message
    never reach the mail draft: with them and without them the
    mail-fallback control composes the same link (lines 166-171). *)
Theorem mail_fallback_ignores_padding
    (s s' : State) (n e m n' e' m' : Field) (a1 b1 a2 b2 a3 b3 link : jsstring) :
  nameField s = Some n -> emailField s = Some e -> messageField s = Some m ->
  nameField s' = Some n' -> emailField s' = Some e' -> messageField s' = Some m' ->
  value n' = a1 ++ value n ++ b1 ->
  value e' = a2 ++ value e ++ b2 ->
  value m' = a3 ++ value m ++ b3 ->
  Forall (fun c => JsString.isSpace c = true) (a1 ++ b1 ++ a2 ++ b2 ++ a3 ++ b3) ->
  mail_fallback_click s = Js.Ok tt (set_href link s) <->
  mail_fallback_click s' = Js.Ok tt (set_href link s').
Proof.
  intros Hn He Hm Hn' He' Hm' Pn Pe Pm Hblank.
  rewrite !Forall_app in Hblank.
  destruct Hblank as (A1 & B1 & A2 & B2 & A3 & B3).
  assert (Tn : JsString.trim (value n') = JsString.trim (value n))
    by (rewrite Pn; now apply trim_padded).
  assert (Te : JsString.trim (value e') = JsString.trim (value e))
    by (rewrite Pe; now apply trim_padded).
  assert (Tm : JsString.trim (value m') = JsString.trim (value m))
    by (rewrite Pm; now apply trim_padded).
  split.
  - now apply (mail_fallback_by_trims s s' n e m n' e' m').
  - now apply (mail_fallback_by_trims s' s n' e' m' n e m).
Qed.

Lemma mail_fallback_ignores_padding_witness :
  mail_fallback_click (sample (lit " Ann") (lit "ann@example.org ") (lit "Hello"))
    = Js.Ok tt (set_href
                  (lit "mailto:monishp2212@gmail.com?subject=Contact%20from%20Ann&body=Hello%0A%0A%E2%80%94%20Ann%0Aann%40example.org")
                  (sample (lit " Ann") (lit "ann@example.org ") (lit "Hello"))).
Proof.
  apply (mail_fallback_ignores_padding
           (sample (lit "Ann") (lit "ann@example.org") (lit "Hello"))
           (sample (lit " Ann") (lit "ann@example.org ") (lit "Hello"))
           (mkField (lit "Ann") (lit "")) (mkField (lit "ann@example.org") (lit ""))
           (mkField (lit "Hello") (lit ""))
           (mkField (lit " Ann") (lit "")) (mkField (lit "ann@example.org ") (lit ""))
           (mkField (lit "Hello") (lit ""))
           (lit " ") [] [] (lit " ") [] []);
    try reflexivity.
  repeat constructor.
Defined.

End PaddingFacts.
